(** * Realtime audio session engine of studiocog/soul

    A shallow embedding of [GeminiLiveService] (the audio session class that
    [App.tsx] imports from [./services/geminiService]; its text is lines
    74-229 of [src/components/SoulVisualizer.tsx], and the line numbers
    quoted below are those) and of the part of [App.startSession] that
    guards it, together with the properties of the playback scheduler, the
    teardown and the connection set-up.

    Conventions of the embedding:
    - JavaScript numbers that hold times (seconds on the output clock) and
      samples are exact rationals [Q]; no rounding of doubles is modelled;
    - a method of the class is a computation in the monad [Js]: it reads and
      updates the [World] and either completes normally or throws;
    - every call that leaves the class (a callback of the configuration, a
      Web Audio or media call, the console) is appended to [log], oldest
      first;
    - an [await] is a point where the method is cut in two: the part before
      and the part after are separate computations, so that other callbacks
      can be run in between. *)

From Stdlib Require Import ZArith QArith Qminmax Qround Qabs.
From Stdlib Require Import String Ascii Bool Arith Lia Lqa List.
Import ListNotations.

Set Implicit Arguments.

(** ** Values that cross the boundary of the class *)

(** A byte of a decoded payload ([Uint8Array] element), [0 <= b < 256]. *)
Definition byte := Z.

(** The reason of a rejected promise or a thrown exception: an [Error]
    (or [DOMException]) object, of which only [message] is read. *)
Record JsError := { message : string }.

(** [AudioBuffer]: one channel of samples at a sample rate;
    [duration] is [length / sampleRate] as in Web Audio. *)
Record AudioBuffer := {
  channelData : list Q;
  sampleRate : positive
}.

Definition duration (b : AudioBuffer) : Q :=
  Z.of_nat (length (channelData b)) # sampleRate b.

(** The two fields of [LiveServerMessage] that [handleMessage] reads:
    [message.serverContent?.modelTurn?.parts?.[0]?.inlineData?.data]
    ([None] when any link of the chain is missing) and
    [message.serverContent?.interrupted] (as a truth value). *)
Record LiveServerMessage := {
  base64Audio : option string;
  interrupted : bool
}.

(** JavaScript truthiness of an optional string: [undefined] and the empty
    string are falsy. *)
Definition truthy (o : option string) : option string :=
  match o with
  | Some EmptyString => None
  | Some s => Some s
  | None => None
  end.

Inductive ContextState := suspended | running | closed.

(** [AudioContext]: its state and its clock [currentTime] (seconds). *)
Record AudioContext := {
  contextRate : positive;
  state : ContextState;
  currentTime : Q
}.

(** An [AudioBufferSourceNode], named by the order of its creation. *)
Definition SourceNode := nat.

Definition Track := nat.

(** [MediaStream]: the tracks that [getTracks()] returns. *)
Record MediaStream := { getTracks : list Track }.

(** [ScriptProcessorNode] created by [handleOpen]: its buffer size and
    whether [onaudioprocess] is installed with the node wired between the
    microphone source and the destination. *)
Record ScriptProcessorNode := {
  bufferSize : nat;
  forwarding : bool
}.

(** The session object of the SDK: [hasClose] is
    [typeof session.close === 'function']. *)
Record Session := { hasClose : bool }.

Inductive Promise (A : Type) :=
| Pending
| Fulfilled (a : A)
| Rejected (e : JsError).

Arguments Pending {A}.
Arguments Fulfilled {A} a.
Arguments Rejected {A} e.

Inductive Which := Input | Output.

(** Calls that leave the class. *)
Inductive Effect :=
| ConsoleLog (text : string)
| ConsoleError (text : string)
| OnAudioData (b : AudioBuffer)            (* config.onAudioData(b) *)
| OnError (cause : string)                 (* config.onError(new Error(cause)) *)
| OnClose                                  (* config.onClose() *)
| SourceStart (n : SourceNode) (when : Q) (b : AudioBuffer)
| SourceStop (n : SourceNode)
| TrackStop (t : Track)
| ProcessorDisconnect
| ContextResume (c : Which)
| ContextClose (c : Which)
| GetUserMedia
| LiveConnect                              (* client.live.connect({callbacks, ...}) *)
| CaptureInstalled                         (* onaudioprocess set, source -> processor -> destination *)
| SessionClose                             (* session.close() *)
| SendRealtimeInput (data : string).

(** ** The class and its world *)

(** The mutable fields of [GeminiLiveService], with the names of the
    source.  [sources] is the [Set] of scheduled nodes in insertion order. *)
Record GeminiLiveService := {
  sessionPromise : option (Promise Session);
  inputAudioContext : option AudioContext;
  outputAudioContext : option AudioContext;
  nextStartTime : Q;
  sources : list SourceNode;
  stream : option MediaStream;
  processor : option ScriptProcessorNode
}.

(** A reaction registered with [sessionPromise.then(...)] while the promise
    is still pending: the close of line 225 or the send of line 160. *)
Inductive Reaction :=
| CloseSession
| SendInput (data : string).

Record World := {
  this : GeminiLiveService;
  created : nat;            (* number of source nodes created so far *)
  reactions : list Reaction; (* waiting for the session promise, oldest first *)
  log : list Effect
}.

(** The instance as the constructor leaves it. *)
Definition newService : GeminiLiveService :=
  {| sessionPromise := None; inputAudioContext := None;
     outputAudioContext := None; nextStartTime := 0; sources := [];
     stream := None; processor := None |}.

Definition newWorld : World :=
  {| this := newService; created := 0; reactions := []; log := [] |}.

Definition set_sessionPromise v (s : GeminiLiveService) :=
  {| sessionPromise := v; inputAudioContext := inputAudioContext s;
     outputAudioContext := outputAudioContext s; nextStartTime := nextStartTime s;
     sources := sources s; stream := stream s; processor := processor s |}.

Definition set_inputAudioContext v (s : GeminiLiveService) :=
  {| sessionPromise := sessionPromise s; inputAudioContext := v;
     outputAudioContext := outputAudioContext s; nextStartTime := nextStartTime s;
     sources := sources s; stream := stream s; processor := processor s |}.

Definition set_outputAudioContext v (s : GeminiLiveService) :=
  {| sessionPromise := sessionPromise s; inputAudioContext := inputAudioContext s;
     outputAudioContext := v; nextStartTime := nextStartTime s;
     sources := sources s; stream := stream s; processor := processor s |}.

Definition set_nextStartTime v (s : GeminiLiveService) :=
  {| sessionPromise := sessionPromise s; inputAudioContext := inputAudioContext s;
     outputAudioContext := outputAudioContext s; nextStartTime := v;
     sources := sources s; stream := stream s; processor := processor s |}.

Definition set_sources v (s : GeminiLiveService) :=
  {| sessionPromise := sessionPromise s; inputAudioContext := inputAudioContext s;
     outputAudioContext := outputAudioContext s; nextStartTime := nextStartTime s;
     sources := v; stream := stream s; processor := processor s |}.

Definition set_stream v (s : GeminiLiveService) :=
  {| sessionPromise := sessionPromise s; inputAudioContext := inputAudioContext s;
     outputAudioContext := outputAudioContext s; nextStartTime := nextStartTime s;
     sources := sources s; stream := v; processor := processor s |}.

Definition set_processor v (s : GeminiLiveService) :=
  {| sessionPromise := sessionPromise s; inputAudioContext := inputAudioContext s;
     outputAudioContext := outputAudioContext s; nextStartTime := nextStartTime s;
     sources := sources s; stream := stream s; processor := v |}.

(** ** The monad of methods *)

Inductive Completion (A : Type) :=
| Normal (a : A)
| Throw (e : JsError).

Arguments Normal {A} a.
Arguments Throw {A} e.

Definition Js (A : Type) : Type := World -> Completion A * World.

Definition ret {A} (a : A) : Js A := fun w => (Normal a, w).

Definition bind {A B} (c : Js A) (k : A -> Js B) : Js B :=
  fun w =>
    match c w with
    | (Normal a, w') => k a w'
    | (Throw e, w') => (Throw e, w')
    end.

Definition throw {A} (e : JsError) : Js A := fun w => (Throw e, w).

(** [try { c } catch (e) { h e }]: effects of [c] before the throw stay. *)
Definition try_catch {A} (c : Js A) (h : JsError -> Js A) : Js A :=
  fun w =>
    match c w with
    | (Normal a, w') => (Normal a, w')
    | (Throw e, w') => h e w'
    end.

Definition getThis : Js GeminiLiveService := fun w => (Normal (this w), w).

Definition update (f : GeminiLiveService -> GeminiLiveService) : Js unit :=
  fun w => (Normal tt, {| this := f (this w); created := created w;
                          reactions := reactions w; log := log w |}).

Definition emit (e : Effect) : Js unit :=
  fun w => (Normal tt, {| this := this w; created := created w;
                          reactions := reactions w; log := log w ++ [e] |}).

(** Lift the completion of an outside call into the monad. *)
Definition complete {A} (c : Completion A) : Js A := fun w => (c, w).

Declare Scope js_scope.
Delimit Scope js_scope with js.
Notation "x <- c ;; k" := (bind c (fun x => k))
  (at level 61, c at next level, right associativity) : js_scope.
Notation "c ;; k" := (bind c (fun _ => k))
  (at level 61, right associativity) : js_scope.
Local Open Scope js_scope.

Fixpoint forEach {A} (l : list A) (f : A -> Js unit) : Js unit :=
  match l with
  | [] => ret tt
  | x :: l' => f x ;; forEach l' f
  end.

Definition when (b : bool) (c : Js unit) : Js unit := if b then c else ret tt.

(** Running a method to its end: the world it leaves. *)
Definition exec {A} (c : Js A) (w : World) : World := snd (c w).

Definition result {A} (c : Js A) (w : World) : Completion A := fst (c w).

Definition isNil {A} (l : list A) : bool :=
  match l with [] => true | _ => false end.

(** ** [Set] operations on [sources] *)

Definition set_add (n : SourceNode) (l : list SourceNode) : list SourceNode :=
  if existsb (Nat.eqb n) l then l else l ++ [n].

Definition set_delete (n : SourceNode) (l : list SourceNode) : list SourceNode :=
  filter (fun m => negb (Nat.eqb n m)) l.

(** ** What the platform answers *)

(** How the calls that [disconnect] and the capture callback make into the
    browser and the SDK complete.  The source wraps none of the first three
    in a [try]; they are kept fallible so that what a throw would do stays
    visible. *)
Record Platform := {
  trackStop : Track -> Completion unit;           (* track.stop() *)
  processorDisconnect : Completion unit;          (* processor.disconnect() *)
  contextClose : Which -> Completion unit;        (* context.close() *)
  sessionClose : Completion unit;                 (* session.close() *)
  sendRealtimeInput : string -> Completion unit   (* session.sendRealtimeInput(..) *)
}.

(** What [connect] meets while it sets up: the state in which each new
    context starts (autoplay policy), and how [resume()] and
    [getUserMedia()] settle. *)
Record Devices := {
  inputState : ContextState;
  outputState : ContextState;
  resumeInput : Completion unit;
  resumeOutput : Completion unit;
  getUserMedia : Completion MediaStream
}.

(** ** The methods of [GeminiLiveService] *)

Section Engine.

(** [decode] and [decodeAudioData] are imported from [../utils/audioUtils],
    which is not part of the sources at hand: they are parameters.
    [decode] turns the base64 text into bytes; [decodeAudioData] (called
    with the output context, 24000 Hz, one channel) builds the buffer.
    Either may throw. *)
Variable decode : string -> Completion (list byte).
Variable decodeAudioData : list byte -> Completion AudioBuffer.

(** [createBlob] of the same module, reduced to the [data] field of the
    blob it returns. *)
Variable createBlob : list Q -> string.

Variable platform : Platform.

(** *** Playback scheduler *)

(** Lines 206-214. *)
Definition stopAudioPlayback : Js unit :=
  s <- getThis ;;
  forEach (sources s) (fun source => emit (SourceStop source)) ;;
  update (set_sources []) ;;
  match outputAudioContext s with
  | Some ctx => update (set_nextStartTime (currentTime ctx))
  | None => ret tt
  end.

(** [this.outputAudioContext.createBufferSource()]. *)
Definition createBufferSource : Js SourceNode :=
  fun w => (Normal (created w),
            {| this := this w; created := S (created w);
               reactions := reactions w; log := log w |}).

(** What a call of [handleMessage] is waiting for when it gives up
    control: nothing (it has returned) or the promise of
    [decodeAudioData] for the bytes [encoded]. *)
Inductive Suspension :=
| Returned
| AwaitDecode (encoded : list byte).

(** Lines 172-181, up to the [await].  [encoded.length === 0] is
    [isNil encoded]. *)
Definition handleMessage_begin (m : LiveServerMessage) : Js Suspension :=
  s <- getThis ;;
  match truthy (base64Audio m), outputAudioContext s with
  | Some b, Some ctx =>
      encoded <- complete (decode b) ;;
      if isNil encoded then ret Returned
      else
        update (fun s' => set_nextStartTime
                            (Qmax (nextStartTime s') (currentTime ctx)) s') ;;
        ret (AwaitDecode encoded)
  | _, _ =>
      when (interrupted m) stopAudioPlayback ;;
      ret Returned
  end.

(** Lines 181-203, from the [await] on.  The ['ended'] listener of line
    189 is [sourceEnded] below. *)
Definition handleMessage_resume (m : LiveServerMessage) (encoded : list byte)
  : Js unit :=
  try_catch
    (audioBuffer <- complete (decodeAudioData encoded) ;;
     emit (OnAudioData audioBuffer) ;;
     source <- createBufferSource ;;
     s <- getThis ;;
     emit (SourceStart source (nextStartTime s) audioBuffer) ;;
     update (fun s' => set_nextStartTime
                         (nextStartTime s' + duration audioBuffer) s') ;;
     update (fun s' => set_sources (set_add source (sources s')) s'))
    (fun e => emit (ConsoleError "Error decoding audio")) ;;
  when (interrupted m) stopAudioPlayback.

(** The clock of a running context advances by [dt] seconds. *)
Definition advance (dt : Q) (c : option AudioContext) : option AudioContext :=
  match c with
  | Some ctx =>
      match state ctx with
      | running => Some {| contextRate := contextRate ctx; state := running;
                           currentTime := currentTime ctx + dt |}
      | _ => Some ctx
      end
  | None => None
  end.

Definition advanceClock (dt : Q) : Js unit :=
  update (fun s => set_inputAudioContext (advance dt (inputAudioContext s))
                     (set_outputAudioContext (advance dt (outputAudioContext s)) s)).

(** [handleMessage] run without another callback in between; [latency] is
    the time the awaited decode takes on the output clock. *)
Definition handleMessage (latency : Q) (m : LiveServerMessage) : Js unit :=
  k <- handleMessage_begin m ;;
  match k with
  | Returned => ret tt
  | AwaitDecode encoded => advanceClock latency ;; handleMessage_resume m encoded
  end.

(** The ['ended'] listener registered at line 189. *)
Definition sourceEnded (source : SourceNode) : Js unit :=
  update (fun s => set_sources (set_delete source (sources s)) s).

(** *** Teardown *)

Definition closeContext (c : option AudioContext) : option AudioContext :=
  match c with
  | Some ctx => Some {| contextRate := contextRate ctx; state := closed;
                        currentTime := currentTime ctx |}
  | None => None
  end.

(** The body of the [then] callback of lines 224-226 under its [catch]:
    a throw of [session.close()] is swallowed. *)
Definition closeIfPossible (session : Session) : Js unit :=
  if hasClose session
  then try_catch (emit SessionClose ;; complete (sessionClose platform))
                 (fun _ => ret tt)
  else ret tt.

Definition register (r : Reaction) : Js unit :=
  fun w => (Normal tt, {| this := this w; created := created w;
                          reactions := reactions w ++ [r]; log := log w |}).

(** [track.stop()]. *)
Definition stopTrack (track : Track) : Js unit :=
  emit (TrackStop track) ;; complete (trackStop platform track).

(** Lines 216-228.  The optional chaining [?.] skips a field that is
    [null]; nothing else guards lines 217-220.  Closing a context that is
    closed already is logged like any close (its rejected promise is not
    observed by the class).  The reaction on a fulfilled promise is run at
    once. *)
Definition disconnect : Js unit :=
  s <- getThis ;;
  match stream s with
  | Some media =>
      forEach (getTracks media) stopTrack
  | None => ret tt
  end ;;
  match processor s with
  | Some node =>
      emit ProcessorDisconnect ;;
      complete (processorDisconnect platform) ;;
      update (set_processor
                (Some {| bufferSize := bufferSize node; forwarding := false |}))
  | None => ret tt
  end ;;
  match inputAudioContext s with
  | Some _ =>
      emit (ContextClose Input) ;;
      complete (contextClose platform Input) ;;
      update (set_inputAudioContext (closeContext (inputAudioContext s)))
  | None => ret tt
  end ;;
  match outputAudioContext s with
  | Some _ =>
      emit (ContextClose Output) ;;
      complete (contextClose platform Output) ;;
      update (set_outputAudioContext (closeContext (outputAudioContext s)))
  | None => ret tt
  end ;;
  match sessionPromise s with
  | Some (Fulfilled session) => closeIfPossible session
  | Some Pending => register CloseSession
  | Some (Rejected _) => ret tt
  | None => ret tt
  end.

(** *** Connection set-up *)

Definition newContext (rate : positive) (st : ContextState) : AudioContext :=
  {| contextRate := rate; state := st; currentTime := 0 |}.

Definition resumed (c : option AudioContext) : option AudioContext :=
  match c with
  | Some ctx => Some {| contextRate := contextRate ctx; state := running;
                        currentTime := currentTime ctx |}
  | None => None
  end.

(** [err.message || "Failed to initialize connection"]. *)
Definition describe (err : JsError) : string :=
  match message err with
  | EmptyString => "Failed to initialize connection"
  | text => text
  end.

(** Lines 139-143.  [this.disconnect()] is not awaited: what it throws
    rejects a promise that nobody holds. *)
Definition connect_catch (err : JsError) : Js unit :=
  emit (ConsoleError "Connection Failed") ;;
  emit (OnError (describe err)) ;;
  try_catch disconnect (fun _ => ret tt).

(** Lines 102-134: from the start of [connect] to the [await] of the
    session promise.  The result tells whether that [await] is reached. *)
Definition connect_setup (env : Devices) : Js bool :=
  update (set_inputAudioContext (Some (newContext 16000 (inputState env)))) ;;
  update (set_outputAudioContext (Some (newContext 24000 (outputState env)))) ;;
  try_catch
    (match inputState env with
     | suspended =>
         emit (ContextResume Input) ;;
         complete (resumeInput env) ;;
         update (fun s => set_inputAudioContext (resumed (inputAudioContext s)) s)
     | _ => ret tt
     end ;;
     match outputState env with
     | suspended =>
         emit (ContextResume Output) ;;
         complete (resumeOutput env) ;;
         update (fun s => set_outputAudioContext (resumed (outputAudioContext s)) s)
     | _ => ret tt
     end ;;
     emit GetUserMedia ;;
     media <- complete (getUserMedia env) ;;
     update (set_stream (Some media)) ;;
     emit LiveConnect ;;
     update (set_sessionPromise (Some Pending)) ;;
     ret true)
    (fun err => connect_catch err ;; ret false).

Definition runReaction (session : Session) (r : Reaction) : Js unit :=
  match r with
  | CloseSession => closeIfPossible session
  | SendInput data =>
      try_catch (emit (SendRealtimeInput data) ;;
                 complete (sendRealtimeInput platform data))
                (fun _ => emit (ConsoleError "Error sending input"))
  end.

Definition clearReactions : Js (list Reaction) :=
  fun w => (Normal (reactions w),
            {| this := this w; created := created w; reactions := []; log := log w |}).

(** Lines 137-143: the session promise settles.  [connect], which awaited
    it first, goes on first; then the reactions registered meanwhile run
    on the session, or are dropped with the rejection. *)
Definition connect_settle (handshake : Completion Session) : Js unit :=
  match handshake with
  | Normal session =>
      update (set_sessionPromise (Some (Fulfilled session))) ;;
      waiting <- clearReactions ;;
      forEach waiting (runReaction session)
  | Throw err =>
      update (set_sessionPromise (Some (Rejected err))) ;;
      connect_catch err ;;
      waiting <- clearReactions ;;
      ret tt
  end.

(** [connect] with nothing else running while it awaits the handshake. *)
Definition connect (env : Devices) (handshake : Completion Session) : Js unit :=
  waits <- connect_setup env ;;
  if waits then connect_settle handshake else ret tt.

(** *** Callbacks handed to [client.live.connect] *)

(** Lines 146-169. *)
Definition handleOpen : Js unit :=
  emit (ConsoleLog "Connection established. Starting audio stream.") ;;
  s <- getThis ;;
  match inputAudioContext s, stream s with
  | Some _, Some _ =>
      update (set_processor (Some {| bufferSize := 4096; forwarding := true |})) ;;
      emit CaptureInstalled
  | _, _ => ret tt
  end.

(** Lines 154-165, fired by the processor for each window of samples. *)
Definition onaudioprocess (inputData : list Q) : Js unit :=
  s <- getThis ;;
  match processor s with
  | Some node =>
      if forwarding node then
        match sessionPromise s with
        | Some (Fulfilled session) => runReaction session (SendInput (createBlob inputData))
        | Some Pending => register (SendInput (createBlob inputData))
        | Some (Rejected _) => ret tt
        | None => ret tt
        end
      else ret tt
  | None => ret tt
  end.

(** Lines 118-121. *)
Definition onerror : Js unit :=
  emit (ConsoleError "Gemini Live Error") ;;
  emit (OnError "Network error: Unable to connect to Soul Interface.").

(** Lines 122-125. *)
Definition onclose : Js unit :=
  emit (ConsoleLog "Gemini Live Closed") ;;
  emit OnClose.

(** ** A session as a run of events *)

(** What can happen to one instance.  The callbacks of the connection can
    fire only once [client.live.connect] has been called with them. *)
Inductive Action :=
| Connect (env : Devices)                  (* connect() is called and runs to its last await *)
| Handshake (outcome : Completion Session) (* the session promise settles *)
| Open                                     (* callbacks.onopen *)
| Message (m : LiveServerMessage)          (* callbacks.onmessage, up to its await *)
| Decoded (i : nat)                        (* the decode awaited by the i-th waiting call settles *)
| NetworkError                             (* callbacks.onerror *)
| NetworkClose                             (* callbacks.onclose *)
| AudioProcess (inputData : list Q)        (* processor.onaudioprocess *)
| Ended (source : SourceNode)              (* 'ended' on a source node *)
| Disconnect                               (* disconnect() is called *)
| Tick (dt : Q).                           (* time passes *)

(** An instance together with the calls of [handleMessage] that wait for
    their decode, in the order of arrival. *)
Record Running := {
  world : World;
  waiting : list (LiveServerMessage * list byte)
}.

Definition idle : Running := {| world := newWorld; waiting := [] |}.

Definition registered (w : World) : bool :=
  match sessionPromise (this w) with Some _ => true | None => false end.

Definition handshaking (w : World) : bool :=
  match sessionPromise (this w) with Some Pending => true | _ => false end.

(** A callback run to its end; what it throws is an unhandled rejection. *)
Definition call {A} (c : Js A) (r : Running) : Running :=
  {| world := exec c (world r); waiting := waiting r |}.

Definition without {A} (i : nat) (l : list A) : list A :=
  firstn i l ++ skipn (S i) l.

Definition step (a : Action) (r : Running) : Running :=
  match a with
  | Connect env => call (connect_setup env) r
  | Handshake outcome =>
      if handshaking (world r) then call (connect_settle outcome) r else r
  | Open => if registered (world r) then call handleOpen r else r
  | Message m =>
      if registered (world r) then
        match handleMessage_begin m (world r) with
        | (Normal (AwaitDecode encoded), w') =>
            {| world := w'; waiting := waiting r ++ [(m, encoded)] |}
        | (_, w') => {| world := w'; waiting := waiting r |}
        end
      else r
  | Decoded i =>
      match nth_error (waiting r) i with
      | Some (m, encoded) =>
          {| world := exec (handleMessage_resume m encoded) (world r);
             waiting := without i (waiting r) |}
      | None => r
      end
  | NetworkError => if registered (world r) then call onerror r else r
  | NetworkClose => if registered (world r) then call onclose r else r
  | AudioProcess inputData => call (onaudioprocess inputData) r
  | Ended source => call (sourceEnded source) r
  | Disconnect => call disconnect r
  | Tick dt => call (advanceClock dt) r
  end.

Definition run (actions : list Action) (r : Running) : Running :=
  fold_left (fun r' a => step a r') actions r.

End Engine.

(** ** The caller: [App.startSession] *)

Inductive AppState := LANDING | UPLOAD | PROCESSING | ACTIVE | ERROR.

(** The React state that [startSession] and the callbacks it hands to
    the service write, and the reference to the service. *)
Record App := {
  appState : AppState;
  errorMsg : option string;
  isMicActive : bool;
  liveServiceRef : option World
}.

(** The [onError] and [onClose] callbacks of lines 102-109 of [App.tsx],
    applied to a call recorded in the log of the service. *)
Definition notify (a : App) (e : Effect) : App :=
  match e with
  | OnError cause =>
      {| appState := appState a; errorMsg := Some cause; isMicActive := false;
         liveServiceRef := liveServiceRef a |}
  | OnClose =>
      {| appState := appState a; errorMsg := errorMsg a; isMicActive := false;
         liveServiceRef := liveServiceRef a |}
  | _ => a
  end.

(** Lines 74-114 of [App.tsx]; [apiKey] is [process.env.API_KEY].  The
    service is constructed and connected only behind the guard of line 76. *)
Definition startSession (platform : Platform) (apiKey : option string)
    (env : Devices) (handshake : Completion Session) (a : App) : App :=
  match truthy apiKey with
  | None =>
      {| appState := ERROR; errorMsg := Some "API Key not found in environment."%string;
         isMicActive := isMicActive a; liveServiceRef := liveServiceRef a |}
  | Some _ =>
      let w := exec (connect platform env handshake) newWorld in
      fold_left notify (log w)
                {| appState := appState a; errorMsg := None; isMicActive := true;
                   liveServiceRef := Some w |}
  end.

(** ** Reading a log *)

(** Buffers handed to [onAudioData], oldest first. *)
Fixpoint reports (l : list Effect) : list AudioBuffer :=
  match l with
  | [] => []
  | OnAudioData b :: l' => b :: reports l'
  | _ :: l' => reports l'
  end.

(** Start time and buffer of every [source.start], oldest first. *)
Fixpoint scheduled (l : list Effect) : list (Q * AudioBuffer) :=
  match l with
  | [] => []
  | SourceStart _ t b :: l' => (t, b) :: scheduled l'
  | _ :: l' => scheduled l'
  end.

(** Nodes on which [stop()] was called, oldest first. *)
Fixpoint stopped (l : list Effect) : list SourceNode :=
  match l with
  | [] => []
  | SourceStop n :: l' => n :: stopped l'
  | _ :: l' => stopped l'
  end.

Definition isOnError (e : Effect) : bool :=
  match e with OnError _ => true | _ => false end.

Definition isOnClose (e : Effect) : bool :=
  match e with OnClose => true | _ => false end.

Definition onErrorCalls (l : list Effect) : nat := List.length (filter isOnError l).

Definition onCloseCalls (l : list Effect) : nat := List.length (filter isOnClose l).

(** An effect of the capture pipeline. *)
Definition isCapture (e : Effect) : bool :=
  match e with
  | CaptureInstalled | SendRealtimeInput _ => true
  | _ => false
  end.

(** An effect through which an error would be told: the error callback or
    the console's error channel. *)
Definition isComplaint (e : Effect) : bool :=
  match e with
  | OnError _ | ConsoleError _ => true
  | _ => false
  end.

(** An effect of handling reply audio. *)
Definition isAudio (e : Effect) : bool :=
  match e with
  | OnAudioData _ | SourceStart _ _ _ => true
  | _ => false
  end.

(** ** PCM codec *)

Module Codec.

(** The codec helpers of [utils/audioUtils] ([createBlob] with its
    [encode], [decode], [decodeAudioData]) are missing from the sources at
    hand.  Every definition of this module follows section 4.1 of the
    specification instead: [encode] takes each sample [s] to
    [round(clamp(s,-1,1) * 32767)], packs the 16-bit values little-endian
    and wraps the bytes in base64; [decode] unwraps, unpacks the
    little-endian pairs and divides each value by [32768]. *)

(** Modelled from the spec: [clamp(s,-1,1)] of [encode] (audioUtils is
    missing). *)
Definition clamp (s : Q) : Q := Qmax (-1) (Qmin 1 s).

(** Modelled from the spec: the [round] of [encode], as [Math.round]: the
    nearest integer, a half going up. *)
Definition round (x : Q) : Z := Qfloor (x + (1 # 2)).

(** Modelled from the spec: a sample to its 16-bit value,
    [round(clamp(s,-1,1) * 32767)]. *)
Definition quantize (s : Q) : Z := round (clamp s * 32767).

(** Modelled from the spec: "packs little-endian"; the two bytes of a
    16-bit two's complement value, low byte first. *)
Definition int16LE (v : Z) : list byte := [v mod 256; (v / 256) mod 256]%Z.

(** Modelled from the spec: the packed bytes of a frame of 16-bit values. *)
Definition pack (vs : list Z) : list byte := flat_map int16LE vs.

(** Modelled from the spec: "unpack little-endian int16 pairs"; the signed
    value of one pair. *)
Definition fromInt16LE (lo hi : byte) : Z :=
  let u := (lo + 256 * hi)%Z in
  if (u <? 32768)%Z then u else (u - 65536)%Z.

(** Modelled from the spec: the 16-bit values of a sequence of bytes, pair
    by pair. *)
Fixpoint unpack (bs : list byte) : list Z :=
  match bs with
  | lo :: hi :: rest => fromInt16LE lo hi :: unpack rest
  | _ => []
  end.

(** Modelled from the spec: "normalize each to float via [v/32768]". *)
Definition normalize (v : Z) : Q := v # 32768.

(** *** The base64 envelope *)

(** Modelled from the spec: the "text envelope (base64)", here its
    alphabet. *)
Definition alphabet : list ascii :=
  list_ascii_of_string
    "ABCDEFGHIJKLMNOPQRSTUVWXYZabcdefghijklmnopqrstuvwxyz0123456789+/".

(** Modelled from the spec: the padding character of base64. *)
Definition pad : ascii := "="%char.

(** Modelled from the spec: the base64 character of a 6-bit value. *)
Definition digit (v : Z) : ascii := nth (Z.to_nat v) alphabet pad.

(** Modelled from the spec: the place of a character in a list, counted
    from [i]. *)
Fixpoint position (c : ascii) (l : list ascii) (i : Z) : option Z :=
  match l with
  | [] => None
  | d :: l' => if Ascii.eqb c d then Some i else position c l' (i + 1)%Z
  end.

(** Modelled from the spec: the 6-bit value of a base64 character. *)
Definition value (c : ascii) : option Z := position c alphabet 0%Z.

(** Modelled from the spec: "text-envelopes (base64)"; three bytes to four
    characters, the last group padded. *)
Fixpoint wrap (bs : list byte) : list ascii :=
  match bs with
  | [] => []
  | [a] => [digit (a / 4); digit (a mod 4 * 16); pad; pad]%Z
  | [a; b] =>
      [digit (a / 4); digit (a mod 4 * 16 + b / 16);
       digit (b mod 16 * 4); pad]%Z
  | a :: b :: c :: rest =>
      (digit (a / 4) :: digit (a mod 4 * 16 + b / 16)
         :: digit (b mod 16 * 4 + c / 64) :: digit (c mod 64) :: wrap rest)%Z
  end.

(** Modelled from the spec: "envelope-decode"; the bytes of a padded base64
    text, [None] when it is malformed. *)
Fixpoint unwrap (cs : list ascii) : option (list byte) :=
  match cs with
  | [] => Some []
  | c1 :: c2 :: c3 :: c4 :: rest =>
      match value c1, value c2 with
      | Some v1, Some v2 =>
          let b1 := (v1 * 4 + v2 / 16)%Z in
          if Ascii.eqb c3 pad then
            if Ascii.eqb c4 pad && isNil rest then Some [b1] else None
          else
            match value c3 with
            | Some v3 =>
                let b2 := (v2 mod 16 * 16 + v3 / 4)%Z in
                if Ascii.eqb c4 pad then
                  if isNil rest then Some [b1; b2] else None
                else
                  match value c4, unwrap rest with
                  | Some v4, Some bs =>
                      Some (b1 :: b2 :: (v3 mod 4 * 64 + v4)%Z :: bs)
                  | _, _ => None
                  end
            | None => None
            end
      | _, _ => None
      end
  | _ => None
  end.

(** Modelled from the spec: [encode(rawFrame) -> wireFrame] of section
    4.1; an empty frame is refused ("must be non-empty"). *)
Definition encode (rawFrame : list Q) : option string :=
  match rawFrame with
  | [] => None
  | _ => Some (string_of_list_ascii (wrap (pack (map quantize rawFrame))))
  end.

(** Modelled from the spec: [decode(wireFrame) -> rawSamples] of section
    4.1; an envelope of zero bytes gives the
    empty sequence, a malformed one gives nothing. *)
Definition decode (wireFrame : string) : option (list Q) :=
  match unwrap (list_ascii_of_string wireFrame) with
  | Some bs => Some (map normalize (unpack bs))
  | None => None
  end.

(** Modelled from the spec:
    [buildPlayableBuffer(rawSamples, sampleRate, channels)] for one
    channel. *)
Definition buildPlayableBuffer (rawSamples : list Q) (rate : positive)
  : AudioBuffer :=
  {| channelData := rawSamples; sampleRate := rate |}.

(** Modelled from the spec: the first half of [decode] as [handleMessage]
    calls it, the text to bytes. *)
Definition bytesOf (text : string) : Completion (list byte) :=
  match unwrap (list_ascii_of_string text) with
  | Some bs => Normal bs
  | None => Throw {| message := "malformed envelope" |}
  end.

(** Modelled from the spec: the second half of [decode] followed by
    [buildPlayableBuffer], the bytes to a buffer at 24000 Hz. *)
Definition bufferOf (bs : list byte) : Completion AudioBuffer :=
  Normal (buildPlayableBuffer (map normalize (unpack bs)) 24000).

(** A value that fits a byte. *)
Definition isByte (b : byte) : Prop := (0 <= b < 256)%Z.

(** The distance the round trip is measured with. *)
Definition within (bound : Q) (s d : Q) : Prop := Qabs (d - s) <= bound.

End Codec.

(** ** Vocabulary of the statements *)

Section Vocabulary.

Variable decode : string -> Completion (list byte).
Variable decodeAudioData : list byte -> Completion AudioBuffer.

(** [outputClockNow()]: the reading of [outputAudioContext.currentTime]. *)
Definition outputClock (w : World) : Q :=
  match outputAudioContext (this w) with
  | Some ctx => currentTime ctx
  | None => 0
  end.

(** The buffer that awaited bytes give, if the decode succeeds. *)
Definition decoded (encoded : list byte) : option AudioBuffer :=
  match decodeAudioData encoded with
  | Normal b => Some b
  | Throw _ => None
  end.

(** The decoded frame a message carries: its payload is present, decodes
    to at least one byte, and the bytes decode to a buffer. *)
Definition frameOf (m : LiveServerMessage) : option AudioBuffer :=
  match truthy (base64Audio m) with
  | Some b =>
      match decode b with
      | Normal encoded => if isNil encoded then None else decoded encoded
      | Throw _ => None
      end
  | None => None
  end.

(** A reply frame on its way in: the time since the previous event, the
    time its decode takes, and the message. *)
Record Frame := {
  gap : Q;
  latency : Q;
  payload : LiveServerMessage
}.

Definition enqueue (f : Frame) : Js unit :=
  advanceClock (gap f) ;;
  handleMessage decode decodeAudioData (latency f) (payload f).



(** A frame that is played: it carries a decoded frame and no
    interruption. *)
Definition plays (f : Frame) : Prop :=
  interrupted (payload f) = false /\ frameOf (payload f) <> None.

End Vocabulary.

(** ** Vocabulary for teardown, set-up and runs *)

(** A computation that never leaves the relation [R] between the world it
    starts in and the world it ends in. *)
Definition respects {A} (R : World -> World -> Prop) (c : Js A) : Prop :=
  forall w, R w (snd (c w)).

(** [c] run [n] times in a row. *)
Fixpoint times (n : nat) (c : Js unit) : Js unit :=
  match n with
  | O => ret tt
  | S n' => bind c (fun _ => times n' c)
  end.

(** The releases one call of [disconnect] attempts on an instance in which
    nothing throws: one per resource that the instance holds. *)
Definition teardown (s : GeminiLiveService) : list Effect :=
  match stream s with
  | Some media => map TrackStop (getTracks media)
  | None => []
  end
  ++ match processor s with Some _ => [ProcessorDisconnect] | None => [] end
  ++ match inputAudioContext s with Some _ => [ContextClose Input] | None => [] end
  ++ match outputAudioContext s with Some _ => [ContextClose Output] | None => [] end
  ++ match sessionPromise s with
     | Some (Fulfilled session) => if hasClose session then [SessionClose] else []
     | _ => []
     end.

(** A platform on which the releases that the source leaves unguarded do
    not throw ([session.close()] may). *)
Definition dependable (p : Platform) : Prop :=
  (forall t, trackStop p t = Normal tt) /\
  processorDisconnect p = Normal tt /\
  (forall c, contextClose p c = Normal tt).

(** The first failure that [connect] meets before it calls
    [client.live.connect]: a [resume()] or [getUserMedia()] that rejects. *)
Definition deviceFailure (env : Devices) : option JsError :=
  match inputState env, resumeInput env with
  | suspended, Throw e => Some e
  | _, _ =>
      match outputState env, resumeOutput env with
      | suspended, Throw e => Some e
      | _, _ =>
          match getUserMedia env with
          | Throw e => Some e
          | Normal _ => None
          end
      end
  end.

(** The failure of a whole connect attempt: of the devices, or else of the
    handshake. *)
Definition setupFailure (env : Devices) (handshake : Completion Session)
  : option JsError :=
  match deviceFailure env with
  | Some e => Some e
  | None =>
      match handshake with
      | Throw e => Some e
      | Normal _ => None
      end
  end.

(** Calls of [onError] recorded for the service that an [App] holds. *)
Definition callbackErrors (a : App) : nat :=
  match liveServiceRef a with
  | Some w => onErrorCalls (log w)
  | None => 0
  end.

(** Whether an event handles a message that carries the interruption flag:
    the message itself, or the resumption of its waiting call. *)
Definition interrupts (a : Action) (r : Running) : bool :=
  match a with
  | Message m => interrupted m
  | Decoded i =>
      match nth_error (waiting r) i with
      | Some (m, _) => interrupted m
      | None => false
      end
  | _ => false
  end.

(** Whether an event is a failure that the class tells through [onError]:
    a connect attempt that fails on the devices, a handshake that is
    rejected while [connect] awaits it, a network error event. *)
Definition raisesError (a : Action) (r : Running) : bool :=
  match a with
  | Connect env =>
      match deviceFailure env with Some _ => true | None => false end
  | Handshake (Throw _) => handshaking (world r)
  | NetworkError => registered (world r)
  | _ => false
  end.

Definition closes (a : Action) (r : Running) : bool :=
  match a with
  | NetworkClose => registered (world r)
  | _ => false
  end.

Section RunVocabulary.

Variable decode : string -> Completion (list byte).
Variable decodeAudioData : list byte -> Completion AudioBuffer.
Variable createBlob : list Q -> string.
Variable platform : Platform.

(** The error and close events of a run, counted along it. *)
Fixpoint errorEvents (actions : list Action) (r : Running) : nat :=
  match actions with
  | [] => 0
  | a :: rest =>
      (if raisesError a r then 1 else 0)
      + errorEvents rest (step decode decodeAudioData createBlob platform a r)
  end.

Fixpoint closeEvents (actions : list Action) (r : Running) : nat :=
  match actions with
  | [] => 0
  | a :: rest =>
      (if closes a r then 1 else 0)
      + closeEvents rest (step decode decodeAudioData createBlob platform a r)
  end.

(** The frame a message brings, as a list of none or one. *)
Definition brought (m : LiveServerMessage) : list AudioBuffer :=
  match frameOf decode decodeAudioData m with
  | Some b => [b]
  | None => []
  end.

(** The frames that the messages of a run bring, in the order of arrival. *)
Definition arrivals (actions : list Action) : list AudioBuffer :=
  flat_map (fun a => match a with Message m => brought m | _ => [] end) actions.

(** The frames of the calls that still wait for their decode. *)
Definition awaited (l : list (LiveServerMessage * list byte)) : list AudioBuffer :=
  flat_map (fun p => match decoded decodeAudioData (snd p) with
                     | Some b => [b]
                     | None => []
                     end) l.

End RunVocabulary.

(** Decodes settle in the order in which they were awaited: every
    resumption is that of the oldest waiting call. *)
Definition inOrder (actions : list Action) : bool :=
  forallb (fun a => match a with Decoded (S _) => false | _ => true end) actions.

(** ** A concrete platform and session, for running the model *)

Module Sample.

Definition steady : Platform :=
  {| trackStop := fun _ => Normal tt;
     processorDisconnect := Normal tt;
     contextClose := fun _ => Normal tt;
     sessionClose := Normal tt;
     sendRealtimeInput := fun _ => Normal tt |}.

(** A platform whose [processor.disconnect()] throws. *)
Definition jammed : Platform :=
  {| trackStop := fun _ => Normal tt;
     processorDisconnect := Throw {| message := "disconnect failed" |};
     contextClose := fun _ => Normal tt;
     sessionClose := Normal tt;
     sendRealtimeInput := fun _ => Normal tt |}.

(** Contexts that start suspended and resume, a microphone that is
    granted. *)
Definition granted : Devices :=
  {| inputState := suspended; outputState := suspended;
     resumeInput := Normal tt; resumeOutput := Normal tt;
     getUserMedia := Normal {| getTracks := [0%nat] |} |}.

(** A microphone that is refused. *)
Definition refused : Devices :=
  {| inputState := suspended; outputState := suspended;
     resumeInput := Normal tt; resumeOutput := Normal tt;
     getUserMedia := Throw {| message := "Permission denied" |} |}.

Definition session : Session := {| hasClose := true |}.

Definition createBlob (inputData : list Q) : string :=
  match Codec.encode inputData with
  | Some text => text
  | None => EmptyString
  end.

(** ASCII whitespace, which the [atob] of a browser skips before it
    decodes. *)
Definition isSpace (c : ascii) : bool :=
  match c with
  | " "%char | "009"%char | "010"%char | "012"%char | "013"%char => true
  | _ => false
  end.

(** An envelope decode built on [atob]. *)
Definition decode (text : string) : Completion (list byte) :=
  Codec.bytesOf
    (string_of_list_ascii
       (filter (fun c => negb (isSpace c)) (list_ascii_of_string text))).

Definition step := step decode Codec.bufferOf createBlob steady.

Definition run := run decode Codec.bufferOf createBlob steady.

(** An open session: connected, capture started, handshake done. *)
Definition live : Running := run [Connect granted; Open; Handshake (Normal session)] idle.

(** A reply message with the given samples. *)
Definition reply (samples : list Q) (stop : bool) : LiveServerMessage :=
  {| base64Audio := Codec.encode samples; interrupted := stop |}.

(** 200 ms of silence at 24000 Hz. *)
Definition silence200 : LiveServerMessage := reply (repeat 0%Q 4800) false.

(** A frame that arrives at once and decodes in no time. *)
Definition prompt (m : LiveServerMessage) : Frame :=
  {| gap := 0; latency := 0; payload := m |}.

(** A message whose payload is one blank: present, and decoded to no
    byte. *)
Definition blank (stop : bool) : LiveServerMessage :=
  {| base64Audio := Some " "%string; interrupted := stop |}.

Definition app : App :=
  {| appState := ACTIVE; errorMsg := None; isMicActive := false;
     liveServiceRef := None |}.

End Sample.

(** ** Relations that methods preserve *)

(** A relation between the world before and the world after that holds
    across doing nothing and across doing one thing after another. *)
Class Framing (R : World -> World -> Prop) : Prop := {
  framing_refl : forall w, R w w;
  framing_trans : forall w1 w2 w3, R w1 w2 -> R w2 w3 -> R w1 w3
}.

(** [nextStartTime] is left as it was. *)
Definition keepsPointer (w w' : World) : Prop :=
  nextStartTime (this w') = nextStartTime (this w).

(** [nextStartTime] does not go back. *)
Definition pointerForward (w w' : World) : Prop :=
  (nextStartTime (this w) <= nextStartTime (this w'))%Q.

(** The log grows by effects outside the class [p] only. *)
Definition quiet (p : Effect -> bool) (w w' : World) : Prop :=
  filter p (log w') = filter p (log w).

(** No capture processor appears. *)
Definition noProcessor (w w' : World) : Prop :=
  processor (this w) = None -> processor (this w') = None.

(** The output context, once there, stays. *)
Definition keepsOutput (w w' : World) : Prop :=
  outputAudioContext (this w) <> None -> outputAudioContext (this w') <> None.

(** The session promise, once there, stays. *)
Definition keepsPromise (w w' : World) : Prop :=
  registered w = true -> registered w' = true.

(** The session promise and the output context are left as they were. *)
Definition sameSession (w w' : World) : Prop :=
  sessionPromise (this w') = sessionPromise (this w) /\
  outputAudioContext (this w') = outputAudioContext (this w).

(** A computation that calls neither [onError] nor [onClose]. *)
Definition silent (A : Type) (c : Js A) : Prop :=
  respects (quiet isOnError) c /\ respects (quiet isOnClose) c.

Arguments silent : clear implicits.

(** A session that is open for messages: the callbacks are handed over
    and the output context exists. *)
Definition receiving (w : World) : Prop :=
  registered w = true /\ outputAudioContext (this w) <> None.

(** A computation that neither reports nor schedules audio and keeps an
    open session open. *)
Definition bystander (A : Type) (c : Js A) : Prop :=
  respects (quiet isAudio) c /\ forall w, receiving w -> receiving (snd (c w)).

Arguments bystander : clear implicits.

(** ** More vocabulary: the capture path, the pending set, the schedule *)

(** What one window of samples leaves in the log when it reaches an open
    session: the send, and the console error of lines 161-163 if the send
    throws. *)
Definition sendLog (platform : Platform) (data : string) : list Effect :=
  SendRealtimeInput data
  :: match sendRealtimeInput platform data with
     | Normal _ => []
     | Throw _ => [ConsoleError "Error sending input"]
     end.

(** Nodes on which [start()] was called, oldest first. *)
Fixpoint started (l : list Effect) : list SourceNode :=
  match l with
  | [] => []
  | SourceStart n _ _ :: l' => n :: started l'
  | _ :: l' => started l'
  end.

(** Every [stop()] in the log is on a node that was started before it. *)
Definition stopsAfterStarts (l : list Effect) : Prop :=
  forall before n after, l = before ++ SourceStop n :: after -> In n (started before).

(** An effect on a source node or on the audio-level observer. *)
Definition isPlayback (e : Effect) : bool :=
  match e with
  | OnAudioData _ | SourceStart _ _ _ | SourceStop _ => true
  | _ => false
  end.

(** The fields of the playback scheduler are left as they were and the log
    grows by effects other than playback. *)
Definition aside (w w' : World) : Prop :=
  sources (this w') = sources (this w) /\
  nextStartTime (this w') = nextStartTime (this w) /\
  created w' = created w /\
  exists new, log w' = log w ++ new /\ filter isPlayback new = [].

(** The end of a scheduled chunk on the output clock. *)
Definition endsAt (chunk : Q * AudioBuffer) : Q :=
  (fst chunk + duration (snd chunk))%Q.

(** A schedule in which no chunk begins before the one scheduled before it
    has ended. *)
Fixpoint separated (l : list (Q * AudioBuffer)) : Prop :=
  match l with
  | [] => True
  | chunk :: rest =>
      match rest with
      | [] => True
      | next :: _ => (endsAt chunk <= fst next)%Q /\ separated rest
      end
  end.

(** A run in which no message carries the interruption flag. *)
Definition uninterrupted (actions : list Action) : bool :=
  forallb (fun a => match a with Message m => negb (interrupted m) | _ => true end)
          actions.

(** ** The rest of [App]: the form, the progress simulation, the effects *)

(** [SoulProfile] of [types.ts]. *)
Record SoulProfile := {
  name : string;
  relationship : string;
  personalityContext : string
}.

(** The component: the state that [startSession] writes ([core]), the form,
    the status line, the interval of [simulateProcessing] with its
    [stepIndex] while it runs, and, for observation only, the services that
    [endSession] has disconnected and dropped. *)
Record Page := {
  core : App;
  profile : SoulProfile;
  statusMessage : string;
  interval : option nat;
  retired : list World
}.

Definition initialPage : Page :=
  {| core := {| appState := LANDING; errorMsg := None; isMicActive := false;
                liveServiceRef := None |};
     profile := {| name := ""; relationship := ""; personalityContext := "" |};
     statusMessage := "Initializing...";
     interval := None;
     retired := [] |}.

Definition AppState_eqb (a b : AppState) : bool :=
  match a, b with
  | LANDING, LANDING | UPLOAD, UPLOAD | PROCESSING, PROCESSING
  | ACTIVE, ACTIVE | ERROR, ERROR => true
  | _, _ => false
  end.

(** The status lines of lines 37-42 of [App.tsx]. *)
Definition steps : list string :=
  ["Ingesting Memory Logs..."; "Analyzing Linguistic Patterns...";
   "Synthesizing Vocal Tones..."; "Establishing Neural Link..."]%string.

Definition withCore (a : App) (p : Page) : Page :=
  {| core := a; profile := profile p; statusMessage := statusMessage p;
     interval := interval p; retired := retired p |}.

Definition withState (s : AppState) (a : App) : App :=
  {| appState := s; errorMsg := errorMsg a; isMicActive := isMicActive a;
     liveServiceRef := liveServiceRef a |}.

Definition withErrorMsg (e : option string) (a : App) : App :=
  {| appState := appState a; errorMsg := e; isMicActive := isMicActive a;
     liveServiceRef := liveServiceRef a |}.

Definition clearInterval (p : Page) : Page :=
  {| core := core p; profile := profile p; statusMessage := statusMessage p;
     interval := None; retired := retired p |}.

Section Component.

(** What a session started by the component meets. *)
Variable platform : Platform.
Variable apiKey : option string.
Variable env : Devices.
Variable handshake : Completion Session.

(** Lines 116-125 of [App.tsx].  [animationFrameRef] is never assigned, so
    line 122 does nothing. *)
Definition endSession (p : Page) : Page :=
  let a := core p in
  match liveServiceRef a with
  | Some w =>
      {| core := {| appState := appState a; errorMsg := errorMsg a;
                    isMicActive := false; liveServiceRef := None |};
         profile := profile p; statusMessage := statusMessage p;
         interval := interval p;
         retired := retired p ++ [exec (disconnect platform) w] |}
  | None =>
      withCore {| appState := appState a; errorMsg := errorMsg a;
                  isMicActive := false; liveServiceRef := None |} p
  end.

(** A state change and the two effects that depend on [state] (lines
    35-58 and 62-72 of [App.tsx]), as React runs them: nothing when the
    state is set to what it is; otherwise first the clean-ups that the
    previous render returned, which see the state of that render, then the
    effects of the new render.  The state that [startSession] sets on a
    missing key is written by [startSession] itself; its own round of
    effects does nothing (no clean-up fires from [ACTIVE], no effect from
    [ERROR]). *)
Definition setState (next : AppState) (p : Page) : Page :=
  let prev := appState (core p) in
  if AppState_eqb prev next then p
  else
    let p1 := match prev with PROCESSING => clearInterval p | _ => p end in
    let p2 := match prev with ACTIVE => p1 | _ => endSession p1 end in
    let p3 := withCore (withState next (core p2)) p2 in
    let p4 :=
      match next with
      | PROCESSING =>
          {| core := core p3; profile := profile p3;
             statusMessage := nth 0 steps EmptyString;
             interval := Some 0%nat; retired := retired p3 |}
      | _ => p3
      end in
    match next, liveServiceRef (core p4) with
    | ACTIVE, None =>
        withCore (startSession platform apiKey env handshake (core p4)) p4
    | _, _ => p4
    end.

(** Line 23. *)
Definition handleStart (p : Page) : Page := setState UPLOAD p.

(** Lines 25-33. *)
Definition handleUploadSubmit (p : Page) : Page :=
  match name (profile p), personalityContext (profile p) with
  | String _ _, String _ _ =>
      setState PROCESSING (withCore (withErrorMsg None (core p)) p)
  | _, _ =>
      withCore (withErrorMsg (Some "Name and Memory Data are required."%string)
                             (core p)) p
  end.

(** One firing of the interval of lines 46-54. *)
Definition intervalFires (p : Page) : Page :=
  match interval p with
  | Some stepIndex =>
      let stepIndex' := S stepIndex in
      if (stepIndex' <? List.length steps)%nat then
        {| core := core p; profile := profile p;
           statusMessage := nth stepIndex' steps EmptyString;
           interval := Some stepIndex'; retired := retired p |}
      else setState ACTIVE (clearInterval p)
  | None => p
  end.

(** The "Terminate Session", "Restart" and "REBOOT SYSTEM" buttons. *)
Definition toLanding (p : Page) : Page := setState LANDING p.

(** The first [n] firings of the interval. *)
Definition fires (n : nat) (p : Page) : Page := Nat.iter n intervalFires p.

(** [setProfile] of the [onChange] handlers of the form; no effect depends
    on the profile. *)
Definition setProfile (f : SoulProfile) (p : Page) : Page :=
  {| core := core p; profile := f; statusMessage := statusMessage p;
     interval := interval p; retired := retired p |}.

(** What a visitor and the timer can do to the component. *)
Inductive Gesture :=
| PressBegin
| Fill (f : SoulProfile)
| PressSubmit
| TimerFires
| PressTerminate
| PressReboot.

(** Each view is rendered in its own state only (lines 296-307), so a
    control acts only there: "BEGIN RESURRECTION" on the landing view, the
    form on the upload view, "Terminate Session" and "Restart" on the
    active view, "REBOOT SYSTEM" on the failure view.  The timer fires
    whenever its interval is set. *)
Definition gesture (g : Gesture) (p : Page) : Page :=
  match g, appState (core p) with
  | PressBegin, LANDING => handleStart p
  | Fill f, UPLOAD => setProfile f p
  | PressSubmit, UPLOAD => handleUploadSubmit p
  | TimerFires, _ => intervalFires p
  | PressTerminate, ACTIVE => toLanding p
  | PressReboot, ERROR => toLanding p
  | _, _ => p
  end.

Definition visit (gestures : list Gesture) (p : Page) : Page :=
  fold_left (fun q g => gesture g q) gestures p.

End Component.

(** The timer runs in the processing state only, a service is referenced
    in the active state or on the landing view only, and the microphone
    indicator is on only while a service is referenced. *)
Definition orderly (p : Page) : Prop :=
  (interval p <> None <-> appState (core p) = PROCESSING) /\
  (liveServiceRef (core p) <> None ->
   appState (core p) = ACTIVE \/ appState (core p) = LANDING) /\
  (isMicActive (core p) = true -> liveServiceRef (core p) <> None).

(** The instance after a teardown on which nothing throws: the processor,
    if any, no longer forwards, and both contexts, if any, are closed. *)
Definition shut (s : GeminiLiveService) : GeminiLiveService :=
  {| sessionPromise := sessionPromise s;
     inputAudioContext := closeContext (inputAudioContext s);
     outputAudioContext := closeContext (outputAudioContext s);
     nextStartTime := nextStartTime s;
     sources := sources s;
     stream := stream s;
     processor := match processor s with
                  | Some node => Some {| bufferSize := bufferSize node;
                                         forwarding := false |}
                  | None => None
                  end |}.

(** What a connect attempt on which nothing fails writes to the log. *)
Definition setupLog (env : Devices) : list Effect :=
  match inputState env with suspended => [ContextResume Input] | _ => [] end
  ++ match outputState env with suspended => [ContextResume Output] | _ => [] end
  ++ [GetUserMedia; LiveConnect].

(** The state in which a context is after a set-up on which nothing
    fails: resumed if it started suspended. *)
Definition afterResume (st : ContextState) : ContextState :=
  match st with suspended => running | _ => st end.

(** The pending set and the log agree: no node was started twice, every
    started node was created, every pending node was started, and every
    stop is on a node started before. *)
Definition tidy (w : World) : Prop :=
  NoDup (started (log w)) /\
  (forall n, In n (started (log w)) -> (n < created w)%nat) /\
  (forall n, In n (sources (this w)) -> In n (started (log w))) /\
  stopsAfterStarts (log w).

(** The schedule and the pointer agree: no chunk begins before the one
    before it has ended, and every chunk ends at or before the pointer. *)
Definition paced (w : World) : Prop :=
  separated (scheduled (log w)) /\
  Forall (fun chunk => (endsAt chunk <= nextStartTime (this w))%Q)
         (scheduled (log w)).

(** No waiting call belongs to a message with the interruption flag. *)
Definition calm (r : Running) : Prop :=
  Forall (fun p => interrupted (fst p) = false) (waiting r).

(** The session promise is left as it was, and the stream and the two
    contexts, once there, stay. *)
Definition held (w w' : World) : Prop :=
  sessionPromise (this w') = sessionPromise (this w) /\
  (stream (this w) <> None -> stream (this w') <> None) /\
  (inputAudioContext (this w) <> None -> inputAudioContext (this w') <> None) /\
  (outputAudioContext (this w) <> None -> outputAudioContext (this w') <> None).

(** What lines 148 and 174 test for is there whenever the callbacks have
    been handed over: the stream and both contexts. *)
Definition equipped (w : World) : Prop :=
  registered w = true ->
  stream (this w) <> None /\
  inputAudioContext (this w) <> None /\
  outputAudioContext (this w) <> None.

(** ** Further sample sessions, for running the model *)

Module Trial.

(** A [decodeAudioData] that refuses every input. *)
Definition garbled (encoded : list byte) : Completion AudioBuffer :=
  Throw {| message := "Unable to decode audio data" |}.

(** A payload that is no base64 text. *)
Definition malformed : LiveServerMessage :=
  {| base64Audio := Some "!"%string; interrupted := true |}.

(** A session whose capture is installed while the handshake is still
    awaited. *)
Definition connecting : Running := Sample.run [Connect Sample.granted; Open] idle.

(** The node that [handleOpen] installs. *)
Definition node : ScriptProcessorNode := {| bufferSize := 4096; forwarding := true |}.

(** Two replies whose decodes complete in the opposite order. *)
Definition crossed : list Action :=
  [Connect Sample.granted; Open; Handshake (Normal Sample.session);
   Message (Sample.reply [1 # 2; 1 # 4] false); Message (Sample.reply [1 # 8] false);
   Tick (1 # 100000); Decoded 1; Decoded 0].

Definition gesture := gesture Sample.steady (Some "key"%string) Sample.granted
                              (Normal Sample.session).

Definition visit := visit Sample.steady (Some "key"%string) Sample.granted
                          (Normal Sample.session).

Definition arthur : SoulProfile :=
  {| name := "Arthur Dent"; relationship := ""; personalityContext := "Mostly harmless." |}.

(** The form, filled in. *)
Definition filled : Page := visit [PressBegin; Fill arthur] initialPage.

(** The processing view, just entered. *)
Definition submitted : Page := visit [PressSubmit] filled.

(** The active view, with its session. *)
Definition conversing : Page :=
  visit [TimerFires; TimerFires; TimerFires; TimerFires] submitted.

(** The service that [startSession] connects. *)
Definition connected : World :=
  exec (connect Sample.steady Sample.granted (Normal Sample.session)) newWorld.

End Trial.

(** ** Frames handled one at a time, and the events around one connect attempt *)

(** The events of reply frames when each call of [handleMessage] has run
    to its end before the next begins: a frame's message arrives after its
    gap, and the decode it awaits completes, after its latency, before the
    next message arrives. *)
Definition oneAtATime (fs : list Frame) : list Action :=
  flat_map (fun f => [Tick (gap f); Message (payload f);
                      Tick (latency f); Decoded 0%nat])
           fs.

Definition isConnect (a : Action) : bool :=
  match a with Connect _ => true | _ => false end.

(** The settlement of the session promise, which ends the [await] of line
    137. *)
Definition isSettlement (a : Action) : bool :=
  match a with Handshake _ => true | _ => false end.

(** Events among which [connect] is not called. *)
Definition noConnect (actions : list Action) : bool :=
  forallb (fun a => negb (isConnect a)) actions.

(** Events that can come while one connect attempt awaits its handshake:
    [connect] is not called again and the promise does not settle. *)
Definition meanwhile (actions : list Action) : bool :=
  forallb (fun a => negb (isConnect a) && negb (isSettlement a)) actions.

(** A window of samples handed to the connection (line 160). *)
Definition isSend (e : Effect) : bool :=
  match e with SendRealtimeInput _ => true | _ => false end.

(** An instance whose callbacks have not been handed over and that has no
    capture node: a new one, or one on which every connect attempt so far
    failed on the devices. *)
Definition unconnected (w : World) : Prop :=
  sessionPromise (this w) = None /\ processor (this w) = None.

Section Arrivals.

Variable decode : string -> Completion (list byte).
Variable decodeAudioData : list byte -> Completion AudioBuffer.
Variable createBlob : list Q -> string.
Variable platform : Platform.


End Arrivals.

(** * Properties *)

Unset Implicit Arguments.

(** Unfolding of the monad, for goals where the method has to be run. *)
Ltac js_unfold :=
  unfold exec, result, when, bind, ret, throw, try_catch, getThis, update, emit,
    complete, register, clearReactions.

Ltac js := js_unfold; cbn [fst snd this created reactions log].

Section PlaybackFacts.

Variable decode : string -> Completion (list byte).
Variable decodeAudioData : list byte -> Completion AudioBuffer.

Lemma forEach_stop (l : list SourceNode) (w : World) :
  forEach l (fun source => emit (SourceStop source)) w =
  (Normal tt, {| this := this w; created := created w; reactions := reactions w;
                 log := log w ++ map SourceStop l |}).
Proof.
  revert w; induction l as [|n l IH]; intros w; cbn [forEach map].
  - unfold ret. rewrite app_nil_r. destruct w; reflexivity.
  - js. rewrite IH. cbn. rewrite <- app_assoc. reflexivity.
Qed.

(** The fields after a flush. *)
Lemma stopAudioPlayback_total (w : World) :
  stopAudioPlayback w =
  (Normal tt,
   {| this := match outputAudioContext (this w) with
              | Some ctx => set_nextStartTime (currentTime ctx) (set_sources [] (this w))
              | None => set_sources [] (this w)
              end;
      created := created w; reactions := reactions w;
      log := log w ++ map SourceStop (sources (this w)) |}).
Proof.
  unfold stopAudioPlayback. js. rewrite forEach_stop. cbn.
  destruct (outputAudioContext (this w)); reflexivity.
Qed.

(** What [stopAudioPlayback] does when the output context exists. *)
Lemma stopAudioPlayback_spec (w : World) (ctx : AudioContext) :
  outputAudioContext (this w) = Some ctx ->
  stopAudioPlayback w =
  (Normal tt,
   {| this := set_nextStartTime (currentTime ctx) (set_sources [] (this w));
      created := created w; reactions := reactions w;
      log := log w ++ map SourceStop (sources (this w)) |}).
Proof.
  intros Hctx. rewrite stopAudioPlayback_total, Hctx. reflexivity.
Qed.

(** Without a usable payload [handleMessage] is the interruption check
    alone. *)
Lemma handleMessage_no_audio (dt : Q) (m : LiveServerMessage) (w : World) :
  truthy (base64Audio m) = None \/ outputAudioContext (this w) = None ->
  handleMessage decode decodeAudioData dt m w =
  if interrupted m then stopAudioPlayback w else (Normal tt, w).
Proof.
  intros Hno.
  assert (E : handleMessage_begin decode m w =
              if interrupted m then (Normal Returned, snd (stopAudioPlayback w))
              else (Normal Returned, w)).
  { unfold handleMessage_begin. js.
    destruct Hno as [Hno|Hno]; rewrite Hno;
      [|destruct (truthy (base64Audio m))];
      (destruct (interrupted m); [rewrite stopAudioPlayback_total|]; reflexivity). }
  unfold handleMessage, bind. rewrite E.
  destruct (interrupted m); [rewrite stopAudioPlayback_total|]; reflexivity.
Qed.

Lemma frameOf_inv (m : LiveServerMessage) (buf : AudioBuffer) :
  frameOf decode decodeAudioData m = Some buf ->
  exists b encoded,
    truthy (base64Audio m) = Some b /\ decode b = Normal encoded /\
    isNil encoded = false /\ decodeAudioData encoded = Normal buf.
Proof.
  unfold frameOf, decoded. intros H.
  destruct (truthy (base64Audio m)) as [b|] eqn:Hb; [|discriminate].
  destruct (decode b) as [encoded|] eqn:He; [|discriminate].
  destruct (isNil encoded) eqn:Hnil; [discriminate|].
  destruct (decodeAudioData encoded) as [buf'|] eqn:Hd; [|discriminate].
  exists b, encoded. injection H as <-. auto.
Qed.


(** A message with a decoded frame and no interruption: one report, one
    start at [max(nextStartTime, currentTime)], the pointer moved behind the
    frame. *)
Lemma handleMessage_plays (dt : Q) (m : LiveServerMessage) (w : World)
    (ctx : AudioContext) (buf : AudioBuffer) :
  outputAudioContext (this w) = Some ctx ->
  frameOf decode decodeAudioData m = Some buf ->
  interrupted m = false ->
  let startAt := Qmax (nextStartTime (this w)) (currentTime ctx) in
  exists w',
    handleMessage decode decodeAudioData dt m w = (Normal tt, w') /\
    log w' = log w ++ [OnAudioData buf; SourceStart (created w) startAt buf] /\
    nextStartTime (this w') = (startAt + duration buf)%Q /\
    sources (this w') = set_add (created w) (sources (this w)) /\
    outputAudioContext (this w') = advance dt (Some ctx) /\
    created w' = S (created w).
Proof.
  intros Hctx Hf Hint startAt.
  destruct (frameOf_inv _ _ Hf) as (b & encoded & Hb & Hdec & Hnil & Hbuf).
  unfold handleMessage, handleMessage_begin, handleMessage_resume, advanceClock,
    createBufferSource.
  js. rewrite Hb, Hctx, Hdec, Hnil. cbn. rewrite Hbuf, Hint. cbn.
  eexists. split; [reflexivity|]. cbn.
  rewrite Hctx, <- app_assoc. cbn. auto.
Qed.

Lemma scheduled_app (l1 l2 : list Effect) :
  scheduled (l1 ++ l2) = scheduled l1 ++ scheduled l2.
Proof.
  induction l1 as [|e l1 IH]; [reflexivity|].
  destruct e; cbn; rewrite ?IH; reflexivity.
Qed.


Lemma advanceClock_spec (dt : Q) (w : World) :
  advanceClock dt w =
  (Normal tt,
   {| this := set_inputAudioContext (advance dt (inputAudioContext (this w)))
                (set_outputAudioContext (advance dt (outputAudioContext (this w))) (this w));
      created := created w; reactions := reactions w; log := log w |}).
Proof. reflexivity. Qed.

Lemma advance_some (dt : Q) (c : option AudioContext) :
  c <> None -> advance dt c <> None.
Proof.
  destruct c as [ctx|]; [|congruence]. intros _. unfold advance.
  destruct (state ctx); discriminate.
Qed.

(** One frame that plays, from its arrival to its scheduling. *)
Lemma enqueue_plays (f : Frame) (w : World) :
  outputAudioContext (this w) <> None ->
  plays decode decodeAudioData f ->
  let a := exec (advanceClock (gap f)) w in
  let startAt := Qmax (nextStartTime (this a)) (outputClock a) in
  exists buf w',
    frameOf decode decodeAudioData (payload f) = Some buf /\
    enqueue decode decodeAudioData f w = (Normal tt, w') /\
    log w' = log w ++ [OnAudioData buf; SourceStart (created w) startAt buf] /\
    nextStartTime (this w') = (startAt + duration buf)%Q /\
    outputAudioContext (this w') <> None.
Proof.
  intros Hctx [Hint Hf] a startAt.
  destruct (frameOf decode decodeAudioData (payload f)) as [buf|] eqn:Hbuf;
    [|congruence].
  assert (Ha : outputAudioContext (this a) <> None).
  { subst a. unfold exec. rewrite advanceClock_spec. cbn. now apply advance_some. }
  destruct (outputAudioContext (this a)) as [ctx|] eqn:Hactx; [|congruence].
  destruct (handleMessage_plays (latency f) (payload f) a ctx buf Hactx Hbuf Hint)
    as (w' & Hrun & Hlog & Hnst & _ & Hout & _).
  exists buf, w'. split; [reflexivity|].
  split.
  { unfold enqueue, bind. rewrite advanceClock_spec.
    unfold a, exec in Hrun. rewrite advanceClock_spec in Hrun. exact Hrun. }
  subst startAt. unfold outputClock. rewrite Hactx.
  repeat split; try assumption.
  rewrite Hout. apply advance_some. discriminate.
Qed.







Lemma advanceClock_nextStartTime (dt : Q) (w : World) :
  nextStartTime (this (exec (advanceClock dt) w)) = nextStartTime (this w).
Proof. reflexivity. Qed.



Lemma truthy_Some (o : option string) (b : string) :
  truthy o = Some b -> o = Some b /\ b <> EmptyString.
Proof.
  destruct o as [[|c s]|]; cbn; intros H; try discriminate.
  injection H as <-. split; [reflexivity | discriminate].
Qed.

Lemma truthy_nonempty (b : string) : b <> EmptyString -> truthy (Some b) = Some b.
Proof. destruct b; [congruence | reflexivity]. Qed.

(** C8. A message whose audio payload decodes to zero bytes is passed over
    in silence: [handleMessage] completes normally, it neither reports a
    buffer nor starts a source, it calls neither the error callback nor the
    console's error channel, and it leaves [nextStartTime] where it was; the
    only way the time pointer can differ afterwards is the reset to the
    clock that the interruption flag of the same message asks for. *)
Theorem empty_payload_skipped (dt : Q) (m : LiveServerMessage) (w : World) (b : string) :
  base64Audio m = Some b ->
  decode b = Normal [] ->
  exists new,
    handleMessage decode decodeAudioData dt m w =
      (Normal tt, exec (handleMessage decode decodeAudioData dt m) w) /\
    log (exec (handleMessage decode decodeAudioData dt m) w) = log w ++ new /\
    filter isAudio new = [] /\
    filter isComplaint new = [] /\
    (interrupted m = false -> exec (handleMessage decode decodeAudioData dt m) w = w) /\
    (nextStartTime (this (exec (handleMessage decode decodeAudioData dt m) w)) =
       nextStartTime (this w) \/
     interrupted m = true /\
     nextStartTime (this (exec (handleMessage decode decodeAudioData dt m) w)) =
       outputClock w).
Proof.
  intros Hb Hdec.
  assert (Hstops : forall l, filter isAudio (map SourceStop l) = [] /\
                             filter isComplaint (map SourceStop l) = []).
  { induction l as [|n l [IH1 IH2]]; cbn; auto. }
  set (h := handleMessage decode decodeAudioData dt m).
  assert (Hcases : h w = (Normal tt, w) \/
                   interrupted m = true /\ h w = stopAudioPlayback w).
  { destruct (truthy (base64Audio m)) as [b'|] eqn:Ht.
    - destruct (outputAudioContext (this w)) as [ctx|] eqn:Hctx.
      + left. apply truthy_Some in Ht as Ht'. destruct Ht' as [Hb' _].
        assert (b' = b) by congruence. subst b'.
        unfold h, handleMessage, handleMessage_begin. js.
        rewrite Ht, Hctx, Hdec. reflexivity.
      + unfold h. rewrite handleMessage_no_audio by now right.
        destruct (interrupted m); auto.
    - unfold h. rewrite handleMessage_no_audio by now left.
      destruct (interrupted m); auto. }
  destruct Hcases as [E|[Hint E]]; unfold exec; rewrite E.
  - exists []. cbn [snd]. rewrite app_nil_r. auto 10.
  - rewrite stopAudioPlayback_total. cbn [snd log this].
    exists (map SourceStop (sources (this w))).
    destruct (Hstops (sources (this w))) as [H1 H2].
    repeat split; try assumption; try congruence.
    unfold outputClock.
    destruct (outputAudioContext (this w)); cbn; auto.
Qed.


(** C2 (where the code departs from it).  A message whose payload is present
    and decodes to zero bytes leaves [handleMessage] at line 176, before the
    interruption check of line 201: although it carries the interruption
    flag, no source is stopped, the pending set is kept and [nextStartTime]
    is not reset. *)
Theorem interruption_lost_with_empty_payload (dt : Q) (m : LiveServerMessage)
    (w : World) (b : string) :
  outputAudioContext (this w) <> None ->
  truthy (base64Audio m) = Some b ->
  decode b = Normal [] ->
  interrupted m = true ->
  handleMessage decode decodeAudioData dt m w = (Normal tt, w).
Proof.
  intros Hctx Hb Hdec _.
  destruct (outputAudioContext (this w)) as [ctx|] eqn:Hc; [|congruence].
  unfold handleMessage, handleMessage_begin. js. rewrite Hb, Hc, Hdec. reflexivity.
Qed.

(** What the flush does when the interruption check is reached with no
    audio in the message: every pending source is stopped, none stays
    pending, and the pointer is the clock reading. *)
Lemma interruption_flushes (dt : Q) (m : LiveServerMessage) (w : World) :
  outputAudioContext (this w) <> None ->
  truthy (base64Audio m) = None ->
  interrupted m = true ->
  let w' := exec (handleMessage decode decodeAudioData dt m) w in
  log w' = log w ++ map SourceStop (sources (this w)) /\
  sources (this w') = [] /\
  nextStartTime (this w') = outputClock w /\
  outputAudioContext (this w') = outputAudioContext (this w).
Proof.
  intros Hctx Hb Hint w'.
  destruct (outputAudioContext (this w)) as [ctx|] eqn:Hc; [|congruence].
  unfold w', exec. rewrite handleMessage_no_audio by now left.
  rewrite Hint, (stopAudioPlayback_spec w ctx Hc). cbn.
  unfold outputClock. rewrite Hc. auto.
Qed.

(** After such a flush the next frame that plays starts at the clock
    reading of its arrival, whatever the pointer was before the flush. *)
Lemma after_flush_starts_now (dt : Q) (m : LiveServerMessage) (w : World) (f : Frame) :
  outputAudioContext (this w) <> None ->
  truthy (base64Audio m) = None ->
  interrupted m = true ->
  plays decode decodeAudioData f ->
  (0 <= gap f)%Q ->
  let flushed := exec (handleMessage decode decodeAudioData dt m) w in
  let a := exec (advanceClock (gap f)) flushed in
  exists startAt buf,
    scheduled (log (exec (enqueue decode decodeAudioData f) flushed)) =
    scheduled (log flushed) ++ [(startAt, buf)] /\
    (startAt == outputClock a)%Q.
Proof.
  intros Hctx Hb Hint Hf Hgap flushed a.
  destruct (interruption_flushes dt m w Hctx Hb Hint) as (_ & _ & Hnst & Hout).
  fold flushed in Hnst, Hout.
  assert (Hctx' : outputAudioContext (this flushed) <> None) by now rewrite Hout.
  destruct (enqueue_plays f flushed Hctx' Hf) as (buf & w2 & _ & Hrun & Hlog & _).
  eexists. exists buf. unfold exec at 1. rewrite Hrun. cbn [snd].
  rewrite Hlog, scheduled_app. cbn [scheduled]. split; [reflexivity|].
  fold a. unfold a at 1. rewrite advanceClock_nextStartTime, Hnst.
  apply Q.max_r.
  unfold a, exec. rewrite advanceClock_spec. unfold outputClock at 2. cbn.
  rewrite Hout. unfold outputClock.
  destruct (outputAudioContext (this w)) as [ctx|]; [|congruence].
  cbn. destruct (state ctx); cbn; lra.
Qed.

End PlaybackFacts.

(** ** Preservation along the monad *)

Section Respecting.

Context {R : World -> World -> Prop} {framing : Framing R}.

Lemma respects_ret (A : Type) (a : A) : respects R (ret a).
Proof. intros w. apply framing_refl. Qed.

Lemma respects_throw (A : Type) (e : JsError) : respects R (@throw A e).
Proof. intros w. apply framing_refl. Qed.

Lemma respects_complete (A : Type) (c : Completion A) : respects R (complete c).
Proof. intros w. apply framing_refl. Qed.

Lemma respects_getThis : respects R getThis.
Proof. intros w. apply framing_refl. Qed.

Lemma respects_bind (A B : Type) (c : Js A) (k : A -> Js B) :
  respects R c -> (forall a, respects R (k a)) -> respects R (bind c k).
Proof.
  intros Hc Hk w. unfold bind. specialize (Hc w).
  destruct (c w) as [[a|e] w1]; cbn [snd] in *; [|exact Hc].
  apply (framing_trans _ _ _ Hc), Hk.
Qed.

Lemma respects_try_catch (A : Type) (c : Js A) (h : JsError -> Js A) :
  respects R c -> (forall e, respects R (h e)) -> respects R (try_catch c h).
Proof.
  intros Hc Hh w. unfold try_catch. specialize (Hc w).
  destruct (c w) as [[a|e] w1]; cbn [snd] in *; [exact Hc|].
  apply (framing_trans _ _ _ Hc), Hh.
Qed.

Lemma respects_forEach (A : Type) (l : list A) (f : A -> Js unit) :
  (forall x, respects R (f x)) -> respects R (forEach l f).
Proof.
  intros Hf. induction l as [|x l IH]; cbn [forEach].
  - apply respects_ret.
  - apply respects_bind; [apply Hf | intros _; exact IH].
Qed.

Lemma respects_when (b : bool) (c : Js unit) :
  respects R c -> respects R (when b c).
Proof. intros Hc. destruct b; [exact Hc | apply respects_ret]. Qed.

Lemma respects_times (n : nat) (c : Js unit) :
  respects R c -> respects R (times n c).
Proof.
  intros Hc. induction n as [|n IH]; cbn [times].
  - apply respects_ret.
  - apply respects_bind; [exact Hc | intros _; exact IH].
Qed.

End Respecting.

(** Takes a goal [respects R c] apart along the structure of [c]; what is
    left are the primitive steps. *)
Ltac respect :=
  repeat
    match goal with
    | |- respects _ (bind _ _) => apply respects_bind; [|intros ?]
    | |- respects _ (try_catch _ _) => apply respects_try_catch; [|intros ?]
    | |- respects _ (forEach _ _) => apply respects_forEach; intros ?
    | |- respects _ (when _ _) => apply respects_when
    | |- respects _ (ret _) => apply respects_ret
    | |- respects _ (complete _) => apply respects_complete
    | |- respects _ getThis => apply respects_getThis
    | |- respects _ (match ?x with _ => _ end) => destruct x
    end.

#[local] Instance keepsPointer_framing : Framing keepsPointer.
Proof. split; unfold keepsPointer; intros; congruence. Qed.

#[local] Instance pointerForward_framing : Framing pointerForward.
Proof.
  split; unfold pointerForward; intros.
  - apply Qle_refl.
  - eapply Qle_trans; eassumption.
Qed.

#[local] Instance quiet_framing (p : Effect -> bool) : Framing (quiet p).
Proof. split; unfold quiet; intros; congruence. Qed.

#[local] Instance noProcessor_framing : Framing noProcessor.
Proof. split; unfold noProcessor; intros; auto. Qed.

#[local] Instance keepsOutput_framing : Framing keepsOutput.
Proof. split; unfold keepsOutput; intros; auto. Qed.

#[local] Instance keepsPromise_framing : Framing keepsPromise.
Proof. split; unfold keepsPromise; intros; auto. Qed.

(** *** The primitive steps *)

Lemma quiet_emit (p : Effect -> bool) (e : Effect) :
  p e = false -> respects (quiet p) (emit e).
Proof.
  intros He w. unfold quiet, emit. cbn. rewrite filter_app. cbn.
  rewrite He. apply app_nil_r.
Qed.

Lemma quiet_update (p : Effect -> bool) (f : GeminiLiveService -> GeminiLiveService) :
  respects (quiet p) (update f).
Proof. intros w. reflexivity. Qed.

Lemma quiet_register (p : Effect -> bool) (r : Reaction) :
  respects (quiet p) (register r).
Proof. intros w. reflexivity. Qed.

Lemma quiet_clearReactions (p : Effect -> bool) : respects (quiet p) clearReactions.
Proof. intros w. reflexivity. Qed.

Lemma quiet_createBufferSource (p : Effect -> bool) :
  respects (quiet p) createBufferSource.
Proof. intros w. reflexivity. Qed.

Lemma keepsPointer_emit (e : Effect) : respects keepsPointer (emit e).
Proof. intros w. reflexivity. Qed.

Lemma keepsPointer_register (r : Reaction) : respects keepsPointer (register r).
Proof. intros w. reflexivity. Qed.

Lemma keepsPointer_clearReactions : respects keepsPointer clearReactions.
Proof. intros w. reflexivity. Qed.

Lemma keepsPointer_update (f : GeminiLiveService -> GeminiLiveService) :
  (forall s, nextStartTime (f s) = nextStartTime s) ->
  respects keepsPointer (update f).
Proof. intros Hf w. apply Hf. Qed.

Lemma keepsPointer_createBufferSource : respects keepsPointer createBufferSource.
Proof. intros w. reflexivity. Qed.

Lemma keepsPointer_forward (A : Type) (c : Js A) :
  respects keepsPointer c -> respects pointerForward c.
Proof.
  intros Hc w. unfold pointerForward. rewrite (Hc w). apply Qle_refl.
Qed.

Create HintDb frames.

#[local] Hint Resolve quiet_update quiet_register quiet_clearReactions
  quiet_createBufferSource keepsPointer_emit keepsPointer_register
  keepsPointer_clearReactions keepsPointer_createBufferSource : frames.

#[local] Hint Extern 1 (respects (quiet _) (emit _)) =>
  apply quiet_emit; reflexivity : frames.

#[local] Hint Extern 1 (respects keepsPointer (update _)) =>
  apply keepsPointer_update; intros ?; reflexivity : frames.

(** ** Teardown *)

Section Teardown.

Variable platform : Platform.

Lemma forEach_trackStop (l : list Track) (w : World) :
  (forall t, trackStop platform t = Normal tt) ->
  forEach l (stopTrack platform) w =
  (Normal tt, {| this := this w; created := created w; reactions := reactions w;
                 log := log w ++ map TrackStop l |}).
Proof.
  intros Hstop. revert w; induction l as [|t l IH]; intros w; cbn [forEach map].
  - unfold ret. rewrite app_nil_r. destruct w; reflexivity.
  - unfold stopTrack at 1. js. rewrite Hstop. rewrite IH. cbn.
    rewrite <- app_assoc. reflexivity.
Qed.

(** The close of the session never throws out of its [catch]. *)
Lemma closeIfPossible_spec (session : Session) (w : World) :
  closeIfPossible platform session w =
  (Normal tt, {| this := this w; created := created w; reactions := reactions w;
                 log := log w ++ (if hasClose session then [SessionClose] else []) |}).
Proof.
  unfold closeIfPossible. destruct (hasClose session).
  - js. destruct (sessionClose platform) as [[]|e]; reflexivity.
  - unfold ret. rewrite app_nil_r. destruct w; reflexivity.
Qed.

(** One call on a dependable platform: it completes, it logs the release
    of every resource that the instance holds, and the instance holds the
    same resources afterwards. *)
Lemma disconnect_once (w : World) :
  dependable platform ->
  exists w',
    disconnect platform w = (Normal tt, w') /\
    log w' = log w ++ teardown (this w) /\
    teardown (this w') = teardown (this w).
Proof.
  intros (Htrack & Hproc & Hctx).
  destruct w as [[promise ci co pointer pending media node] made waiting history].
  unfold disconnect, teardown. js.
  destruct media as [media|]; cbn;
    [rewrite forEach_trackStop by exact Htrack|]; cbn;
    (destruct node as [node|]; cbn; [rewrite Hproc|]); cbn;
    (destruct ci as [ci|]; cbn; [rewrite (Hctx Input)|]); cbn;
    (destruct co as [co|]; cbn; [rewrite (Hctx Output)|]); cbn;
    (destruct promise as [[|session|e]|]; cbn;
     [|rewrite closeIfPossible_spec| |]);
    cbn; eexists; (split; [reflexivity|]); cbn;
    rewrite <- ?app_assoc, ?app_nil_r; cbn; auto.
Qed.

(** C3, as the code has it.  On a platform whose [stop()], [disconnect()]
    and [close()] calls do not throw, [disconnect] called any number of
    times from any state completes without error, and every call attempts
    the release of each resource the instance holds: a stop of every
    microphone track, the disconnect of the processor, the close of both
    contexts, and the close of the session when its promise is fulfilled
    with an object that can close; a failing [session.close()] is
    swallowed, a resource that is absent is skipped. *)
Theorem disconnect_releases_what_is_held (w : World) (n : nat) :
  dependable platform ->
  times n (disconnect platform) w =
    (Normal tt, exec (times n (disconnect platform)) w) /\
  log (exec (times n (disconnect platform)) w) =
    log w ++ concat (repeat (teardown (this w)) n).
Proof.
  intros Hdep. revert w. induction n as [|n IH]; intros w.
  - cbn. rewrite app_nil_r. split; reflexivity.
  - destruct (disconnect_once w Hdep) as (w1 & Hrun & Hlog & Hsame).
    destruct (IH w1) as [Hrest Hlogs].
    unfold exec. cbn [times]. unfold bind. rewrite Hrun.
    split.
    + rewrite Hrest at 1. reflexivity.
    + unfold exec in Hlogs. rewrite Hlogs, Hlog, Hsame.
      cbn [repeat concat]. now rewrite app_assoc.
Qed.

End Teardown.

(** C3, as stated, fails: the releases of lines 217-220 are guarded against
    an absent resource only.  On a platform whose [processor.disconnect()]
    throws, [disconnect] on an open session ends with that error and neither
    context is asked to close. *)
Lemma disconnect_stops_at_first_throw :
  let w := world Sample.live in
  inputAudioContext (this w) <> None /\
  outputAudioContext (this w) <> None /\
  result (disconnect Sample.jammed) w = Throw {| message := "disconnect failed" |} /\
  ~ In (ContextClose Input) (log (exec (disconnect Sample.jammed) w)) /\
  ~ In (ContextClose Output) (log (exec (disconnect Sample.jammed) w)).
Proof.
  cbv zeta. repeat split; try (vm_compute; discriminate).
  - vm_compute. intros H. repeat (destruct H as [H|H]; [discriminate|]). exact H.
  - vm_compute. intros H. repeat (destruct H as [H|H]; [discriminate|]). exact H.
Qed.

(** ** Connection set-up *)

Section Setup.

Variable platform : Platform.

Lemma forEach_stopTrack_this (l : list Track) (w : World) :
  this (snd (forEach l (stopTrack platform) w)) = this w.
Proof.
  revert w. induction l as [|t l IH]; intros w; [reflexivity|].
  cbn [forEach]. unfold bind, stopTrack at 1, emit, complete. cbn.
  destruct (trackStop platform t); [rewrite IH|]; reflexivity.
Qed.

(** [disconnect] writes three fields at most, and leaves in each what was
    there in kind: no processor where there was none, a context where there
    was one. *)
Lemma disconnect_this (w : World) :
  exists node ci co,
    this (snd (disconnect platform w)) =
      set_processor node (set_inputAudioContext ci (set_outputAudioContext co (this w))) /\
    (processor (this w) = None -> node = None) /\
    (inputAudioContext (this w) <> None -> ci <> None) /\
    (outputAudioContext (this w) <> None -> co <> None).
Proof.
  destruct w as [[promise ci co pointer pending media node] made waiting history].
  unfold disconnect. js. cbn.
  assert (Htracks : forall w0 : World, exists w1 c,
            match media with
            | Some m => forEach (getTracks m) (stopTrack platform)
            | None => fun w => (Normal tt, w)
            end w0 = (c, w1) /\ this w1 = this w0).
  { intros w0. destruct media as [m|].
    - pose proof (forEach_stopTrack_this (getTracks m) w0) as H.
      destruct (forEach (getTracks m) (stopTrack platform) w0) as [c w1].
      exists w1, c. auto.
    - exists w0, (Normal tt). auto. }
  match goal with |- context [match media with _ => _ end ?w0] =>
    destruct (Htracks w0) as (w1 & c & -> & Hthis) end.
  destruct w1 as [s1 made1 waiting1 history1]. cbn in Hthis. subst s1.
  destruct c as [[]|e]; cbn;
    [|exists node, ci, co; repeat split; auto].
  destruct node as [node|]; cbn;
    [destruct (processorDisconnect platform); cbn|];
    (destruct ci as [ci|]; cbn;
     [destruct (contextClose platform Input); cbn|]);
    (destruct co as [co|]; cbn;
     [destruct (contextClose platform Output); cbn|]);
    try (destruct promise as [[|session|e']|]; cbn;
         rewrite ?closeIfPossible_spec; cbn);
    (eexists _, _, _; split; [unfold set_processor, set_inputAudioContext,
       set_outputAudioContext; cbn; reflexivity|]);
    repeat split; intros; congruence.
Qed.

Lemma disconnect_quiet (p : Effect -> bool) :
  p ProcessorDisconnect = false -> p SessionClose = false ->
  (forall t, p (TrackStop t) = false) -> (forall c, p (ContextClose c) = false) ->
  respects (quiet p) (disconnect platform).
Proof.
  intros Hp Hs Ht Hc. unfold disconnect, closeIfPossible, stopTrack.
  respect; auto with frames; apply quiet_emit; auto.
Qed.

Lemma connect_catch_completes (err : JsError) (w : World) :
  fst (connect_catch platform err w) = Normal tt.
Proof.
  unfold connect_catch. js.
  destruct (disconnect platform _) as [[[]|e] w1]; reflexivity.
Qed.

(** The [catch] of [connect]: one call of [onError] with the described
    cause, then the teardown; nothing of the capture pipeline. *)
Lemma connect_catch_spec (err : JsError) (w : World) :
  exists w',
    connect_catch platform err w = (Normal tt, w') /\
    filter isOnError (log w') = filter isOnError (log w) ++ [OnError (describe err)] /\
    filter isCapture (log w') = filter isCapture (log w) /\
    filter isOnClose (log w') = filter isOnClose (log w) /\
    (processor (this w) = None -> processor (this w') = None) /\
    nextStartTime (this w') = nextStartTime (this w) /\
    sessionPromise (this w') = sessionPromise (this w) /\
    (outputAudioContext (this w) <> None -> outputAudioContext (this w') <> None).
Proof.
  pose proof (connect_catch_completes err w) as Hc.
  destruct (connect_catch platform err w) as [c w'] eqn:E. cbn in Hc. subst c.
  exists w'. split; [reflexivity|].
  unfold connect_catch in E. revert E. js.
  set (w1 := {| this := this w; created := created w; reactions := reactions w;
                log := (log w ++ [ConsoleError "Connection Failed"]) ++
                       [OnError (describe err)] |}).
  intros E.
  assert (Hw' : w' = snd (disconnect platform w1)).
  { destruct (disconnect platform w1) as [[[]|e] w2]; cbn;
      injection E as <-; reflexivity. }
  clear E. subst w'.
  pose proof (disconnect_quiet isOnError eq_refl eq_refl
                (fun _ => eq_refl) (fun _ => eq_refl) w1) as Q1.
  pose proof (disconnect_quiet isCapture eq_refl eq_refl
                (fun _ => eq_refl) (fun _ => eq_refl) w1) as Q2.
  pose proof (disconnect_quiet isOnClose eq_refl eq_refl
                (fun _ => eq_refl) (fun _ => eq_refl) w1) as Q3.
  unfold quiet in Q1, Q2, Q3. rewrite Q1, Q2, Q3.
  destruct (disconnect_this w1) as (node & ci & co & Hthis & Hnode & _ & Hco).
  rewrite Hthis. subst w1. cbn.
  rewrite !filter_app. cbn. rewrite !app_nil_r.
  repeat split; auto.
Qed.

#[local] Arguments connect_catch : simpl never.

(** A connect attempt that fails on the devices ends in the [catch]
    before [client.live.connect] is called. *)
Lemma connect_setup_fails (env : Devices) (w : World) (err : JsError) :
  deviceFailure env = Some err ->
  exists w',
    connect_setup platform env w = (Normal false, w') /\
    filter isOnError (log w') = filter isOnError (log w) ++ [OnError (describe err)] /\
    filter isCapture (log w') = filter isCapture (log w) /\
    filter isOnClose (log w') = filter isOnClose (log w) /\
    (processor (this w) = None -> processor (this w') = None) /\
    nextStartTime (this w') = nextStartTime (this w) /\
    sessionPromise (this w') = sessionPromise (this w) /\
    outputAudioContext (this w') <> None.
Proof.
  intros Hfail. unfold connect_setup. js. unfold deviceFailure in Hfail.
  destruct (inputState env), (resumeInput env) as [[]|e1],
    (outputState env), (resumeOutput env) as [[]|e2],
    (getUserMedia env) as [media|e3];
    try discriminate; injection Hfail as <-; cbn;
    match goal with |- context [connect_catch platform ?e ?w1] =>
      destruct (connect_catch_spec e w1)
        as (w' & -> & H1 & H2 & H3 & H4 & H5 & H6 & H7)
    end;
    exists w'; cbn in *; rewrite ?filter_app in *; cbn in *;
    rewrite ?app_nil_r in *;
    (repeat split; auto; apply H7; discriminate).
Qed.

(** A connect attempt on which the devices do not fail reaches the [await]
    of the handshake, with the callbacks handed over. *)
Lemma connect_setup_waits (env : Devices) (w : World) :
  deviceFailure env = None ->
  exists w',
    connect_setup platform env w = (Normal true, w') /\
    filter isOnError (log w') = filter isOnError (log w) /\
    filter isCapture (log w') = filter isCapture (log w) /\
    filter isOnClose (log w') = filter isOnClose (log w) /\
    processor (this w') = processor (this w) /\
    nextStartTime (this w') = nextStartTime (this w) /\
    sessionPromise (this w') = Some Pending /\
    outputAudioContext (this w') <> None.
Proof.
  intros Hok. unfold connect_setup. js. unfold deviceFailure in Hok.
  destruct (inputState env), (resumeInput env) as [[]|e1],
    (outputState env), (resumeOutput env) as [[]|e2],
    (getUserMedia env) as [media|e3];
    try discriminate; cbn;
    eexists; (split; [reflexivity|]); cbn; rewrite ?filter_app; cbn;
    rewrite ?app_nil_r; repeat split; auto; discriminate.
Qed.

(** The handshake is rejected while [connect] awaits it. *)
Lemma connect_settle_rejected (err : JsError) (w : World) :
  exists w',
    connect_settle platform (Throw err) w = (Normal tt, w') /\
    filter isOnError (log w') = filter isOnError (log w) ++ [OnError (describe err)] /\
    filter isCapture (log w') = filter isCapture (log w) /\
    filter isOnClose (log w') = filter isOnClose (log w) /\
    (processor (this w) = None -> processor (this w') = None) /\
    nextStartTime (this w') = nextStartTime (this w) /\
    sessionPromise (this w') = Some (Rejected err) /\
    (outputAudioContext (this w) <> None -> outputAudioContext (this w') <> None).
Proof.
  unfold connect_settle. js.
  match goal with |- context [connect_catch platform ?e ?w1] =>
    destruct (connect_catch_spec e w1)
      as (w' & -> & H1 & H2 & H3 & H4 & H5 & H6 & H7)
  end.
  cbn in *. eexists. split; [reflexivity|]. cbn. repeat split; auto.
Qed.

End Setup.

Lemma notify_liveServiceRef (l : list Effect) (a : App) :
  liveServiceRef (fold_left notify l a) = liveServiceRef a.
Proof.
  revert a. induction l as [|e l IH]; intros a; [reflexivity|].
  cbn [fold_left]. rewrite IH. destruct e; reflexivity.
Qed.

(** C4, as stated, fails for the missing credential: [startSession] tells
    it by the error message and the [ERROR] state, and the [onError]
    callback is never called (no service exists to call it). *)
Lemma missing_credential_not_through_onError :
  let a' := startSession Sample.steady None Sample.granted
                         (Normal Sample.session) Sample.app in
  callbackErrors a' = 0%nat /\
  liveServiceRef a' = None /\
  appState a' = ERROR /\
  errorMsg a' = Some "API Key not found in environment."%string.
Proof. cbv zeta. repeat split. Qed.

(** ** Sessions as runs of events *)

Section Runs.

Variable decode : string -> Completion (list byte).
Variable decodeAudioData : list byte -> Completion AudioBuffer.
Variable createBlob : list Q -> string.
Variable platform : Platform.

(** *** Methods that leave [nextStartTime] alone *)

Lemma disconnect_keepsPointer : respects keepsPointer (disconnect platform).
Proof.
  unfold disconnect, closeIfPossible, stopTrack. respect; auto with frames.
Qed.

Lemma connect_setup_keepsPointer (env : Devices) :
  respects keepsPointer (connect_setup platform env).
Proof.
  unfold connect_setup, connect_catch.
  respect; auto using disconnect_keepsPointer with frames.
Qed.

Lemma connect_settle_keepsPointer (outcome : Completion Session) :
  respects keepsPointer (connect_settle platform outcome).
Proof.
  unfold connect_settle, connect_catch, runReaction, closeIfPossible.
  respect; auto using disconnect_keepsPointer with frames.
Qed.

Lemma handleOpen_keepsPointer : respects keepsPointer handleOpen.
Proof. unfold handleOpen. respect; auto with frames. Qed.

Lemma onaudioprocess_keepsPointer (inputData : list Q) :
  respects keepsPointer (onaudioprocess createBlob platform inputData).
Proof.
  unfold onaudioprocess, runReaction, closeIfPossible.
  respect; auto with frames.
Qed.

Lemma onerror_keepsPointer : respects keepsPointer onerror.
Proof. unfold onerror. respect; auto with frames. Qed.

Lemma onclose_keepsPointer : respects keepsPointer onclose.
Proof. unfold onclose. respect; auto with frames. Qed.

Lemma sourceEnded_keepsPointer (n : SourceNode) : respects keepsPointer (sourceEnded n).
Proof. unfold sourceEnded. auto with frames. Qed.

Lemma advanceClock_keepsPointer (dt : Q) : respects keepsPointer (advanceClock dt).
Proof. unfold advanceClock. auto with frames. Qed.

(** *** The two halves of [handleMessage] *)

Lemma duration_nonneg (b : AudioBuffer) : (0 <= duration b)%Q.
Proof. unfold duration, Qle. cbn. lia. Qed.

(** Before the [await]: the pointer goes forward (line 178) or, when the
    message has no usable audio and carries the flag, is reset to the
    clock. *)
Lemma handleMessage_begin_pointer (m : LiveServerMessage) (w : World) :
  let w' := snd (handleMessage_begin decode m w) in
  pointerForward w w' \/
  interrupted m = true /\ nextStartTime (this w') = outputClock w'.
Proof.
  cbv zeta. unfold handleMessage_begin, pointerForward. js.
  assert (Hflush :
    let w' := snd (let (c, w') := when (interrupted m) stopAudioPlayback w in
                   match c with
                   | Normal _ => (Normal Returned, w')
                   | Throw e => (@Throw Suspension e, w')
                   end) in
    (nextStartTime (this w) <= nextStartTime (this w'))%Q \/
    interrupted m = true /\ nextStartTime (this w') = outputClock w').
  { unfold when. destruct (interrupted m).
    - rewrite stopAudioPlayback_total. cbn. unfold outputClock. cbn.
      destruct (outputAudioContext (this w)) as [ctx|] eqn:Hctx; cbn;
        rewrite ?Hctx; [now right|].
      left. apply Qle_refl.
    - left. apply Qle_refl. }
  destruct (truthy (base64Audio m)) as [b|]; [|exact Hflush].
  destruct (outputAudioContext (this w)) as [ctx|]; [|exact Hflush].
  left. destruct (decode b) as [encoded|e]; cbn; [|apply Qle_refl].
  destruct (isNil encoded); cbn; [apply Qle_refl | apply Q.le_max_l].
Qed.

(** The scheduling of lines 181-198 never throws and never moves the
    pointer back. *)
Lemma schedule_forward (encoded : list byte) :
  respects pointerForward
    (try_catch
       (audioBuffer <- complete (decodeAudioData encoded) ;;
        emit (OnAudioData audioBuffer) ;;
        source <- createBufferSource ;;
        s <- getThis ;;
        emit (SourceStart source (nextStartTime s) audioBuffer) ;;
        update (fun s' => set_nextStartTime
                            (nextStartTime s' + duration audioBuffer) s') ;;
        update (fun s' => set_sources (set_add source (sources s')) s'))
       (fun e => emit (ConsoleError "Error decoding audio")))%js.
Proof.
  respect; try (apply keepsPointer_forward; auto with frames; fail).
  intros w. unfold pointerForward, update. cbn.
  match goal with b : AudioBuffer |- _ => pose proof (duration_nonneg b) end. lra.
Qed.

Lemma schedule_completes (encoded : list byte) (w : World) :
  fst (try_catch
         (audioBuffer <- complete (decodeAudioData encoded) ;;
          emit (OnAudioData audioBuffer) ;;
          source <- createBufferSource ;;
          s <- getThis ;;
          emit (SourceStart source (nextStartTime s) audioBuffer) ;;
          update (fun s' => set_nextStartTime
                              (nextStartTime s' + duration audioBuffer) s') ;;
          update (fun s' => set_sources (set_add source (sources s')) s'))
         (fun e => emit (ConsoleError "Error decoding audio"))%js w) = Normal tt.
Proof.
  unfold createBufferSource. js. destruct (decodeAudioData encoded); reflexivity.
Qed.

(** After the [await]: the pointer goes forward, or is reset to the clock
    by the flag of the message. *)
Lemma handleMessage_resume_pointer (m : LiveServerMessage) (encoded : list byte)
    (w : World) :
  let w' := snd (handleMessage_resume decodeAudioData m encoded w) in
  pointerForward w w' \/
  interrupted m = true /\ nextStartTime (this w') = outputClock w'.
Proof.
  cbv zeta.
  pose proof (schedule_forward encoded w) as Hfwd.
  pose proof (schedule_completes encoded w) as Hok.
  assert (E : exists w1, pointerForward w w1 /\
                handleMessage_resume decodeAudioData m encoded w =
                when (interrupted m) stopAudioPlayback w1).
  { unfold handleMessage_resume, bind.
    destruct (try_catch _ _ w) as [c w1]. cbn in Hfwd, Hok. subst c.
    exists w1. auto. }
  destruct E as (w1 & Hw1 & ->). clear Hfwd Hok.
  unfold when. destruct (interrupted m).
  - rewrite stopAudioPlayback_total. cbn. unfold outputClock. cbn.
    destruct (outputAudioContext (this w1)) as [ctx|] eqn:Hctx; cbn;
      rewrite ?Hctx; [now right | now left].
  - now left.
Qed.

(** C5. No event of a session moves [nextStartTime] back, except the
    handling of a message that carries the interruption flag, which may
    reset it to the reading of the output clock. *)
Theorem nextStartTime_monotone (a : Action) (r : Running) :
  let r' := step decode decodeAudioData createBlob platform a r in
  (nextStartTime (this (world r)) <= nextStartTime (this (world r')))%Q \/
  interrupts a r = true /\
  nextStartTime (this (world r')) = outputClock (world r').
Proof.
  cbv zeta.
  assert (Hkeep : forall (A : Type) (c : Js A),
            respects keepsPointer c ->
            (nextStartTime (this (world r)) <=
               nextStartTime (this (world (call c r))))%Q).
  { intros A c Hc. unfold call, exec. cbn. rewrite (Hc (world r)). apply Qle_refl. }
  destruct a as [env|outcome| |m|i| | |inputData|source| |dt]; cbn [step interrupts].
  - left. apply Hkeep, connect_setup_keepsPointer.
  - left. destruct (handshaking (world r));
      [apply Hkeep, connect_settle_keepsPointer | apply Qle_refl].
  - left. destruct (registered (world r));
      [apply Hkeep, handleOpen_keepsPointer | apply Qle_refl].
  - destruct (registered (world r)); [|left; apply Qle_refl].
    pose proof (handleMessage_begin_pointer m (world r)) as H.
    destruct (handleMessage_begin decode m (world r)) as [[[|encoded]|e] w'];
      exact H.
  - destruct (nth_error (waiting r) i) as [[m encoded]|]; [|left; apply Qle_refl].
    apply handleMessage_resume_pointer.
  - left. destruct (registered (world r));
      [apply Hkeep, onerror_keepsPointer | apply Qle_refl].
  - left. destruct (registered (world r));
      [apply Hkeep, onclose_keepsPointer | apply Qle_refl].
  - left. apply Hkeep, onaudioprocess_keepsPointer.
  - left. apply Hkeep, sourceEnded_keepsPointer.
  - left. apply Hkeep, disconnect_keepsPointer.
  - left. apply Hkeep, advanceClock_keepsPointer.
Qed.

(** *** Methods that call neither [onError] nor [onClose] *)

Lemma disconnect_silent : silent unit (disconnect platform).
Proof. split; apply disconnect_quiet; reflexivity. Qed.

Lemma stopAudioPlayback_silent : silent unit stopAudioPlayback.
Proof. split; unfold stopAudioPlayback; respect; auto with frames. Qed.

Lemma handleMessage_begin_silent (m : LiveServerMessage) :
  silent Suspension (handleMessage_begin decode m).
Proof.
  destruct stopAudioPlayback_silent.
  split; unfold handleMessage_begin; respect; auto with frames.
Qed.

Lemma handleMessage_resume_silent (m : LiveServerMessage) (encoded : list byte) :
  silent unit (handleMessage_resume decodeAudioData m encoded).
Proof.
  destruct stopAudioPlayback_silent.
  split; unfold handleMessage_resume; respect; auto with frames.
Qed.

Lemma handleOpen_silent : silent unit handleOpen.
Proof. split; unfold handleOpen; respect; auto with frames. Qed.

Lemma onaudioprocess_silent (inputData : list Q) :
  silent unit (onaudioprocess createBlob platform inputData).
Proof.
  split; unfold onaudioprocess, runReaction, closeIfPossible;
    respect; auto with frames.
Qed.

Lemma sourceEnded_silent (n : SourceNode) : silent unit (sourceEnded n).
Proof. split; unfold sourceEnded; auto with frames. Qed.

Lemma advanceClock_silent (dt : Q) : silent unit (advanceClock dt).
Proof. split; unfold advanceClock; auto with frames. Qed.

Lemma connect_settle_fulfilled_silent (session : Session) :
  silent unit (connect_settle platform (Normal session)).
Proof.
  split; unfold connect_settle, runReaction, closeIfPossible;
    respect; auto with frames.
Qed.

Lemma calls_quiet (w w' : World) :
  quiet isOnError w w' -> quiet isOnClose w w' ->
  onErrorCalls (log w') = (onErrorCalls (log w) + 0)%nat /\
  onCloseCalls (log w') = (onCloseCalls (log w) + 0)%nat.
Proof.
  unfold quiet, onErrorCalls, onCloseCalls. intros -> ->.
  now rewrite !Nat.add_0_r.
Qed.

Lemma calls_one_error (w w' : World) (cause : string) :
  filter isOnError (log w') = filter isOnError (log w) ++ [OnError cause] ->
  filter isOnClose (log w') = filter isOnClose (log w) ->
  onErrorCalls (log w') = (onErrorCalls (log w) + 1)%nat /\
  onCloseCalls (log w') = (onCloseCalls (log w) + 0)%nat.
Proof.
  unfold onErrorCalls, onCloseCalls. intros -> ->.
  rewrite length_app, Nat.add_0_r. split; reflexivity.
Qed.

(** One event: [onError] is called once if the event is a failure that
    the class tells, [onClose] once if it is a close event, and neither
    otherwise. *)
Lemma step_calls (a : Action) (r : Running) :
  let r' := step decode decodeAudioData createBlob platform a r in
  onErrorCalls (log (world r')) =
    (onErrorCalls (log (world r)) + (if raisesError a r then 1 else 0))%nat /\
  onCloseCalls (log (world r')) =
    (onCloseCalls (log (world r)) + (if closes a r then 1 else 0))%nat.
Proof.
  cbv zeta.
  assert (Hsilent : forall (A : Type) (c : Js A), silent A c ->
    onErrorCalls (log (world (call c r))) = (onErrorCalls (log (world r)) + 0)%nat /\
    onCloseCalls (log (world (call c r))) = (onCloseCalls (log (world r)) + 0)%nat).
  { intros A c [H1 H2]. apply calls_quiet; [apply H1 | apply H2]. }
  assert (Hsame :
    onErrorCalls (log (world r)) = (onErrorCalls (log (world r)) + 0)%nat /\
    onCloseCalls (log (world r)) = (onCloseCalls (log (world r)) + 0)%nat)
    by now rewrite !Nat.add_0_r.
  destruct a as [env|outcome| |m|i| | |inputData|source| |dt];
    cbn [step raisesError closes].
  - destruct (deviceFailure env) as [err|] eqn:Hdev.
    + destruct (connect_setup_fails platform env (world r) err Hdev)
        as (w' & Hrun & H1 & _ & H3 & _).
      unfold call, exec. rewrite Hrun. cbn [snd world].
      exact (calls_one_error _ _ _ H1 H3).
    + destruct (connect_setup_waits platform env (world r) Hdev)
        as (w' & Hrun & H1 & _ & H3 & _).
      unfold call, exec. rewrite Hrun. cbn [snd world].
      exact (calls_quiet _ _ H1 H3).
  - destruct (handshaking (world r)).
    + destruct outcome as [session|err].
      * apply Hsilent, connect_settle_fulfilled_silent.
      * destruct (connect_settle_rejected platform err (world r))
          as (w' & Hrun & H1 & _ & H3 & _).
        unfold call, exec. rewrite Hrun. cbn [snd world].
        exact (calls_one_error _ _ _ H1 H3).
    + destruct outcome; exact Hsame.
  - destruct (registered (world r)); [apply Hsilent, handleOpen_silent | exact Hsame].
  - destruct (registered (world r)); [|exact Hsame].
    destruct (handleMessage_begin_silent m) as [H1 H2].
    specialize (H1 (world r)). specialize (H2 (world r)).
    destruct (handleMessage_begin decode m (world r)) as [[[|encoded]|e] w'];
      cbn [world]; apply calls_quiet; assumption.
  - destruct (nth_error (waiting r) i) as [[m encoded]|]; [|exact Hsame].
    destruct (handleMessage_resume_silent m encoded) as [H1 H2].
    cbn [world]. apply calls_quiet; [apply H1 | apply H2].
  - destruct (registered (world r)); [|exact Hsame].
    unfold call, onerror, onErrorCalls, onCloseCalls. js. cbn [world log].
    rewrite !filter_app. cbn. rewrite !app_nil_r, length_app. cbn.
    now rewrite Nat.add_0_r.
  - destruct (registered (world r)); [|exact Hsame].
    unfold call, onclose, onErrorCalls, onCloseCalls. js. cbn [world log].
    rewrite !filter_app. cbn. rewrite !app_nil_r, length_app. cbn.
    now rewrite Nat.add_0_r.
  - apply Hsilent, onaudioprocess_silent.
  - apply Hsilent, sourceEnded_silent.
  - apply Hsilent, disconnect_silent.
  - apply Hsilent, advanceClock_silent.
Qed.

(** C6, as the code has it.  The class keeps no record of having told an
    outcome: over any run of events of a session, [onError] is called once
    for every network error event, once for a connect attempt that fails on
    the devices and once for a handshake rejected while awaited, and
    [onClose] once for every close event; no other event calls either. *)
Theorem callbacks_once_per_event (actions : list Action) (r : Running) :
  let r' := run decode decodeAudioData createBlob platform actions r in
  onErrorCalls (log (world r')) =
    (onErrorCalls (log (world r))
     + errorEvents decode decodeAudioData createBlob platform actions r)%nat /\
  onCloseCalls (log (world r')) =
    (onCloseCalls (log (world r))
     + closeEvents decode decodeAudioData createBlob platform actions r)%nat.
Proof.
  cbv zeta. revert r. induction actions as [|a actions IH]; intros r.
  - cbn. now rewrite !Nat.add_0_r.
  - unfold run. cbn [fold_left errorEvents closeEvents].
    fold (run decode decodeAudioData createBlob platform actions
              (step decode decodeAudioData createBlob platform a r)).
    destruct (IH (step decode decodeAudioData createBlob platform a r)) as [E C].
    destruct (step_calls a r) as [E1 C1].
    rewrite E, C, E1, C1. split; lia.
Qed.

End Runs.

(** C6, as stated, fails: a network error event while the handshake is
    awaited, followed by the rejection of the handshake, calls [onError]
    twice in one session; two close events call [onClose] twice. *)
Lemma onError_called_twice :
  onErrorCalls
    (log (world (Sample.run
                   [Connect Sample.granted; NetworkError;
                    Handshake (Throw {| message := "handshake failed" |})]
                   idle))) = 2%nat /\
  onCloseCalls
    (log (world (Sample.run
                   [Connect Sample.granted; Handshake (Normal Sample.session);
                    NetworkClose; NetworkClose]
                   idle))) = 2%nat.
Proof. split; reflexivity. Qed.

(** ** Order of delivery *)

#[local] Instance sameSession_framing : Framing sameSession.
Proof.
  split; unfold sameSession.
  - auto.
  - intros w1 w2 w3 [H1 H2] [H3 H4]. split; congruence.
Qed.

Lemma sameSession_emit (e : Effect) : respects sameSession (emit e).
Proof. intros w. split; reflexivity. Qed.

Lemma sameSession_register (r : Reaction) : respects sameSession (register r).
Proof. intros w. split; reflexivity. Qed.

Lemma sameSession_clearReactions : respects sameSession clearReactions.
Proof. intros w. split; reflexivity. Qed.

Lemma sameSession_createBufferSource : respects sameSession createBufferSource.
Proof. intros w. split; reflexivity. Qed.

Lemma sameSession_update (f : GeminiLiveService -> GeminiLiveService) :
  (forall s, sessionPromise (f s) = sessionPromise s /\
             outputAudioContext (f s) = outputAudioContext s) ->
  respects sameSession (update f).
Proof. intros Hf w. apply Hf. Qed.

#[local] Hint Resolve sameSession_emit sameSession_register
  sameSession_clearReactions sameSession_createBufferSource : frames.

#[local] Hint Extern 1 (respects sameSession (update _)) =>
  apply sameSession_update; intros ?; split; reflexivity : frames.

Lemma sameSession_receiving (w w' : World) :
  sameSession w w' -> receiving w -> receiving w'.
Proof.
  unfold sameSession, receiving, registered. intros [-> ->]. auto.
Qed.

Lemma reports_filter (l : list Effect) : reports (filter isAudio l) = reports l.
Proof.
  induction l as [|e l IH]; [reflexivity|].
  destruct e; cbn; rewrite ?IH; reflexivity.
Qed.

Lemma scheduled_filter (l : list Effect) : scheduled (filter isAudio l) = scheduled l.
Proof.
  induction l as [|e l IH]; [reflexivity|].
  destruct e; cbn; rewrite ?IH; reflexivity.
Qed.

Lemma quiet_audio (w w' : World) :
  quiet isAudio w w' ->
  reports (log w') = reports (log w) /\ scheduled (log w') = scheduled (log w).
Proof.
  unfold quiet. intros H.
  rewrite <- (reports_filter (log w')), <- (scheduled_filter (log w')), H.
  now rewrite reports_filter, scheduled_filter.
Qed.

Lemma reports_app (l1 l2 : list Effect) : reports (l1 ++ l2) = reports l1 ++ reports l2.
Proof.
  induction l1 as [|e l1 IH]; [reflexivity|].
  destruct e; cbn; rewrite ?IH; reflexivity.
Qed.

Lemma reports_stops (l : list SourceNode) : reports (map SourceStop l) = [].
Proof. induction l; auto. Qed.

Lemma scheduled_stops (l : list SourceNode) : scheduled (map SourceStop l) = [].
Proof. induction l; auto. Qed.

Section Order.

Variable decode : string -> Completion (list byte).
Variable decodeAudioData : list byte -> Completion AudioBuffer.
Variable createBlob : list Q -> string.
Variable platform : Platform.

(** *** Events other than the handling of messages *)

Lemma local_bystander (A : Type) (c : Js A) :
  respects (quiet isAudio) c -> respects sameSession c -> bystander A c.
Proof.
  intros H1 H2. split; [exact H1|].
  intros w. apply sameSession_receiving, H2.
Qed.

Lemma handleOpen_bystander : bystander unit handleOpen.
Proof.
  apply local_bystander; unfold handleOpen; respect; auto with frames.
Qed.

Lemma onerror_bystander : bystander unit onerror.
Proof. apply local_bystander; unfold onerror; respect; auto with frames. Qed.

Lemma onclose_bystander : bystander unit onclose.
Proof. apply local_bystander; unfold onclose; respect; auto with frames. Qed.

Lemma sourceEnded_bystander (n : SourceNode) : bystander unit (sourceEnded n).
Proof. apply local_bystander; unfold sourceEnded; auto with frames. Qed.

Lemma onaudioprocess_bystander (inputData : list Q) :
  bystander unit (onaudioprocess createBlob platform inputData).
Proof.
  apply local_bystander; unfold onaudioprocess, runReaction, closeIfPossible;
    respect; auto with frames.
Qed.

Lemma advanceClock_bystander (dt : Q) : bystander unit (advanceClock dt).
Proof.
  split; [unfold advanceClock; auto with frames|].
  intros w [Hreg Hctx]. split; [exact Hreg|].
  cbn. now apply advance_some.
Qed.

Lemma disconnect_bystander : bystander unit (disconnect platform).
Proof.
  split; [apply disconnect_quiet; reflexivity|].
  intros w [Hreg Hctx].
  destruct (disconnect_this platform w) as (node & ci & co & Hthis & _ & _ & Hco).
  unfold receiving, registered. rewrite Hthis. cbn. split; [exact Hreg | auto].
Qed.

Lemma connect_setup_bystander (env : Devices) :
  bystander bool (connect_setup platform env).
Proof.
  split.
  - unfold connect_setup, connect_catch.
    respect; auto using disconnect_quiet with frames;
      apply disconnect_quiet; reflexivity.
  - intros w [Hreg Hctx]. unfold receiving, registered in *.
    destruct (deviceFailure env) as [err|] eqn:Hdev.
    + destruct (connect_setup_fails platform env w err Hdev)
        as (w' & -> & _ & _ & _ & _ & _ & Hp & Hout).
      cbn. rewrite Hp. auto.
    + destruct (connect_setup_waits platform env w Hdev)
        as (w' & -> & _ & _ & _ & _ & _ & Hp & Hout).
      cbn. rewrite Hp. auto.
Qed.

Lemma connect_settle_bystander (outcome : Completion Session) :
  bystander unit (connect_settle platform outcome).
Proof.
  split.
  - unfold connect_settle, connect_catch, runReaction, closeIfPossible.
    respect; auto with frames; apply disconnect_quiet; reflexivity.
  - intros w [Hreg Hctx]. unfold receiving, registered in *.
    destruct outcome as [session|err].
    + assert (H : sameSession
                    {| this := set_sessionPromise (Some (Fulfilled session)) (this w);
                       created := created w; reactions := []; log := log w |}
                    (snd (connect_settle platform (Normal session) w))).
      { unfold connect_settle. js.
        apply (respects_forEach (R := sameSession)).
        intros x. unfold runReaction, closeIfPossible.
        respect; auto with frames. }
      destruct H as [-> ->]. cbn. auto.
    + destruct (connect_settle_rejected platform err w)
        as (w' & -> & _ & _ & _ & _ & _ & Hp & Hout).
      cbn. rewrite Hp. auto.
Qed.

(** *** The handling of messages *)

(** Up to the [await], a message reports and schedules nothing; it joins
    the waiting calls exactly when it brings bytes to decode. *)
Lemma begin_order (m : LiveServerMessage) (w : World) :
  receiving w ->
  let w' := snd (handleMessage_begin decode m w) in
  reports (log w') = reports (log w) /\
  scheduled (log w') = scheduled (log w) /\
  receiving w' /\
  match fst (handleMessage_begin decode m w) with
  | Normal (AwaitDecode encoded) =>
      awaited decodeAudioData [(m, encoded)] = brought decode decodeAudioData m
  | _ => brought decode decodeAudioData m = []
  end.
Proof.
  intros [Hreg Hctx]. cbv zeta. unfold registered in Hreg.
  destruct (outputAudioContext (this w)) as [ctx|] eqn:Hc; [|congruence].
  unfold handleMessage_begin, brought, frameOf, awaited, receiving, registered.
  js. rewrite Hc.
  destruct (truthy (base64Audio m)) as [b|].
  - destruct (decode b) as [encoded|e]; cbn.
    + destruct (isNil encoded); cbn; rewrite ?Hc, ?app_nil_r; repeat split;
        auto; congruence.
    + rewrite Hc. repeat split; auto; congruence.
  - unfold when. destruct (interrupted m).
    + rewrite stopAudioPlayback_total. cbn. rewrite Hc. cbn.
      rewrite reports_app, scheduled_app, reports_stops, scheduled_stops, !app_nil_r.
      repeat split; auto; congruence.
    + cbn. rewrite Hc. repeat split; auto; congruence.
Qed.

(** After the [await], a call reports and schedules the frame of its
    bytes, if they decode, and nothing else. *)
Lemma resume_order (m : LiveServerMessage) (encoded : list byte) (w : World) :
  receiving w ->
  let w' := snd (handleMessage_resume decodeAudioData m encoded w) in
  reports (log w') = reports (log w) ++ awaited decodeAudioData [(m, encoded)] /\
  map snd (scheduled (log w')) =
    map snd (scheduled (log w)) ++ awaited decodeAudioData [(m, encoded)] /\
  receiving w'.
Proof.
  intros [Hreg Hctx]. cbv zeta. unfold registered in Hreg.
  unfold handleMessage_resume, awaited, decoded, createBufferSource, receiving,
    registered, when.
  js. cbn.
  destruct (decodeAudioData encoded) as [buf|e]; cbn;
    (destruct (interrupted m);
     [rewrite stopAudioPlayback_total|]; cbn;
     rewrite ?reports_app, ?scheduled_app, ?reports_stops, ?scheduled_stops,
       ?map_app, ?app_nil_r; cbn;
     rewrite ?app_nil_r;
     (destruct (outputAudioContext (this w)) as [ctx|] eqn:Hc; [|congruence]);
     cbn; rewrite ?Hc; repeat split; auto; congruence).
Qed.

Lemma awaited_app (l1 l2 : list (LiveServerMessage * list byte)) :
  awaited decodeAudioData (l1 ++ l2) =
  awaited decodeAudioData l1 ++ awaited decodeAudioData l2.
Proof. apply flat_map_app. Qed.

(** One event of a run in which decodes settle in order. *)
Lemma step_order (a : Action) (r : Running) :
  receiving (world r) ->
  inOrder [a] = true ->
  let r' := step decode decodeAudioData createBlob platform a r in
  reports (log (world r')) ++ awaited decodeAudioData (waiting r') =
    (reports (log (world r)) ++ awaited decodeAudioData (waiting r))
    ++ arrivals decode decodeAudioData [a] /\
  map snd (scheduled (log (world r'))) ++ awaited decodeAudioData (waiting r') =
    (map snd (scheduled (log (world r))) ++ awaited decodeAudioData (waiting r))
    ++ arrivals decode decodeAudioData [a] /\
  receiving (world r').
Proof.
  intros Hrec Hfifo. cbv zeta.
  assert (Hby : forall (A : Type) (c : Js A), bystander A c ->
    reports (log (world (call c r))) ++ awaited decodeAudioData (waiting (call c r)) =
      reports (log (world r)) ++ awaited decodeAudioData (waiting r) /\
    map snd (scheduled (log (world (call c r))))
      ++ awaited decodeAudioData (waiting (call c r)) =
      map snd (scheduled (log (world r))) ++ awaited decodeAudioData (waiting r) /\
    receiving (world (call c r))).
  { intros A c [Hq Hr]. unfold call, exec. cbn [world waiting].
    destruct (quiet_audio _ _ (Hq (world r))) as [-> ->]. auto. }
  assert (Hsame :
    reports (log (world r)) ++ awaited decodeAudioData (waiting r) =
      reports (log (world r)) ++ awaited decodeAudioData (waiting r) /\
    map snd (scheduled (log (world r))) ++ awaited decodeAudioData (waiting r) =
      map snd (scheduled (log (world r))) ++ awaited decodeAudioData (waiting r) /\
    receiving (world r)) by auto.
  destruct a as [env|outcome| |m|i| | |inputData|source| |dt];
    cbn [step arrivals flat_map]; rewrite ?app_nil_r.
  - apply Hby, connect_setup_bystander.
  - destruct (handshaking (world r));
      [apply Hby, connect_settle_bystander | exact Hsame].
  - destruct (registered (world r)); [apply Hby, handleOpen_bystander | exact Hsame].
  - destruct Hrec as [Hreg Hctx]. rewrite Hreg.
    destruct (begin_order m (world r) (conj Hreg Hctx)) as (H1 & H2 & H3 & H4).
    destruct (handleMessage_begin decode m (world r)) as [[[|encoded]|e] w'];
      cbn [fst snd world waiting] in *;
      rewrite ?H1, ?H2, ?H4, ?awaited_app, ?app_nil_r, <- ?H4, ?app_assoc; auto.
  - destruct i as [|i]; [|discriminate].
    destruct (waiting r) as [|[m encoded] rest] eqn:Hw; cbn [nth_error].
    + rewrite Hw. exact Hsame.
    + destruct (resume_order m encoded (world r) Hrec) as (H1 & H2 & H3).
      cbn [world waiting without firstn skipn app]. unfold exec.
      rewrite H1, H2, <- !app_assoc.
      change ((m, encoded) :: rest) with ([(m, encoded)] ++ rest).
      rewrite awaited_app. auto.
  - destruct (registered (world r)); [apply Hby, onerror_bystander | exact Hsame].
  - destruct (registered (world r)); [apply Hby, onclose_bystander | exact Hsame].
  - apply Hby, onaudioprocess_bystander.
  - apply Hby, sourceEnded_bystander.
  - apply Hby, disconnect_bystander.
  - apply Hby, advanceClock_bystander.
Qed.

Lemma arrivals_cons (a : Action) (actions : list Action) :
  arrivals decode decodeAudioData (a :: actions) =
  arrivals decode decodeAudioData [a] ++ arrivals decode decodeAudioData actions.
Proof. unfold arrivals. cbn [flat_map]. now rewrite app_nil_r. Qed.

(** C9, as the code has it.  The class has no queue of its own: a call of
    [handleMessage] reports and schedules when its own decode settles.  In
    a run of an open session in which decodes settle in the order in which
    they were awaited, the buffers handed to the observer, and the buffers
    scheduled, are the frames of the messages in the order of arrival:
    together with the frames still waiting at the end they make up what was
    there at the start followed by the arrivals. *)
Theorem in_order_when_decodes_settle_in_order (actions : list Action) (r : Running) :
  receiving (world r) ->
  inOrder actions = true ->
  let r' := run decode decodeAudioData createBlob platform actions r in
  reports (log (world r')) ++ awaited decodeAudioData (waiting r') =
    (reports (log (world r)) ++ awaited decodeAudioData (waiting r))
    ++ arrivals decode decodeAudioData actions /\
  map snd (scheduled (log (world r'))) ++ awaited decodeAudioData (waiting r') =
    (map snd (scheduled (log (world r))) ++ awaited decodeAudioData (waiting r))
    ++ arrivals decode decodeAudioData actions.
Proof.
  cbv zeta. revert r. induction actions as [|a actions IH]; intros r Hrec Hfifo.
  - cbn. now rewrite !app_nil_r.
  - assert (Ha : inOrder [a] = true /\ inOrder actions = true).
    { unfold inOrder in *. cbn [forallb] in *.
      apply andb_true_iff in Hfifo. destruct Hfifo as [H1 H2].
      rewrite H1. auto. }
    destruct Ha as [Ha Hrest].
    destruct (step_order a r Hrec Ha) as (H1 & H2 & H3).
    destruct (IH _ H3 Hrest) as [K1 K2].
    unfold run in *. cbn [fold_left].
    rewrite K1, K2, H1, H2, (arrivals_cons a actions), <- !app_assoc.
    auto.
Qed.

End Order.

(** C9, as stated, fails: nothing serializes the calls.  Two messages
    arrive on an open session, first one with the sample [1/2], then one
    with the sample [1/4]; the decode of the second settles first, and the
    second frame is reported and scheduled first. *)
Lemma later_message_overtakes :
  let first := Sample.reply [1 # 2] false in
  let second := Sample.reply [1 # 4] false in
  let r := Sample.run [Message first; Message second; Decoded 1; Decoded 0]
                      Sample.live in
  arrivals Sample.decode Codec.bufferOf [Message first; Message second] =
    brought Sample.decode Codec.bufferOf first
    ++ brought Sample.decode Codec.bufferOf second /\
  reports (log (world r)) =
    brought Sample.decode Codec.bufferOf second
    ++ brought Sample.decode Codec.bufferOf first /\
  map snd (scheduled (log (world r))) =
    brought Sample.decode Codec.bufferOf second
    ++ brought Sample.decode Codec.bufferOf first /\
  brought Sample.decode Codec.bufferOf first <>
    brought Sample.decode Codec.bufferOf second /\
  waiting r = [].
Proof.
  cbv zeta. repeat split; try reflexivity. vm_compute. discriminate.
Qed.

(** ** The codec round trip *)

Module CodecFacts.

Import Codec.

(** *** The envelope *)

Lemma digit_value (v : Z) :
  (0 <= v < 64)%Z -> value (digit v) = Some v /\ Ascii.eqb (digit v) pad = false.
Proof.
  intros Hv.
  assert (Hall : forallb
            (fun k => match value (digit (Z.of_nat k)) with
                      | Some u => (u =? Z.of_nat k)%Z
                                  && negb (Ascii.eqb (digit (Z.of_nat k)) pad)
                      | None => false
                      end) (seq 0 64) = true) by (vm_compute; reflexivity).
  rewrite forallb_forall in Hall.
  specialize (Hall (Z.to_nat v)).
  rewrite Z2Nat.id in Hall by lia.
  assert (Hin : In (Z.to_nat v) (seq 0 64)) by (apply in_seq; lia).
  specialize (Hall Hin).
  destruct (value (digit v)) as [u|]; [|discriminate].
  apply andb_true_iff in Hall. destruct Hall as [Hu Hp].
  apply Z.eqb_eq in Hu. apply negb_true_iff in Hp. subst u. auto.
Qed.

Lemma list_ind3 (A : Type) (P : list A -> Prop) :
  P [] -> (forall a, P [a]) -> (forall a b, P [a; b]) ->
  (forall a b c l, P l -> P (a :: b :: c :: l)) ->
  forall l, P l.
Proof.
  intros H0 H1 H2 H3. fix IH 1.
  intros [|a [|b [|c l]]]; [exact H0 | apply H1 | apply H2 | apply H3, IH].
Qed.

(** Unwrapping what was wrapped gives the bytes back. *)
Lemma unwrap_wrap (bs : list byte) :
  Forall isByte bs -> unwrap (wrap bs) = Some bs.
Proof.
  induction bs as [|a|a b|a b c l IH] using list_ind3; intros Hall.
  - reflexivity.
  - inversion Hall as [|? ? Ha _]; subst. unfold isByte in Ha.
    cbn [wrap unwrap].
    destruct (digit_value (a / 4)) as [-> _];
      [split; [apply Z.div_pos | apply Z.div_lt_upper_bound]; lia|].
    destruct (digit_value (a mod 4 * 16)) as [-> _];
      [pose proof (Z.mod_pos_bound a 4); lia|].
    cbn. do 2 f_equal.
    pose proof (Z.div_mod a 4). pose proof (Z.mod_pos_bound a 4).
    rewrite Z.div_mul by lia. lia.
  - inversion Hall as [|? ? Ha Hb']; subst. inversion Hb' as [|? ? Hb _]; subst.
    unfold isByte in Ha, Hb.
    cbn [wrap unwrap].
    destruct (digit_value (a / 4)) as [-> _];
      [split; [apply Z.div_pos | apply Z.div_lt_upper_bound]; lia|].
    destruct (digit_value (a mod 4 * 16 + b / 16)) as [-> _];
      [pose proof (Z.mod_pos_bound a 4);
       assert (0 <= b / 16 < 16)%Z
         by (split; [apply Z.div_pos | apply Z.div_lt_upper_bound]; lia); lia|].
    destruct (digit_value (b mod 16 * 4)) as [-> ->];
      [pose proof (Z.mod_pos_bound b 16); lia|].
    cbn. f_equal. f_equal; [|f_equal].
    + Z.div_mod_to_equations. lia.
    + Z.div_mod_to_equations. lia.
  - inversion Hall as [|? ? Ha Hb']; subst. inversion Hb' as [|? ? Hb Hc']; subst.
    inversion Hc' as [|? ? Hc Hl]; subst.
    unfold isByte in Ha, Hb, Hc.
    cbn [wrap unwrap].
    destruct (digit_value (a / 4)) as [-> _];
      [split; [apply Z.div_pos | apply Z.div_lt_upper_bound]; lia|].
    destruct (digit_value (a mod 4 * 16 + b / 16)) as [-> _];
      [pose proof (Z.mod_pos_bound a 4);
       assert (0 <= b / 16 < 16)%Z
         by (split; [apply Z.div_pos | apply Z.div_lt_upper_bound]; lia); lia|].
    destruct (digit_value (b mod 16 * 4 + c / 64)) as [-> ->];
      [pose proof (Z.mod_pos_bound b 16);
       assert (0 <= c / 64 < 4)%Z
         by (split; [apply Z.div_pos | apply Z.div_lt_upper_bound]; lia); lia|].
    destruct (digit_value (c mod 64)) as [-> ->];
      [pose proof (Z.mod_pos_bound c 64); lia|].
    rewrite (IH Hl). f_equal. f_equal; [|f_equal; [|f_equal]].
    + Z.div_mod_to_equations. lia.
    + Z.div_mod_to_equations. lia.
    + Z.div_mod_to_equations. lia.
Qed.

(** *** Little-endian pairs *)

Lemma int16LE_bytes (v : Z) : Forall isByte (int16LE v).
Proof.
  unfold int16LE, isByte. repeat constructor;
    apply Z.mod_pos_bound; lia.
Qed.

Lemma pack_bytes (vs : list Z) : Forall isByte (pack vs).
Proof.
  induction vs as [|v vs IH]; [constructor|].
  unfold pack. cbn [flat_map]. apply Forall_app. split;
    [apply int16LE_bytes | exact IH].
Qed.

Lemma fromInt16LE_int16LE (v : Z) :
  (-32768 <= v < 32768)%Z ->
  fromInt16LE (v mod 256)%Z ((v / 256) mod 256)%Z = v.
Proof.
  intros Hv. unfold fromInt16LE. cbv zeta.
  destruct (Z.ltb_spec (v mod 256 + 256 * ((v / 256) mod 256))%Z 32768%Z);
    Z.div_mod_to_equations; lia.
Qed.

Lemma unpack_pack (vs : list Z) :
  Forall (fun v => -32768 <= v < 32768)%Z vs -> unpack (pack vs) = vs.
Proof.
  induction vs as [|v vs IH]; intros Hall; [reflexivity|].
  inversion Hall as [|? ? Hv Hrest]; subst.
  unfold pack. cbn [flat_map int16LE app unpack].
  rewrite fromInt16LE_int16LE by exact Hv.
  f_equal. apply IH, Hrest.
Qed.

(** *** Quantization *)

Lemma clamp_inside (s : Q) : (-1 <= s <= 1)%Q -> (clamp s == s)%Q.
Proof.
  intros [Hlo Hhi]. unfold clamp.
  rewrite (Q.min_r 1 s) by exact Hhi. apply Q.max_r. exact Hlo.
Qed.

Lemma round_near (x : Q) :
  (inject_Z (round x) <= x + (1 # 2))%Q /\ (x - (1 # 2) < inject_Z (round x))%Q.
Proof.
  unfold round. split.
  - apply Qfloor_le.
  - pose proof (Qlt_floor (x + (1 # 2))) as H.
    rewrite inject_Z_plus in H. change (inject_Z 1) with 1%Q in H. lra.
Qed.

Lemma quantize_int16 (s : Q) :
  (-1 <= s <= 1)%Q -> (-32768 <= quantize s < 32768)%Z.
Proof.
  intros Hs. pose proof (clamp_inside s Hs) as Hc.
  unfold quantize, round.
  assert (Hlo : (Qfloor (-32767 + (1 # 2)) <= Qfloor (clamp s * 32767 + (1 # 2)))%Z)
    by (apply Qfloor_resp_le; lra).
  assert (Hhi : (Qfloor (clamp s * 32767 + (1 # 2)) <= Qfloor (32767 + (1 # 2)))%Z)
    by (apply Qfloor_resp_le; lra).
  change (Qfloor (-32767 + (1 # 2))) with (-32767)%Z in Hlo.
  change (Qfloor (32767 + (1 # 2))) with 32767%Z in Hhi.
  lia.
Qed.

(** One sample through the round trip: off by at most one and a half
    steps of [1/32768]. *)
Lemma sample_round_trip (s : Q) :
  (-1 <= s <= 1)%Q -> within (3 # 65536) s (normalize (quantize s)).
Proof.
  intros Hs. pose proof (clamp_inside s Hs) as Hc.
  destruct (round_near (clamp s * 32767)) as [Hup Hdown].
  unfold within, normalize. fold (quantize s) in Hup, Hdown.
  rewrite (Qmake_Qdiv (quantize s) 32768).
  apply Qabs_Qle_condition.
  change (inject_Z (Z.pos 32768)) with 32768%Q.
  unfold Qdiv. change (/ 32768)%Q with (1 # 32768)%Q.
  generalize dependent (inject_Z (quantize s)). intros q Hup Hdown.
  generalize dependent (clamp s). intros c Hc Hup Hdown.
  split; lra.
Qed.

(** C7, as the definitions have it.  For a non-empty frame of samples in
    [[-1,1]], [encode] gives a wire frame, [decode] of it gives as many
    samples back, and each differs from the one sent by at most
    [3/65536], one and a half steps of [1/32768]: half a step from the
    rounding and up to a whole step from scaling by [32767] one way and
    by [32768] the other. *)
Theorem round_trip_within_quantization (rawFrame : list Q) :
  rawFrame <> [] ->
  Forall (fun s => -1 <= s <= 1)%Q rawFrame ->
  exists wireFrame rawSamples,
    encode rawFrame = Some wireFrame /\
    decode wireFrame = Some rawSamples /\
    Forall2 (within (3 # 65536)) rawFrame rawSamples.
Proof.
  intros Hne Hall.
  exists (string_of_list_ascii (wrap (pack (map quantize rawFrame)))).
  exists (map normalize (map quantize rawFrame)).
  split; [destruct rawFrame; [congruence | reflexivity]|].
  split.
  - unfold decode.
    rewrite list_ascii_of_string_of_list_ascii, unwrap_wrap by apply pack_bytes.
    rewrite unpack_pack; [reflexivity|].
    apply Forall_map. revert Hall. apply Forall_impl.
    intros s Hs. apply quantize_int16, Hs.
  - clear Hne. induction Hall as [|s l Hs Hl IH]; cbn [map]; constructor.
    + apply sample_round_trip, Hs.
    + exact IH.
Qed.

(** C7, as stated, fails: the sample [131069/131072] (a 32-bit float) is
    quantized to [32766] and comes back as [32766/32768], which is
    [5/131072] away: one and a quarter steps of [1/32768]. *)
Lemma round_trip_exceeds_one_step :
  let s := (131069 # 131072)%Q in
  (-1 <= s <= 1)%Q /\
  encode [s] = Some "/n8="%string /\
  decode "/n8="%string = Some [32766 # 32768]%Q /\
  ~ within (1 # 32768) s (32766 # 32768).
Proof.
  cbv zeta. split; [split; unfold Qle; cbn; lia|].
  split; [reflexivity|]. split; [reflexivity|].
  unfold within. intros H. apply Qabs_Qle_condition in H.
  destruct H as [H _]. revert H. unfold Qle. cbn. lia.
Qed.

End CodecFacts.

(** ** The theorems at work on a sample session *)

(** A frame is pending; a message with a blank payload and the
    interruption flag arrives; the frame stays pending. *)
Lemma interruption_lost_witness :
  let w := world (Sample.run [Message (Sample.reply [1 # 2] false); Decoded 0]
                             Sample.live) in
  let m := Sample.blank true in
  outputAudioContext (this w) <> None /\
  truthy (base64Audio m) = Some " "%string /\
  Sample.decode " "%string = Normal [] /\
  interrupted m = true /\
  sources (this w) = [0%nat] /\
  handleMessage Sample.decode Codec.bufferOf 0 m w = (Normal tt, w).
Proof.
  cbv zeta.
  assert (H1 : outputAudioContext
                 (this (world (Sample.run
                                 [Message (Sample.reply [1 # 2] false); Decoded 0]
                                 Sample.live))) <> None)
    by (vm_compute; discriminate).
  assert (H2 : Sample.decode " "%string = Normal []) by (vm_compute; reflexivity).
  split; [exact H1|].
  split; [reflexivity|].
  split; [exact H2|].
  split; [reflexivity|].
  split; [vm_compute; reflexivity|].
  exact (interruption_lost_with_empty_payload Sample.decode Codec.bufferOf 0
           (Sample.blank true) _ " "%string H1 eq_refl H2 eq_refl).
Defined.

(** Two calls of [disconnect] on an open session. *)
Lemma disconnect_witness :
  let w := world Sample.live in
  dependable Sample.steady /\
  times 2 (disconnect Sample.steady) w =
    (Normal tt, exec (times 2 (disconnect Sample.steady)) w) /\
  log (exec (times 2 (disconnect Sample.steady)) w) =
    log w ++ concat (repeat (teardown (this w)) 2).
Proof.
  cbv zeta.
  assert (H : dependable Sample.steady) by (repeat split).
  split; [exact H|].
  exact (disconnect_releases_what_is_held Sample.steady (world Sample.live) 2 H).
Defined.

(** A frame of four samples, among them both ends of the range. *)
Lemma round_trip_witness :
  let rawFrame := [1 # 2; -1; 1; 131069 # 131072]%Q in
  rawFrame <> [] /\
  Forall (fun s => -1 <= s <= 1)%Q rawFrame /\
  exists wireFrame rawSamples,
    Codec.encode rawFrame = Some wireFrame /\
    Codec.decode wireFrame = Some rawSamples /\
    Forall2 (Codec.within (3 # 65536)) rawFrame rawSamples.
Proof.
  cbv zeta.
  assert (H1 : [1 # 2; -1; 1; 131069 # 131072]%Q <> []) by discriminate.
  assert (H2 : Forall (fun s => -1 <= s <= 1)%Q [1 # 2; -1; 1; 131069 # 131072]%Q).
  { repeat constructor; unfold Qle; cbn; lia. }
  split; [exact H1|]. split; [exact H2|].
  exact (CodecFacts.round_trip_within_quantization _ H1 H2).
Defined.

(** A message with a blank payload on an open session. *)
Lemma empty_payload_witness :
  let w := world Sample.live in
  let m := Sample.blank false in
  base64Audio m = Some " "%string /\
  Sample.decode " "%string = Normal [] /\
  exists new,
    handleMessage Sample.decode Codec.bufferOf 0 m w =
      (Normal tt, exec (handleMessage Sample.decode Codec.bufferOf 0 m) w) /\
    log (exec (handleMessage Sample.decode Codec.bufferOf 0 m) w) = log w ++ new /\
    filter isAudio new = [] /\
    filter isComplaint new = [] /\
    (interrupted m = false ->
     exec (handleMessage Sample.decode Codec.bufferOf 0 m) w = w) /\
    (nextStartTime (this (exec (handleMessage Sample.decode Codec.bufferOf 0 m) w)) =
       nextStartTime (this w) \/
     interrupted m = true /\
     nextStartTime (this (exec (handleMessage Sample.decode Codec.bufferOf 0 m) w)) =
       outputClock w).
Proof.
  cbv zeta.
  assert (H : Sample.decode " "%string = Normal []) by (vm_compute; reflexivity).
  split; [reflexivity|]. split; [exact H|].
  exact (empty_payload_skipped Sample.decode Codec.bufferOf 0 (Sample.blank false)
           (world Sample.live) " "%string eq_refl H).
Defined.

(** Two messages whose decodes settle in the order of arrival. *)
Lemma in_order_witness :
  let first := Sample.reply [1 # 2] false in
  let second := Sample.reply [1 # 4] false in
  let actions := [Message first; Message second; Decoded 0; Decoded 0] in
  let r := Sample.live in
  let r' := Sample.run actions r in
  receiving (world r) /\
  inOrder actions = true /\
  reports (log (world r')) ++ awaited Codec.bufferOf (waiting r') =
    (reports (log (world r)) ++ awaited Codec.bufferOf (waiting r))
    ++ arrivals Sample.decode Codec.bufferOf actions /\
  map snd (scheduled (log (world r'))) ++ awaited Codec.bufferOf (waiting r') =
    (map snd (scheduled (log (world r))) ++ awaited Codec.bufferOf (waiting r))
    ++ arrivals Sample.decode Codec.bufferOf actions.
Proof.
  cbv zeta.
  assert (H : receiving (world Sample.live))
    by (split; [reflexivity | vm_compute; discriminate]).
  split; [exact H|]. split; [reflexivity|].
  exact (in_order_when_decodes_settle_in_order Sample.decode Codec.bufferOf
           Sample.createBlob Sample.steady
           [Message (Sample.reply [1 # 2] false); Message (Sample.reply [1 # 4] false);
            Decoded 0; Decoded 0]
           Sample.live H eq_refl).
Defined.


(** ** Further properties of the service *)

Section MessageEdges.

Variable decode : string -> Completion (list byte).
Variable decodeAudioData : list byte -> Completion AudioBuffer.
Variable createBlob : list Q -> string.
Variable platform : Platform.

(** X1. A payload whose bytes do not decode to a buffer is absorbed by the
    [catch] of lines 196-198: [handleMessage] completes, writes one line to
    the console's error channel, reports and starts nothing, and keeps the
    pending set; the pointer has already been moved up to the clock by
    line 178. *)
Theorem decode_failure_absorbed (dt : Q) (m : LiveServerMessage) (w : World)
    (b : string) (encoded : list byte) (e : JsError) :
  outputAudioContext (this w) <> None ->
  truthy (base64Audio m) = Some b ->
  decode b = Normal encoded ->
  encoded <> [] ->
  decodeAudioData encoded = Throw e ->
  interrupted m = false ->
  let w' := exec (handleMessage decode decodeAudioData dt m) w in
  handleMessage decode decodeAudioData dt m w = (Normal tt, w') /\
  log w' = log w ++ [ConsoleError "Error decoding audio"] /\
  sources (this w') = sources (this w) /\
  created w' = created w /\
  nextStartTime (this w') = Qmax (nextStartTime (this w)) (outputClock w).
Proof.
  intros Hctx Hb Hdec Hne Hfail Hint. cbv zeta.
  destruct (outputAudioContext (this w)) as [ctx|] eqn:Hc; [|congruence].
  assert (Hnil : isNil encoded = false) by (destruct encoded; [congruence | reflexivity]).
  unfold exec, handleMessage, handleMessage_begin, handleMessage_resume, advanceClock,
    outputClock.
  js. rewrite Hb, Hc, Hdec, Hnil. cbn. rewrite Hfail, Hint. cbn. auto.
Qed.

(** X2. [decode] is called at line 175, outside the [try]: if it throws,
    [handleMessage] ends with that error and has changed nothing, whether or
    not the message carries the interruption flag. *)
Theorem decode_throw_escapes (dt : Q) (m : LiveServerMessage) (w : World)
    (b : string) (e : JsError) :
  outputAudioContext (this w) <> None ->
  truthy (base64Audio m) = Some b ->
  decode b = Throw e ->
  handleMessage decode decodeAudioData dt m w = (Throw e, w).
Proof.
  intros Hctx Hb Hdec.
  destruct (outputAudioContext (this w)) as [ctx|] eqn:Hc; [|congruence].
  unfold handleMessage, handleMessage_begin. js. rewrite Hb, Hc, Hdec. reflexivity.
Qed.

(** X4. The ['ended'] listener of lines 189-191 takes a node out of the
    pending set for good: a flush that follows stops every other pending
    node and not this one. *)
Theorem ended_node_not_stopped (n : SourceNode) (w : World) :
  let w' := exec (bind (sourceEnded n) (fun _ => stopAudioPlayback)) w in
  log w' = log w ++ map SourceStop (set_delete n (sources (this w))) /\
  ~ In n (set_delete n (sources (this w))) /\
  forall k, In k (sources (this w)) -> k <> n ->
            In k (set_delete n (sources (this w))).
Proof.
  cbv zeta. unfold exec, bind, sourceEnded, update.
  rewrite stopAudioPlayback_total. cbn. split; [reflexivity|].
  unfold set_delete. split.
  - intros H. apply filter_In in H. destruct H as [_ H].
    rewrite Nat.eqb_refl in H. discriminate.
  - intros k Hk Hne. apply filter_In. split; [exact Hk|].
    apply negb_true_iff, Nat.eqb_neq. congruence.
Qed.

(** X5. [disconnect] does not touch the playback scheduler: on any
    platform it stops no source node, and it leaves the pending set, the
    pointer, the microphone stream and the session promise as they were. *)
Theorem disconnect_leaves_playback (w : World) :
  let w' := exec (disconnect platform) w in
  stopped (log w') = stopped (log w) /\
  sources (this w') = sources (this w) /\
  nextStartTime (this w') = nextStartTime (this w) /\
  stream (this w') = stream (this w) /\
  sessionPromise (this w') = sessionPromise (this w).
Proof.
  cbv zeta. unfold exec. split.
  - assert (Hq : quiet (fun e => match e with SourceStop _ => true | _ => false end)
                   w (snd (disconnect platform w))).
    { apply disconnect_quiet; reflexivity. }
    unfold quiet in Hq.
    assert (Hs : forall l, stopped l =
              stopped (filter (fun e => match e with SourceStop _ => true | _ => false end) l)).
    { induction l as [|e l IH]; [reflexivity|].
      destruct e; cbn; rewrite <- ?IH; reflexivity. }
    rewrite (Hs (log (snd (disconnect platform w)))), Hq, <- Hs. reflexivity.
  - destruct (disconnect_this platform w) as (node & ci & co & Hthis & _).
    rewrite Hthis. cbn. repeat split.
Qed.

(** X6. The capture callback of lines 154-165 never throws, whatever the
    session promise holds and whatever the send does; on an instance whose
    capture is installed and whose session is open it logs the send of the
    window, followed by a console error when the send throws, and changes
    nothing else. *)
Theorem onaudioprocess_never_throws (inputData : list Q) (w : World) :
  let w' := exec (onaudioprocess createBlob platform inputData) w in
  onaudioprocess createBlob platform inputData w = (Normal tt, w') /\
  this w' = this w /\
  (forall node session,
     processor (this w) = Some node -> forwarding node = true ->
     sessionPromise (this w) = Some (Fulfilled session) ->
     log w' = log w ++ sendLog platform (createBlob inputData) /\
     reactions w' = reactions w).
Proof.
  cbv zeta. unfold exec, onaudioprocess, runReaction, sendLog. js.
  destruct (processor (this w)) as [node|] eqn:Hp;
    [|cbn; repeat split; intros; congruence].
  destruct (forwarding node) eqn:Hf;
    [|cbn; repeat split; intros; congruence].
  destruct (sessionPromise (this w)) as [[|session|e]|] eqn:Hs;
    try (cbn; repeat split; intros; congruence).
  destruct (sendRealtimeInput platform (createBlob inputData)) as [[]|e]; cbn;
    rewrite <- ?app_assoc; repeat split; auto.
Qed.

End MessageEdges.

(** ** Further properties of set-up, capture and teardown *)

Section Lifecycle.

Variable decode : string -> Completion (list byte).
Variable decodeAudioData : list byte -> Completion AudioBuffer.
Variable createBlob : list Q -> string.
Variable platform : Platform.

(** One call of [disconnect] on a dependable platform, field by field. *)
Lemma disconnect_shut (w : World) :
  dependable platform ->
  disconnect platform w =
  (Normal tt,
   {| this := shut (this w); created := created w;
      reactions := reactions w ++
                   match sessionPromise (this w) with
                   | Some Pending => [CloseSession]
                   | _ => []
                   end;
      log := log w ++ teardown (this w) |}).
Proof.
  intros (Htrack & Hproc & Hctx).
  destruct w as [[promise ci co pointer pending media node] made waiting history].
  unfold disconnect, teardown, shut. js.
  destruct media as [media|]; cbn;
    [rewrite forEach_trackStop by exact Htrack|]; cbn;
    (destruct node as [node|]; cbn; [rewrite Hproc|]); cbn;
    (destruct ci as [ci|]; cbn; [rewrite (Hctx Input)|]); cbn;
    (destruct co as [co|]; cbn; [rewrite (Hctx Output)|]); cbn;
    (destruct promise as [[|session|e]|]; cbn;
     [|rewrite closeIfPossible_spec| |]);
    cbn; rewrite <- ?app_assoc, ?app_nil_r; cbn; reflexivity.
Qed.

Lemma forEach_send (session : Session) (ds : list string) (w : World) :
  forEach (map SendInput ds) (runReaction platform session) w =
  (Normal tt,
   {| this := this w; created := created w; reactions := reactions w;
      log := log w ++ flat_map (sendLog platform) ds |}).
Proof.
  revert w. induction ds as [|d ds IH]; intros w; cbn [map forEach flat_map].
  - unfold ret. rewrite app_nil_r. destruct w; reflexivity.
  - unfold bind, runReaction at 1, sendLog at 1. js.
    destruct (sendRealtimeInput platform d) as [[]|e]; rewrite IH; cbn;
      rewrite <- ?app_assoc; reflexivity.
Qed.

(** Windows captured while the handshake is awaited only join the
    reactions on the session promise. *)
Lemma capture_while_pending (ds : list (list Q)) (r : Running)
    (node : ScriptProcessorNode) :
  handshaking (world r) = true ->
  processor (this (world r)) = Some node ->
  forwarding node = true ->
  run decode decodeAudioData createBlob platform (map AudioProcess ds) r =
  {| world := {| this := this (world r); created := created (world r);
                 reactions := reactions (world r)
                              ++ map SendInput (map createBlob ds);
                 log := log (world r) |};
     waiting := waiting r |}.
Proof.
  revert r. induction ds as [|d ds IH]; intros r Hh Hp Hf.
  - cbn. rewrite app_nil_r. destruct r as [[? ? ? ?] ?]; reflexivity.
  - unfold run. cbn [map fold_left].
    fold (run decode decodeAudioData createBlob platform (map AudioProcess ds)
              (step decode decodeAudioData createBlob platform (AudioProcess d) r)).
    assert (E : step decode decodeAudioData createBlob platform (AudioProcess d) r =
                {| world := {| this := this (world r); created := created (world r);
                               reactions := reactions (world r) ++ [SendInput (createBlob d)];
                               log := log (world r) |};
                   waiting := waiting r |}).
    { unfold handshaking in Hh. cbn [step]. unfold call, exec, onaudioprocess. js.
      rewrite Hp, Hf.
      destruct (sessionPromise (this (world r))) as [[| |]|]; try discriminate.
      reflexivity. }
    rewrite E, IH; cbn; auto.
    rewrite <- app_assoc. reflexivity.
Qed.

(** X7. Windows of samples captured while the handshake is still awaited
    are not lost and not sent early: nothing is logged while the promise is
    pending; when it is fulfilled each window is sent, in the order of
    capture (a send that throws leaves its console error and does not stop
    the next); when it is rejected none is ever sent. *)
Theorem pending_windows_sent_in_order (ds : list (list Q)) (r : Running)
    (node : ScriptProcessorNode) (session : Session) (e : JsError) :
  handshaking (world r) = true ->
  processor (this (world r)) = Some node ->
  forwarding node = true ->
  reactions (world r) = [] ->
  let r1 := run decode decodeAudioData createBlob platform (map AudioProcess ds) r in
  log (world r1) = log (world r) /\
  log (world (step decode decodeAudioData createBlob platform
                   (Handshake (Normal session)) r1)) =
    log (world r) ++ flat_map (sendLog platform) (map createBlob ds) /\
  filter isCapture
    (log (world (step decode decodeAudioData createBlob platform
                      (Handshake (Throw e)) r1))) =
    filter isCapture (log (world r)).
Proof.
  intros Hh Hp Hf Hr. cbv zeta.
  rewrite (capture_while_pending ds r node Hh Hp Hf), Hr. cbn [app world log].
  split; [reflexivity|].
  cbn [step world].
  change (handshaking {| this := this (world r); created := created (world r);
                         reactions := map SendInput (map createBlob ds);
                         log := log (world r) |})
    with (handshaking (world r)).
  rewrite Hh. split.
  - unfold call, exec, connect_settle. js. cbn [world reactions this created log].
    rewrite forEach_send. reflexivity.
  - unfold call, exec. cbn [world].
    match goal with |- context [connect_settle platform (Throw e) ?w1] =>
      destruct (connect_settle_rejected platform e w1) as (w' & -> & _ & H2 & _)
    end.
    exact H2.
Qed.

(** X8. A [disconnect] called while the handshake is still awaited (the
    caller gives up the connect) releases the devices at once and defers
    the close of the session: when the handshake then succeeds, the session
    is closed, once, if it can be closed. *)
Theorem disconnect_while_connecting (w : World) (session : Session) :
  dependable platform ->
  handshaking w = true ->
  reactions w = [] ->
  let w1 := exec (disconnect platform) w in
  let w2 := exec (connect_settle platform (Normal session)) w1 in
  log w1 = log w ++ teardown (this w) /\
  filter (fun e => match e with SessionClose => true | _ => false end) (teardown (this w)) = [] /\
  log w2 = log w1 ++ (if hasClose session then [SessionClose] else []) /\
  reactions w2 = [].
Proof.
  intros Hdep Hh Hr. cbv zeta. unfold exec.
  rewrite (disconnect_shut w Hdep). cbn [snd log].
  unfold handshaking in Hh.
  destruct (sessionPromise (this w)) as [[| |]|] eqn:Hs; try discriminate.
  rewrite Hr. cbn [app].
  split; [reflexivity|]. split.
  - unfold teardown. rewrite Hs, !filter_app.
    destruct (stream (this w)) as [media|], (processor (this w)),
      (inputAudioContext (this w)), (outputAudioContext (this w)); cbn;
      rewrite ?app_nil_r; try reflexivity;
      induction (getTracks media); cbn; auto.
  - unfold connect_settle. js. cbn [reactions this created log forEach].
    unfold bind, runReaction. rewrite closeIfPossible_spec. cbn. auto.
Qed.

(** X9. A connect attempt on which nothing fails: [connect] completes
    without a call of [onError] or [onClose], having written the resumes
    that were needed, then [getUserMedia] and [client.live.connect], to the
    log; afterwards the stream and the fulfilled session promise are held,
    and each context is a new one at clock 0 that is running if it started
    suspended. *)
Theorem connect_succeeds (env : Devices) (handshake : Completion Session) (w : World) :
  setupFailure env handshake = None ->
  reactions w = [] ->
  let w' := exec (connect platform env handshake) w in
  exists media session,
    getUserMedia env = Normal media /\
    handshake = Normal session /\
    connect platform env handshake w = (Normal tt, w') /\
    log w' = log w ++ setupLog env /\
    stream (this w') = Some media /\
    sessionPromise (this w') = Some (Fulfilled session) /\
    inputAudioContext (this w') =
      Some {| contextRate := 16000; state := afterResume (inputState env);
              currentTime := 0 |} /\
    outputAudioContext (this w') =
      Some {| contextRate := 24000; state := afterResume (outputState env);
              currentTime := 0 |} /\
    processor (this w') = processor (this w).
Proof.
  intros Hok Hr. cbv zeta. unfold setupFailure, deviceFailure in Hok.
  unfold exec, connect, connect_setup, connect_settle, setupLog, afterResume, newContext.
  js.
  destruct (inputState env), (resumeInput env) as [[]|e1],
    (outputState env), (resumeOutput env) as [[]|e2],
    (getUserMedia env) as [media|e3], handshake as [session|e4];
    try discriminate; cbn; rewrite Hr; cbn;
    exists media, session; rewrite <- ?app_assoc; cbn; repeat split; reflexivity.
Qed.

#[local] Arguments connect_catch : simpl never.

(** X10. A connect attempt that fails, on a dependable platform, gives
    back what it had taken: both contexts it created end closed, every
    track of a stream the instance holds has been stopped, and no session
    is held open. *)
Theorem failed_connect_releases (env : Devices) (handshake : Completion Session)
    (w : World) (err : JsError) :
  dependable platform ->
  setupFailure env handshake = Some err ->
  let w' := exec (connect platform env handshake) w in
  (exists ci co,
     inputAudioContext (this w') = Some ci /\ state ci = closed /\
     outputAudioContext (this w') = Some co /\ state co = closed) /\
  (forall media t, stream (this w') = Some media -> In t (getTracks media) ->
                   In (TrackStop t) (log w')) /\
  (forall session, sessionPromise (this w') = Some (Fulfilled session) ->
                   sessionPromise (this w) = Some (Fulfilled session)).
Proof.
  intros Hdep Hfail. cbv zeta. unfold setupFailure, deviceFailure in Hfail.
  assert (Hcatch : forall e w1,
    connect_catch platform e w1 =
    (Normal tt,
     {| this := shut (this w1); created := created w1;
        reactions := reactions w1 ++
                     match sessionPromise (this w1) with
                     | Some Pending => [CloseSession]
                     | _ => []
                     end;
        log := ((log w1 ++ [ConsoleError "Connection Failed"])
                ++ [OnError (describe e)]) ++ teardown (this w1) |})).
  { intros e w1. unfold connect_catch. js. rewrite (disconnect_shut _ Hdep). reflexivity. }
  unfold exec, connect, connect_setup, connect_settle, newContext. js.
  destruct (inputState env), (resumeInput env) as [[]|e1],
    (outputState env), (resumeOutput env) as [[]|e2],
    (getUserMedia env) as [media|e3], handshake as [session|e4];
    try discriminate; cbn; rewrite !Hcatch; cbn;
    (split; [eexists _, _; repeat split; reflexivity|]);
    (split; [intros m t Hs Ht; pose proof (in_map TrackStop _ _ Ht) as Hin;
             try (injection Hs as <-); unfold teardown; cbn; rewrite ?Hs;
             rewrite ?in_app_iff; cbn; rewrite ?in_app_iff; tauto
            | intros s Hs; solve [discriminate | exact Hs]]).
Qed.

End Lifecycle.

(** ** Invariants of the pending set and of the schedule *)

#[local] Instance aside_framing : Framing aside.
Proof.
  split; unfold aside.
  - intros w. repeat split. exists []. now rewrite app_nil_r.
  - intros w1 w2 w3 (S1 & P1 & C1 & n1 & L1 & F1) (S2 & P2 & C2 & n2 & L2 & F2).
    repeat split; try congruence.
    exists (n1 ++ n2). rewrite L2, L1, <- app_assoc, filter_app, F1, F2. auto.
Qed.

Lemma aside_emit (e : Effect) : isPlayback e = false -> respects aside (emit e).
Proof.
  intros He w. unfold aside, emit. cbn. repeat split.
  exists [e]. cbn. rewrite He. auto.
Qed.

Lemma aside_update (f : GeminiLiveService -> GeminiLiveService) :
  (forall s, sources (f s) = sources s /\ nextStartTime (f s) = nextStartTime s) ->
  respects aside (update f).
Proof.
  intros Hf w. unfold aside, update. cbn. destruct (Hf (this w)) as [-> ->].
  repeat split. exists []. now rewrite app_nil_r.
Qed.

Lemma aside_register (r : Reaction) : respects aside (register r).
Proof. intros w. unfold aside. cbn. repeat split. exists []. now rewrite app_nil_r. Qed.

Lemma aside_clearReactions : respects aside clearReactions.
Proof. intros w. unfold aside. cbn. repeat split. exists []. now rewrite app_nil_r. Qed.

#[local] Hint Resolve aside_register aside_clearReactions : frames.

#[local] Hint Extern 1 (respects aside (emit _)) =>
  apply aside_emit; reflexivity : frames.

#[local] Hint Extern 1 (respects aside (update _)) =>
  apply aside_update; intros ?; split; reflexivity : frames.

Section Bystanders.

Variable createBlob : list Q -> string.
Variable platform : Platform.

Lemma disconnect_aside : respects aside (disconnect platform).
Proof. unfold disconnect, closeIfPossible, stopTrack. respect; auto with frames. Qed.

Lemma connect_setup_aside (env : Devices) : respects aside (connect_setup platform env).
Proof.
  unfold connect_setup, connect_catch.
  respect; auto using disconnect_aside with frames.
Qed.

Lemma connect_settle_aside (outcome : Completion Session) :
  respects aside (connect_settle platform outcome).
Proof.
  unfold connect_settle, connect_catch, runReaction, closeIfPossible.
  respect; auto using disconnect_aside with frames.
Qed.

Lemma handleOpen_aside : respects aside handleOpen.
Proof. unfold handleOpen. respect; auto with frames. Qed.

Lemma onerror_aside : respects aside onerror.
Proof. unfold onerror. respect; auto with frames. Qed.

Lemma onclose_aside : respects aside onclose.
Proof. unfold onclose. respect; auto with frames. Qed.

Lemma onaudioprocess_aside (inputData : list Q) :
  respects aside (onaudioprocess createBlob platform inputData).
Proof.
  unfold onaudioprocess, runReaction, closeIfPossible. respect; auto with frames.
Qed.

Lemma advanceClock_aside (dt : Q) : respects aside (advanceClock dt).
Proof. unfold advanceClock. auto with frames. Qed.

End Bystanders.

(** *** What the two halves of [handleMessage] do to the scheduler *)

Section Shapes.

Variable decode : string -> Completion (list byte).
Variable decodeAudioData : list byte -> Completion AudioBuffer.

(** A flush, as a function of the world. *)
Lemma flush_fields (w : World) :
  let w' := snd (stopAudioPlayback w) in
  log w' = log w ++ map SourceStop (sources (this w)) /\
  sources (this w') = [] /\
  created w' = created w.
Proof.
  cbv zeta. rewrite stopAudioPlayback_total. cbn.
  destruct (outputAudioContext (this w)); auto.
Qed.

(** Up to the [await]: nothing but, at most, the pointer moving forward;
    or, for a message with the flag and no usable audio, a flush. *)
Lemma begin_shape (m : LiveServerMessage) (w : World) :
  let w' := snd (handleMessage_begin decode m w) in
  (log w' = log w /\ sources (this w') = sources (this w) /\
   created w' = created w /\
   (nextStartTime (this w) <= nextStartTime (this w'))%Q) \/
  (interrupted m = true /\ w' = snd (stopAudioPlayback w)).
Proof.
  cbv zeta. unfold handleMessage_begin. js.
  assert (Hflush :
    let w' := snd (let (c, w') := when (interrupted m) stopAudioPlayback w in
                   match c with
                   | Normal _ => (Normal Returned, w')
                   | Throw e => (@Throw Suspension e, w')
                   end) in
    (log w' = log w /\ sources (this w') = sources (this w) /\
     created w' = created w /\
     (nextStartTime (this w) <= nextStartTime (this w'))%Q) \/
    (interrupted m = true /\ w' = snd (stopAudioPlayback w))).
  { unfold when. destruct (interrupted m).
    - right. rewrite stopAudioPlayback_total. cbn. auto.
    - left. cbn. repeat split. apply Qle_refl. }
  destruct (truthy (base64Audio m)) as [b|]; [|exact Hflush].
  destruct (outputAudioContext (this w)) as [ctx|]; [|exact Hflush].
  left. destruct (decode b) as [encoded|e]; cbn;
    [|repeat split; apply Qle_refl].
  destruct (isNil encoded); cbn; repeat split;
    [apply Qle_refl | apply Q.le_max_l].
Qed.

(** After the [await]: the scheduling of the bytes, then a flush if the
    message carries the flag. *)
Lemma resume_shape (m : LiveServerMessage) (encoded : list byte) (w : World) :
  exists mid,
    snd (handleMessage_resume decodeAudioData m encoded w) =
      (if interrupted m then snd (stopAudioPlayback mid) else mid) /\
    ((log mid = log w ++ [ConsoleError "Error decoding audio"] /\
      sources (this mid) = sources (this w) /\
      created mid = created w /\
      nextStartTime (this mid) = nextStartTime (this w)) \/
     (exists buf,
        log mid = log w ++ [OnAudioData buf;
                            SourceStart (created w) (nextStartTime (this w)) buf] /\
        sources (this mid) = set_add (created w) (sources (this w)) /\
        created mid = S (created w) /\
        nextStartTime (this mid) = (nextStartTime (this w) + duration buf)%Q)).
Proof.
  unfold handleMessage_resume, createBufferSource, when. js.
  destruct (decodeAudioData encoded) as [buf|e]; cbn.
  - exists {| this := set_sources (set_add (created w) (sources (this w)))
                        (set_nextStartTime (nextStartTime (this w) + duration buf)
                                           (this w));
              created := S (created w); reactions := reactions w;
              log := (log w ++ [OnAudioData buf])
                     ++ [SourceStart (created w) (nextStartTime (this w)) buf] |}.
    split; [destruct (interrupted m); reflexivity|].
    right. exists buf. cbn. rewrite <- app_assoc. auto.
  - exists {| this := this w; created := created w; reactions := reactions w;
              log := log w ++ [ConsoleError "Error decoding audio"] |}.
    split; [destruct (interrupted m); reflexivity|].
    left. cbn. auto.
Qed.

End Shapes.

(** *** Source nodes are started once and stopped only after *)

Lemma started_app (l1 l2 : list Effect) : started (l1 ++ l2) = started l1 ++ started l2.
Proof.
  induction l1 as [|e l1 IH]; [reflexivity|].
  destruct e; cbn; rewrite ?IH; reflexivity.
Qed.

Lemma playback_free (new : list Effect) :
  filter isPlayback new = [] ->
  started new = [] /\ scheduled new = [] /\ forall n, ~ In (SourceStop n) new.
Proof.
  induction new as [|e new IH]; intros H; [cbn; auto|].
  destruct e; cbn in H; try discriminate;
    destruct (IH H) as (H1 & H2 & H3); cbn; repeat split; auto;
    intros n [Hn|Hn]; try discriminate; apply (H3 n Hn).
Qed.

Lemma stops_app (l new : list Effect) :
  stopsAfterStarts l ->
  (forall before n after, new = before ++ SourceStop n :: after ->
                          In n (started (l ++ before))) ->
  stopsAfterStarts (l ++ new).
Proof.
  intros Hl Hnew before n after E.
  apply app_eq_app in E. destruct E as (mid & [[E1 E2]|[E1 E2]]).
  - destruct mid as [|x mid].
    + cbn in E2. rewrite app_nil_r in E1. subst l.
      specialize (Hnew [] n after (eq_sym E2)). now rewrite app_nil_r in Hnew.
    + cbn in E2. injection E2 as E3 E4. subst x.
      apply (Hl before n mid). exact E1.
  - subst before. apply (Hnew mid n after). exact E2.
Qed.

Lemma stops_app_free (l new : list Effect) :
  stopsAfterStarts l -> (forall n, ~ In (SourceStop n) new) ->
  stopsAfterStarts (l ++ new).
Proof.
  intros Hl Hfree. apply stops_app; [exact Hl|].
  intros before n after E. exfalso. apply (Hfree n). rewrite E.
  apply in_or_app. right. now left.
Qed.

Lemma stops_app_stops (l : list Effect) (ns : list SourceNode) :
  stopsAfterStarts l -> (forall n, In n ns -> In n (started l)) ->
  stopsAfterStarts (l ++ map SourceStop ns).
Proof.
  intros Hl Hns. apply stops_app; [exact Hl|].
  intros before n after E. rewrite started_app. apply in_or_app. left.
  apply Hns.
  assert (Hin : In (SourceStop n) (map SourceStop ns)).
  { rewrite E. apply in_or_app. right. now left. }
  apply in_map_iff in Hin. destruct Hin as (k & Hk & Hin).
  injection Hk as ->. exact Hin.
Qed.

Lemma started_stops (ns : list SourceNode) : started (map SourceStop ns) = [].
Proof. induction ns; auto. Qed.

Lemma set_add_inv (n c : SourceNode) (l : list SourceNode) :
  In n (set_add c l) -> n = c \/ In n l.
Proof.
  unfold set_add. destruct (existsb (Nat.eqb c) l); [auto|].
  intros H. apply in_app_or in H. destruct H as [H|[H|[]]]; auto.
Qed.

(** [tidy] depends on the log, the counter of nodes and the pending set
    only. *)
Lemma tidy_fields (w w' : World) :
  log w' = log w -> created w' = created w ->
  (forall n, In n (sources (this w')) -> In n (sources (this w))) ->
  tidy w -> tidy w'.
Proof.
  unfold tidy. intros -> -> Hsub (H1 & H2 & H3 & H4). auto 10.
Qed.

Lemma tidy_aside (w w' : World) : aside w w' -> tidy w -> tidy w'.
Proof.
  unfold aside, tidy. intros (Hs & _ & Hc & new & Hl & Hfree) (H1 & H2 & H3 & H4).
  destruct (playback_free new Hfree) as (Hst & _ & Hstop).
  rewrite Hl, Hs, Hc, started_app, Hst, app_nil_r.
  repeat split; auto. now apply stops_app_free.
Qed.

Lemma tidy_flush (w : World) : tidy w -> tidy (snd (stopAudioPlayback w)).
Proof.
  destruct (flush_fields w) as (Hl & Hs & Hc). unfold tidy.
  intros (H1 & H2 & H3 & H4).
  rewrite Hl, Hs, Hc, started_app, started_stops, app_nil_r.
  repeat split; auto; [intros n []|].
  now apply stops_app_stops.
Qed.

Section Tidy.

Variable decode : string -> Completion (list byte).
Variable decodeAudioData : list byte -> Completion AudioBuffer.
Variable createBlob : list Q -> string.
Variable platform : Platform.

Lemma tidy_begin (m : LiveServerMessage) (w : World) :
  tidy w -> tidy (snd (handleMessage_begin decode m w)).
Proof.
  intros Hw. destruct (begin_shape decode m w) as [(Hl & Hs & Hc & _)|[_ ->]].
  - apply (tidy_fields w); auto. intros n. now rewrite Hs.
  - now apply tidy_flush.
Qed.

Lemma tidy_resume (m : LiveServerMessage) (encoded : list byte) (w : World) :
  tidy w -> tidy (snd (handleMessage_resume decodeAudioData m encoded w)).
Proof.
  intros Hw.
  destruct (resume_shape decodeAudioData m encoded w) as (mid & -> & Hmid).
  assert (Hm : tidy mid).
  { destruct Hmid as [(Hl & Hs & Hc & Hp)|(buf & Hl & Hs & Hc & _)].
    - apply (tidy_aside w); [|exact Hw]. unfold aside. rewrite Hs, Hc, Hp.
      repeat split. exists [ConsoleError "Error decoding audio"]. auto.
    - destruct Hw as (H1 & H2 & H3 & H4). unfold tidy.
      rewrite Hl, Hs, Hc, started_app. cbn [started]. repeat split.
      + apply NoDup_app; [exact H1 | repeat constructor; intros [] |].
        intros n Hn [<-|[]]. specialize (H2 _ Hn). lia.
      + intros n Hn. apply in_app_or in Hn. destruct Hn as [Hn|[<-|[]]];
          [specialize (H2 _ Hn)|]; lia.
      + intros n Hn. apply in_or_app. apply set_add_inv in Hn.
        destruct Hn as [->|Hn]; [right; now left | left; auto].
      + apply stops_app_free; [exact H4|].
        intros n [Hn|[Hn|[]]]; discriminate. }
  destruct (interrupted m); [now apply tidy_flush | exact Hm].
Qed.

Lemma tidy_step (a : Action) (r : Running) :
  tidy (world r) -> tidy (world (step decode decodeAudioData createBlob platform a r)).
Proof.
  intros Hr.
  assert (Hcall : forall (A : Type) (c : Js A), respects aside c ->
                    tidy (world (call c r))).
  { intros A c Hc. apply (tidy_aside (world r)); [apply Hc | exact Hr]. }
  destruct a as [env|outcome| |m|i| | |inputData|source| |dt]; cbn [step].
  - apply Hcall, connect_setup_aside.
  - destruct (handshaking (world r)); [apply Hcall, connect_settle_aside | exact Hr].
  - destruct (registered (world r)); [apply Hcall, handleOpen_aside | exact Hr].
  - destruct (registered (world r)); [|exact Hr].
    pose proof (tidy_begin m (world r) Hr) as H.
    destruct (handleMessage_begin decode m (world r)) as [[[|encoded]|e] w'];
      exact H.
  - destruct (nth_error (waiting r) i) as [[m encoded]|]; [|exact Hr].
    apply tidy_resume, Hr.
  - destruct (registered (world r)); [apply Hcall, onerror_aside | exact Hr].
  - destruct (registered (world r)); [apply Hcall, onclose_aside | exact Hr].
  - apply Hcall, onaudioprocess_aside.
  - apply (tidy_fields (world r)); try reflexivity; [|exact Hr].
    cbn. intros n Hn. unfold set_delete in Hn. apply filter_In in Hn. tauto.
  - apply Hcall, disconnect_aside.
  - apply Hcall, advanceClock_aside.
Qed.

Lemma tidy_run (actions : list Action) (r : Running) :
  tidy (world r) ->
  tidy (world (run decode decodeAudioData createBlob platform actions r)).
Proof.
  revert r. induction actions as [|a actions IH]; intros r Hr; [exact Hr|].
  unfold run. cbn [fold_left]. apply IH, tidy_step, Hr.
Qed.

(** X11. Over every run of events of a session, from the construction of
    the instance on: no source node is started twice, [stop()] is only
    ever called on a node that was started before, and every node of the
    pending set has been started. *)
Theorem nodes_started_once_stopped_after (actions : list Action) :
  let w := world (run decode decodeAudioData createBlob platform actions idle) in
  NoDup (started (log w)) /\
  stopsAfterStarts (log w) /\
  (forall n, In n (sources (this w)) -> In n (started (log w))).
Proof.
  cbv zeta.
  assert (H0 : tidy (world idle)).
  { unfold tidy. cbn. split; [constructor|]. split; [intros ? []|].
    split; [intros ? []|]. intros before n after E.
    destruct before; discriminate. }
  destruct (tidy_run actions idle H0) as (H1 & _ & H3 & H4). auto.
Qed.

(** *** Chunks never overlap *)

Lemma separated_snoc (l : list (Q * AudioBuffer)) (t : Q) (b : AudioBuffer) :
  separated l -> Forall (fun chunk => (endsAt chunk <= t)%Q) l ->
  separated (l ++ [(t, b)]).
Proof.
  induction l as [|c l IH]; intros Hs Hall; [exact I|].
  inversion Hall as [|? ? Hc Hrest]; subst.
  destruct l as [|c' l].
  - cbn. auto.
  - cbn [app separated] in *. destruct Hs as [H1 H2]. split; [exact H1|].
    apply IH; assumption.
Qed.

Lemma paced_fields (w w' : World) :
  scheduled (log w') = scheduled (log w) ->
  (nextStartTime (this w) <= nextStartTime (this w'))%Q ->
  paced w -> paced w'.
Proof.
  unfold paced. intros -> Hle [H1 H2]. split; [exact H1|].
  revert H2. apply Forall_impl. intros c Hc. eapply Qle_trans; eassumption.
Qed.

Lemma paced_aside (w w' : World) : aside w w' -> paced w -> paced w'.
Proof.
  intros (_ & Hp & _ & new & Hl & Hfree). apply paced_fields.
  - destruct (playback_free new Hfree) as (_ & Hs & _).
    now rewrite Hl, scheduled_app, Hs, app_nil_r.
  - rewrite Hp. apply Qle_refl.
Qed.

Lemma paced_begin (m : LiveServerMessage) (w : World) :
  interrupted m = false -> paced w -> paced (snd (handleMessage_begin decode m w)).
Proof.
  intros Hint Hw.
  destruct (begin_shape decode m w) as [(Hl & _ & _ & Hle)|[E _]]; [|congruence].
  apply (paced_fields w); [now rewrite Hl | exact Hle | exact Hw].
Qed.

Lemma paced_resume (m : LiveServerMessage) (encoded : list byte) (w : World) :
  interrupted m = false -> paced w ->
  paced (snd (handleMessage_resume decodeAudioData m encoded w)).
Proof.
  intros Hint Hw.
  destruct (resume_shape decodeAudioData m encoded w) as (mid & -> & Hmid).
  rewrite Hint.
  destruct Hmid as [(Hl & _ & _ & Hp)|(buf & Hl & _ & _ & Hp)].
  - apply (paced_fields w); [|rewrite Hp; apply Qle_refl | exact Hw].
    rewrite Hl, scheduled_app. cbn. apply app_nil_r.
  - destruct Hw as [H1 H2]. unfold paced.
    rewrite Hl, scheduled_app, Hp. cbn [scheduled]. split.
    + apply separated_snoc; assumption.
    + pose proof (duration_nonneg buf) as Hd.
      apply Forall_app. split.
      * revert H2. apply Forall_impl. intros c Hc. lra.
      * repeat constructor. unfold endsAt. cbn. apply Qle_refl.
Qed.

Lemma In_without {A : Type} (i : nat) (l : list A) (x : A) :
  In x (without i l) -> In x l.
Proof.
  unfold without. revert l. induction i as [|i IH]; intros [|y l] H; cbn in *; auto.
  destruct H as [H|H]; [now left | right; apply IH, H].
Qed.

Lemma calm_without (i : nat) (r : Running) (w : World) :
  calm r -> calm {| world := w; waiting := without i (waiting r) |}.
Proof.
  unfold calm. cbn [waiting]. rewrite !Forall_forall. intros H p Hp.
  apply H. eapply In_without, Hp.
Qed.

Lemma paced_step (a : Action) (r : Running) :
  uninterrupted [a] = true -> calm r -> paced (world r) ->
  paced (world (step decode decodeAudioData createBlob platform a r)) /\
  calm (step decode decodeAudioData createBlob platform a r).
Proof.
  intros Ha Hcalm Hr.
  assert (Hcall : forall (A : Type) (c : Js A), respects aside c ->
                    paced (world (call c r)) /\ calm (call c r)).
  { intros A c Hc. split; [|exact Hcalm].
    apply (paced_aside (world r)); [apply Hc | exact Hr]. }
  destruct a as [env|outcome| |m|i| | |inputData|source| |dt]; cbn [step].
  - apply Hcall, connect_setup_aside.
  - destruct (handshaking (world r)); [apply Hcall, connect_settle_aside | auto].
  - destruct (registered (world r)); [apply Hcall, handleOpen_aside | auto].
  - destruct (registered (world r)); [|auto].
    assert (Hint : interrupted m = false).
    { cbn in Ha. destruct (interrupted m); [discriminate | reflexivity]. }
    pose proof (paced_begin m (world r) Hint Hr) as H.
    destruct (handleMessage_begin decode m (world r)) as [[[|encoded]|e] w'];
      cbn [snd] in H; (split; [exact H|]); unfold calm in *; cbn [waiting];
      try exact Hcalm.
    apply Forall_app. split; [exact Hcalm | repeat constructor; exact Hint].
  - destruct (nth_error (waiting r) i) as [[m encoded]|] eqn:Hn; [|auto].
    assert (Hint : interrupted m = false).
    { unfold calm in Hcalm. rewrite Forall_forall in Hcalm.
      apply (Hcalm (m, encoded)). eapply nth_error_In; eassumption. }
    split; [apply paced_resume; assumption | apply calm_without, Hcalm].
  - destruct (registered (world r)); [apply Hcall, onerror_aside | auto].
  - destruct (registered (world r)); [apply Hcall, onclose_aside | auto].
  - apply Hcall, onaudioprocess_aside.
  - split; [|exact Hcalm]. apply (paced_fields (world r));
      [reflexivity | apply Qle_refl | exact Hr].
  - apply Hcall, disconnect_aside.
  - apply Hcall, advanceClock_aside.
Qed.

(** X12. Chunks never overlap, whatever the order in which decodes
    complete: over every run of events from the construction of the
    instance on in which no message carries the interruption flag, each
    scheduled chunk starts at or after the end of the chunk scheduled
    before it. *)
Theorem schedule_never_overlaps (actions : list Action) :
  uninterrupted actions = true ->
  separated
    (scheduled
       (log (world (run decode decodeAudioData createBlob platform actions idle)))).
Proof.
  intros Hu.
  assert (H : forall r, calm r -> paced (world r) ->
              paced (world (run decode decodeAudioData createBlob platform actions r))).
  { induction actions as [|a actions IH]; intros r Hc Hp; [exact Hp|].
    unfold uninterrupted in Hu. cbn [forallb] in Hu.
    apply andb_true_iff in Hu. destruct Hu as [Ha Hrest].
    assert (Ha' : uninterrupted [a] = true)
      by (unfold uninterrupted; cbn [forallb]; now rewrite Ha).
    destruct (paced_step a r Ha' Hc Hp) as [Hp' Hc'].
    unfold run. cbn [fold_left]. apply (IH Hrest _ Hc' Hp'). }
  apply H.
  - constructor.
  - split; [exact I | constructor].
Qed.

End Tidy.

(** *** The guard of [handleOpen] *)

#[local] Instance held_framing : Framing held.
Proof.
  split; unfold held.
  - intros w. tauto.
  - intros w1 w2 w3 (P1 & S1 & I1 & O1) (P2 & S2 & I2 & O2).
    repeat split; [congruence | auto | auto | auto].
Qed.

Lemma held_emit (e : Effect) : respects held (emit e).
Proof. intros w. unfold held. cbn. tauto. Qed.

Lemma held_register (r : Reaction) : respects held (register r).
Proof. intros w. unfold held. cbn. tauto. Qed.

Lemma held_clearReactions : respects held clearReactions.
Proof. intros w. unfold held. cbn. tauto. Qed.

Lemma held_createBufferSource : respects held createBufferSource.
Proof. intros w. unfold held. cbn. tauto. Qed.

Lemma held_update (f : GeminiLiveService -> GeminiLiveService) :
  (forall s, sessionPromise (f s) = sessionPromise s /\
             (stream s <> None -> stream (f s) <> None) /\
             (inputAudioContext s <> None -> inputAudioContext (f s) <> None) /\
             (outputAudioContext s <> None -> outputAudioContext (f s) <> None)) ->
  respects held (update f).
Proof. intros Hf w. unfold held, update. cbn. apply Hf. Qed.

#[local] Hint Resolve held_emit held_register held_clearReactions
  held_createBufferSource : frames.

#[local] Hint Extern 1 (respects held (update _)) =>
  apply held_update; intros ?; cbn;
  repeat split; solve [tauto | discriminate | apply advance_some] : frames.

Lemma equipped_held (w w' : World) : held w w' -> equipped w -> equipped w'.
Proof.
  unfold held, equipped, registered. intros (P & S & I & O) H. rewrite P.
  intros Hr. destruct (H Hr) as (H1 & H2 & H3). auto.
Qed.

Section Equipped.

Variable decode : string -> Completion (list byte).
Variable decodeAudioData : list byte -> Completion AudioBuffer.
Variable createBlob : list Q -> string.
Variable platform : Platform.

Lemma stopAudioPlayback_held : respects held stopAudioPlayback.
Proof. unfold stopAudioPlayback. respect; auto with frames. Qed.

Lemma disconnect_held : respects held (disconnect platform).
Proof. unfold disconnect, closeIfPossible, stopTrack. respect; auto with frames. Qed.

Lemma connect_catch_held (err : JsError) : respects held (connect_catch platform err).
Proof. unfold connect_catch. respect; auto using disconnect_held with frames. Qed.

Lemma handleOpen_held : respects held handleOpen.
Proof. unfold handleOpen. respect; auto with frames. Qed.

Lemma onaudioprocess_held (inputData : list Q) :
  respects held (onaudioprocess createBlob platform inputData).
Proof.
  unfold onaudioprocess, runReaction, closeIfPossible. respect; auto with frames.
Qed.

Lemma handleMessage_begin_held (m : LiveServerMessage) :
  respects held (handleMessage_begin decode m).
Proof.
  unfold handleMessage_begin. respect; auto using stopAudioPlayback_held with frames.
Qed.

Lemma handleMessage_resume_held (m : LiveServerMessage) (encoded : list byte) :
  respects held (handleMessage_resume decodeAudioData m encoded).
Proof.
  unfold handleMessage_resume. respect; auto using stopAudioPlayback_held with frames.
Qed.

Lemma settled_held (outcome : Completion Session) :
  respects held
    (match outcome with
     | Normal session =>
         waiting <- clearReactions ;; forEach waiting (runReaction platform session)
     | Throw err =>
         connect_catch platform err ;; waiting <- clearReactions ;; ret tt
     end)%js.
Proof.
  destruct outcome as [session|err]; unfold runReaction, closeIfPossible;
    respect; auto using connect_catch_held with frames.
Qed.

Lemma connect_settle_equipped (outcome : Completion Session) (w : World) :
  registered w = true -> equipped w ->
  equipped (snd (connect_settle platform outcome w)).
Proof.
  intros Hr Hw. destruct (Hw Hr) as (H1 & H2 & H3).
  assert (E : forall p, equipped (snd (update (set_sessionPromise p) w))).
  { intros p _. cbn. auto. }
  pose proof (settled_held outcome) as Hrest.
  destruct outcome as [session|err]; unfold connect_settle.
  - specialize (Hrest (snd (update (set_sessionPromise (Some (Fulfilled session))) w))).
    apply (equipped_held _ _ Hrest), E.
  - specialize (Hrest (snd (update (set_sessionPromise (Some (Rejected err))) w))).
    apply (equipped_held _ _ Hrest), E.
Qed.

#[local] Arguments connect_catch : simpl never.

Lemma connect_setup_equipped (env : Devices) (w : World) :
  equipped w -> equipped (snd (connect_setup platform env w)).
Proof.
  intros Hw.
  assert (Hcatch : forall e w1,
            sessionPromise (this w1) = sessionPromise (this w) ->
            stream (this w1) = stream (this w) ->
            inputAudioContext (this w1) <> None ->
            outputAudioContext (this w1) <> None ->
            equipped (snd (connect_catch platform e w1))).
  { intros e w1 Hp Hs Hi Ho. apply (equipped_held w1); [apply connect_catch_held|].
    unfold equipped, registered. rewrite Hp, Hs. intros Hr.
    destruct (Hw Hr) as (H1 & _). auto. }
  unfold connect_setup, newContext. js.
  destruct (inputState env), (resumeInput env) as [[]|e1],
    (outputState env), (resumeOutput env) as [[]|e2],
    (getUserMedia env) as [media|e3]; cbn.
  all: try (match goal with |- context [connect_catch platform ?e ?w1] =>
           pose proof (Hcatch e w1 eq_refl eq_refl) as H; cbn in H;
           destruct (connect_catch platform e w1) as [[[]|?] ?]; cbn in *;
           apply H; discriminate
         end).
  all: unfold equipped; intros _; cbn; repeat split; discriminate.
Qed.

Lemma equipped_step (a : Action) (r : Running) :
  equipped (world r) ->
  equipped (world (step decode decodeAudioData createBlob platform a r)).
Proof.
  intros Hr.
  assert (Hcall : forall (A : Type) (c : Js A), respects held c ->
                    equipped (world (call c r))).
  { intros A c Hc. apply (equipped_held (world r)); [apply Hc | exact Hr]. }
  destruct a as [env|outcome| |m|i| | |inputData|source| |dt]; cbn [step].
  - apply connect_setup_equipped, Hr.
  - destruct (handshaking (world r)) eqn:Hh; [|exact Hr].
    apply connect_settle_equipped; [|exact Hr].
    unfold handshaking in Hh. unfold registered.
    destruct (sessionPromise (this (world r))); [reflexivity | discriminate].
  - destruct (registered (world r)); [apply Hcall, handleOpen_held | exact Hr].
  - destruct (registered (world r)); [|exact Hr].
    pose proof (handleMessage_begin_held m (world r)) as H.
    apply (equipped_held _ _ H) in Hr.
    destruct (handleMessage_begin decode m (world r)) as [[[|encoded]|e] w'];
      exact Hr.
  - destruct (nth_error (waiting r) i) as [[m encoded]|]; [|exact Hr].
    apply (equipped_held (world r)); [apply handleMessage_resume_held | exact Hr].
  - destruct (registered (world r)); [|exact Hr].
    apply Hcall. unfold onerror. respect; auto with frames.
  - destruct (registered (world r)); [|exact Hr].
    apply Hcall. unfold onclose. respect; auto with frames.
  - apply Hcall, onaudioprocess_held.
  - apply Hcall. unfold sourceEnded. auto with frames.
  - apply Hcall, disconnect_held.
  - apply Hcall. unfold advanceClock. auto with frames.
Qed.

(** X17. The early return of line 148 is never taken: over every run of
    events from the construction of the instance on, whenever the
    callbacks have been handed over the instance holds the stream and both
    contexts, so that every [onopen] that is delivered installs the
    capture node, and every message finds the output context. *)
Theorem open_always_installs_capture (actions : list Action) :
  let r := run decode decodeAudioData createBlob platform actions idle in
  registered (world r) = true ->
  outputAudioContext (this (world r)) <> None /\
  let w' := world (step decode decodeAudioData createBlob platform Open r) in
  processor (this w') = Some {| bufferSize := 4096; forwarding := true |} /\
  log w' = log (world r)
           ++ [ConsoleLog "Connection established. Starting audio stream.";
               CaptureInstalled].
Proof.
  cbv zeta.
  assert (H : forall r, equipped (world r) ->
              equipped (world (run decode decodeAudioData createBlob platform actions r))).
  { induction actions as [|a actions IH]; intros r Hr; [exact Hr|].
    unfold run. cbn [fold_left]. apply IH, equipped_step, Hr. }
  assert (H0 : equipped (world idle)) by (intros Hr; discriminate).
  specialize (H idle H0).
  set (r := run decode decodeAudioData createBlob platform actions idle) in *.
  intros Hr. destruct (H Hr) as (H1 & H2 & H3). split; [exact H3|].
  cbn [step]. rewrite Hr. unfold call, exec, handleOpen. js.
  destruct (inputAudioContext (this (world r))); [|congruence].
  destruct (stream (this (world r))); [|congruence].
  cbn. rewrite <- app_assoc. auto.
Qed.

End Equipped.

(** ** The component around the session *)

Lemma notify_appState (l : list Effect) (a : App) :
  appState (fold_left notify l a) = appState a.
Proof.
  revert a. induction l as [|e l IH]; intros a; [reflexivity|].
  cbn [fold_left]. rewrite IH. destruct e; reflexivity.
Qed.

Section Visit.

Variable platform : Platform.
Variable apiKey : option string.
Variable env : Devices.
Variable handshake : Completion Session.

Lemma startSession_fields (a : App) :
  let a' := startSession platform apiKey env handshake a in
  (appState a' = ERROR /\ liveServiceRef a' = liveServiceRef a /\
   isMicActive a' = isMicActive a) \/
  (appState a' = appState a /\ liveServiceRef a' <> None).
Proof.
  cbv zeta. unfold startSession. destruct (truthy apiKey).
  - right. rewrite notify_appState, notify_liveServiceRef. cbn.
    split; [reflexivity | discriminate].
  - left. cbn. auto.
Qed.

(** X13. "Terminate Session" does not end the session.  The clean-up that
    runs when the active view is left was made by the render in which the
    state was [ACTIVE], so its test of line 67 fails: on the landing view
    the service is still referenced and not disconnected, and the
    microphone indicator is as it was.  The session is ended by the
    clean-up of the landing view, when the visitor goes on to the form. *)
Theorem terminate_leaves_session_connected (p : Page) (w : World) :
  appState (core p) = ACTIVE ->
  liveServiceRef (core p) = Some w ->
  let landed := toLanding platform apiKey env handshake p in
  let next := handleStart platform apiKey env handshake landed in
  (appState (core landed) = LANDING /\
   liveServiceRef (core landed) = Some w /\
   isMicActive (core landed) = isMicActive (core p) /\
   retired landed = retired p) /\
  (appState (core next) = UPLOAD /\
   liveServiceRef (core next) = None /\
   isMicActive (core next) = false /\
   retired next = retired p ++ [exec (disconnect platform) w]).
Proof.
  destruct p as [[st em mic ref] prof sm iv ret]. cbn [core appState liveServiceRef].
  intros -> ->. cbv zeta. cbn. auto 10.
Qed.

(** X14. The form goes on to the processing view exactly when the name and
    the memory text are both non-empty, whatever the relationship field
    holds; it then clears the error message, shows the first status line
    and starts the timer.  Otherwise the view stays, with the message
    "Name and Memory Data are required.", and no timer is started. *)
Theorem upload_needs_name_and_memories (p : Page) :
  appState (core p) = UPLOAD ->
  interval p = None ->
  let q := handleUploadSubmit platform apiKey env handshake p in
  (appState (core q) = PROCESSING <->
   name (profile p) <> EmptyString /\ personalityContext (profile p) <> EmptyString) /\
  (appState (core q) = PROCESSING ->
   errorMsg (core q) = None /\ interval q = Some 0%nat /\
   statusMessage q = "Ingesting Memory Logs..."%string) /\
  (appState (core q) <> PROCESSING ->
   appState (core q) = UPLOAD /\ interval q = None /\
   errorMsg (core q) = Some "Name and Memory Data are required."%string).
Proof.
  destruct p as [[st em mic ref] [nm rel pc] sm iv ret].
  cbn [core appState interval profile name personalityContext].
  intros -> ->. cbv zeta. unfold handleUploadSubmit.
  cbn [profile name personalityContext].
  destruct nm as [|c nm], pc as [|c' pc]; cbn.
  - repeat split; try discriminate; try tauto; intros [H _]; congruence.
  - repeat split; try discriminate; try tauto; intros [H _]; congruence.
  - repeat split; try discriminate; try tauto; intros [_ H]; congruence.
  - destruct ref; cbn; repeat split; try discriminate; try tauto.
Qed.

(** X15. After a submitted form the timer shows the second, third and
    fourth status line on its first three firings and leaves the core of
    the component alone; its fourth firing clears the timer, sets the
    state to [ACTIVE] and starts the session from there; later firings
    find no timer and do nothing. *)
Theorem fourth_firing_starts_session (p : Page) :
  appState (core p) = PROCESSING ->
  interval p = Some 0%nat ->
  liveServiceRef (core p) = None ->
  (forall k, (1 <= k < 4)%nat ->
     fires platform apiKey env handshake k p =
     {| core := core p; profile := profile p;
        statusMessage := nth k steps EmptyString;
        interval := Some k; retired := retired p |}) /\
  fires platform apiKey env handshake 4 p =
    {| core := startSession platform apiKey env handshake
                 {| appState := ACTIVE; errorMsg := errorMsg (core p);
                    isMicActive := false; liveServiceRef := None |};
       profile := profile p;
       statusMessage := nth 3 steps EmptyString;
       interval := None; retired := retired p |} /\
  (forall k, (4 <= k)%nat ->
     fires platform apiKey env handshake k p =
     fires platform apiKey env handshake 4 p).
Proof.
  destruct p as [[st em mic ref] prof sm iv ret].
  cbn [core appState interval liveServiceRef profile retired errorMsg].
  intros -> -> ->.
  assert (H4 : fires platform apiKey env handshake 4
                 {| core := {| appState := PROCESSING; errorMsg := em;
                               isMicActive := mic; liveServiceRef := None |};
                    profile := prof; statusMessage := sm;
                    interval := Some 0%nat; retired := ret |} =
               {| core := startSession platform apiKey env handshake
                            {| appState := ACTIVE; errorMsg := em;
                               isMicActive := false; liveServiceRef := None |};
                  profile := prof; statusMessage := nth 3 steps EmptyString;
                  interval := None; retired := ret |}) by reflexivity.
  split; [|split].
  - intros k Hk.
    destruct k as [|[|[|[|k]]]]; try lia; reflexivity.
  - exact H4.
  - intros k Hk. induction Hk as [|k Hk IH]; [reflexivity|].
    change (fires platform apiKey env handshake (S k) ?q)
      with (intervalFires platform apiKey env handshake
              (fires platform apiKey env handshake k q)).
    rewrite IH, H4. reflexivity.
Qed.

Lemma gesture_orderly (g : Gesture) (p : Page) :
  orderly p -> orderly (gesture platform apiKey env handshake g p).
Proof.
  destruct p as [[st em mic ref] prof sm iv ret]. unfold orderly.
  cbn [core appState interval liveServiceRef isMicActive].
  intros (Hiv & Href & Hmic).
  assert (Hstart : forall a, appState a = ACTIVE -> liveServiceRef a = None ->
            isMicActive a = false ->
            forall pr s r,
            orderly {| core := startSession platform apiKey env handshake a;
                       profile := pr; statusMessage := s; interval := None;
                       retired := r |}).
  { intros a Ha Hr Hm pr s r. unfold orderly.
    cbn [core interval].
    destruct (startSession_fields a) as [(E1 & E2 & E3)|(E1 & E2)]; cbv zeta in *.
    - rewrite E1, E2, E3, Hr, Hm. repeat split; try congruence; try tauto.
    - rewrite E1, Ha. repeat split; try congruence; try tauto. }
  destruct g as [|f| | | |].
  - destruct st; cbn; try (repeat split; tauto).
    destruct ref; cbn; repeat split; try congruence; try tauto;
      try (intros H; apply Hiv in H; discriminate).
  - destruct st; cbn; repeat split; tauto.
  - destruct st; cbn; try (repeat split; tauto).
    unfold handleUploadSubmit. cbn [profile name personalityContext].
    destruct (name prof), (personalityContext prof); cbn;
      try (repeat split; tauto).
    destruct ref; cbn; repeat split; try congruence; try tauto.
  - unfold gesture.
    assert (E : intervalFires platform apiKey env handshake
                  {| core := {| appState := st; errorMsg := em; isMicActive := mic;
                                liveServiceRef := ref |};
                     profile := prof; statusMessage := sm; interval := iv;
                     retired := ret |} =
                match iv with
                | Some k =>
                    if (S k <? 4)%nat then
                      {| core := {| appState := st; errorMsg := em;
                                    isMicActive := mic; liveServiceRef := ref |};
                         profile := prof;
                         statusMessage := nth (S k) steps EmptyString;
                         interval := Some (S k); retired := ret |}
                    else
                      {| core := startSession platform apiKey env handshake
                                   {| appState := ACTIVE; errorMsg := em;
                                      isMicActive := false; liveServiceRef := None |};
                         profile := prof; statusMessage := sm;
                         interval := None; retired := ret |}
                | None => {| core := {| appState := st; errorMsg := em;
                                        isMicActive := mic; liveServiceRef := ref |};
                             profile := prof; statusMessage := sm; interval := iv;
                             retired := ret |}
                end).
    { destruct iv as [k|]; [|reflexivity].
      assert (st = PROCESSING) as -> by (apply Hiv; discriminate).
      assert (ref = None) as ->.
      { destruct ref; [|reflexivity].
        destruct Href as [H|H]; [discriminate | discriminate | discriminate]. }
      unfold intervalFires. cbn [interval]. change (List.length steps) with 4%nat.
      destruct (S k <? 4)%nat; reflexivity. }
    replace (match st with _ => _ end) with
      (intervalFires platform apiKey env handshake
         {| core := {| appState := st; errorMsg := em; isMicActive := mic;
                       liveServiceRef := ref |};
            profile := prof; statusMessage := sm; interval := iv;
            retired := ret |}) by (destruct st; reflexivity).
    rewrite E. destruct iv as [k|]; [|cbn; tauto].
    destruct (S k <? 4)%nat.
    + cbn. repeat split; try tauto; try discriminate.
      intros _. apply Hiv. discriminate.
    + apply Hstart; reflexivity.
  - destruct st; cbn; try (repeat split; tauto).
    repeat split; try congruence; try tauto.
    intros H. apply Hiv in H. discriminate.
  - destruct st; cbn; try (repeat split; tauto).
    destruct ref; cbn; repeat split; try congruence; try tauto;
      try (intros H; apply Hiv in H; discriminate).
Qed.

(** X16. Whatever the visitor does, from the first render on: the timer
    runs in the processing state only (and always there), a service is
    referenced only in the active state or on the landing view, and the
    microphone indicator is on only while a service is referenced.  In
    particular the session effect finds no service when it is about to
    start one, so that no service is replaced without being
    disconnected. *)
Theorem visit_orderly (gestures : list Gesture) :
  orderly (visit platform apiKey env handshake gestures initialPage).
Proof.
  assert (H : forall p, orderly p ->
              orderly (visit platform apiKey env handshake gestures p)).
  { induction gestures as [|g gestures IH]; intros p Hp; [exact Hp|].
    unfold visit. cbn [fold_left]. apply IH, gesture_orderly, Hp. }
  apply H. unfold orderly, initialPage. cbn.
  repeat split; try congruence; try tauto; discriminate.
Qed.

End Visit.

(** ** Frames handled one at a time *)


Section OneAtATime.

Variable decode : string -> Completion (list byte).
Variable decodeAudioData : list byte -> Completion AudioBuffer.
Variable createBlob : list Q -> string.
Variable platform : Platform.





End OneAtATime.


(** ** The events around one connect attempt *)

Lemma sends_of_capture (l l' : list Effect) :
  filter isCapture l' = filter isCapture l -> filter isSend l' = filter isSend l.
Proof.
  assert (H : forall k, filter isSend k = filter isSend (filter isCapture k)).
  { induction k as [|e k IH]; [reflexivity|].
    destruct e; cbn; rewrite <- ?IH; reflexivity. }
  intros E. rewrite (H l'), (H l), E. reflexivity.
Qed.

Section Attempts.

Variable decode : string -> Completion (list byte).
Variable decodeAudioData : list byte -> Completion AudioBuffer.
Variable createBlob : list Q -> string.
Variable platform : Platform.

(** A computation that leaves the session promise alone and hands no
    window to the connection. *)
Lemma apart (A : Type) (c : Js A) (w : World) :
  respects held c -> respects (quiet isSend) c ->
  sessionPromise (this (exec c w)) = sessionPromise (this w) /\
  filter isSend (log (exec c w)) = filter isSend (log w).
Proof. intros Hh Hq. split; [apply (Hh w) | apply (Hq w)]. Qed.

(** While the session promise is not fulfilled the capture callback hands
    nothing over: it registers its send on a pending promise and does
    nothing on a rejected or absent one. *)
Lemma onaudioprocess_unfulfilled (inputData : list Q) (w : World) :
  (forall session, sessionPromise (this w) <> Some (Fulfilled session)) ->
  this (exec (onaudioprocess createBlob platform inputData) w) = this w /\
  log (exec (onaudioprocess createBlob platform inputData) w) = log w.
Proof.
  intros Hp. unfold exec, onaudioprocess. js.
  destruct (processor (this w)) as [node|]; [|auto].
  destruct (forwarding node); [|auto].
  destruct (sessionPromise (this w)) as [[|session|e]|]; cbn; auto.
  now destruct (Hp session).
Qed.

(** One event, other than a call of [connect] and a settlement of a
    pending promise, on an instance whose promise is not fulfilled. *)
Lemma step_unsent (a : Action) (r : Running) :
  isConnect a = false ->
  isSettlement a = false \/ handshaking (world r) = false ->
  (forall session, sessionPromise (this (world r)) <> Some (Fulfilled session)) ->
  let r' := step decode decodeAudioData createBlob platform a r in
  sessionPromise (this (world r')) = sessionPromise (this (world r)) /\
  filter isSend (log (world r')) = filter isSend (log (world r)).
Proof.
  intros Hc Hs Hp. cbv zeta.
  assert (Hcall : forall (A : Type) (c : Js A),
            respects held c -> respects (quiet isSend) c ->
            sessionPromise (this (world (call c r))) = sessionPromise (this (world r)) /\
            filter isSend (log (world (call c r))) = filter isSend (log (world r))).
  { intros A c Hh Hq. apply apart; assumption. }
  destruct a as [env|outcome| |m|i| | |inputData|source| |dt]; cbn [step].
  - discriminate.
  - destruct Hs as [Hs|Hs]; [discriminate | rewrite Hs; auto].
  - destruct (registered (world r)); [|auto].
    apply Hcall; [apply handleOpen_held|]. unfold handleOpen. respect; auto with frames.
  - destruct (registered (world r)); [|auto].
    assert (H : sessionPromise (this (snd (handleMessage_begin decode m (world r)))) =
                sessionPromise (this (world r)) /\
                filter isSend (log (snd (handleMessage_begin decode m (world r)))) =
                filter isSend (log (world r))).
    { apply (apart _ (handleMessage_begin decode m));
        [apply handleMessage_begin_held|].
      unfold handleMessage_begin, stopAudioPlayback. respect; auto with frames. }
    destruct (handleMessage_begin decode m (world r)) as [[[|encoded]|e] w']; exact H.
  - destruct (nth_error (waiting r) i) as [[m encoded]|]; [|auto].
    cbn [world]. apply apart; [apply handleMessage_resume_held|].
    unfold handleMessage_resume, stopAudioPlayback. respect; auto with frames.
  - destruct (registered (world r)); [|auto].
    apply Hcall; unfold onerror; respect; auto with frames.
  - destruct (registered (world r)); [|auto].
    apply Hcall; unfold onclose; respect; auto with frames.
  - unfold call. cbn [world].
    destruct (onaudioprocess_unfulfilled inputData (world r) Hp) as [-> ->]. auto.
  - apply Hcall; unfold sourceEnded; auto with frames.
  - apply Hcall; [apply disconnect_held|].
    apply disconnect_quiet; reflexivity.
  - apply Hcall; unfold advanceClock; auto with frames.
Qed.

Lemma run_unsent (actions : list Action) (r : Running) :
  noConnect actions = true ->
  meanwhile actions = true \/ handshaking (world r) = false ->
  (forall session, sessionPromise (this (world r)) <> Some (Fulfilled session)) ->
  let r' := run decode decodeAudioData createBlob platform actions r in
  sessionPromise (this (world r')) = sessionPromise (this (world r)) /\
  filter isSend (log (world r')) = filter isSend (log (world r)).
Proof.
  cbv zeta. revert r. induction actions as [|a actions IH]; intros r Hc Hs Hp; [auto|].
  unfold noConnect in Hc. cbn [forallb] in Hc. apply andb_true_iff in Hc.
  destruct Hc as [Ha Hc]. apply negb_true_iff in Ha.
  assert (Hs1 : isSettlement a = false \/ handshaking (world r) = false).
  { destruct Hs as [Hs|Hs]; [left | now right].
    unfold meanwhile in Hs. cbn [forallb] in Hs.
    apply andb_true_iff in Hs. destruct Hs as [Hs _].
    apply andb_true_iff in Hs. destruct Hs as [_ Hs]. now apply negb_true_iff in Hs. }
  destruct (step_unsent a r Ha Hs1 Hp) as [Ep El].
  unfold run. cbn [fold_left].
  fold (run decode decodeAudioData createBlob platform actions
            (step decode decodeAudioData createBlob platform a r)).
  destruct (IH (step decode decodeAudioData createBlob platform a r) Hc) as [Ep' El'].
  - destruct Hs as [Hs|Hs]; [left | right].
    + unfold meanwhile in *. cbn [forallb] in Hs.
      apply andb_true_iff in Hs. tauto.
    + unfold handshaking in *. rewrite Ep. exact Hs.
  - intros session. rewrite Ep. apply Hp.
  - rewrite Ep', El'. auto.
Qed.

(** After the [await], a call of [handleMessage] does not touch the
    capture node. *)
Lemma resume_processor (m : LiveServerMessage) (encoded : list byte) (w : World) :
  processor (this (exec (handleMessage_resume decodeAudioData m encoded) w)) =
  processor (this w).
Proof.
  unfold exec, handleMessage_resume, createBufferSource, when. js.
  destruct (decodeAudioData encoded) as [buf|e]; cbn;
    (destruct (interrupted m); [rewrite stopAudioPlayback_total|]); cbn;
    try destruct (outputAudioContext (this w)); reflexivity.
Qed.

(** One event, other than a call of [connect], on an instance whose
    callbacks were never handed over: they cannot fire, and no capture node
    appears. *)
Lemma step_unconnected (a : Action) (r : Running) :
  isConnect a = false ->
  unconnected (world r) ->
  let r' := step decode decodeAudioData createBlob platform a r in
  unconnected (world r') /\
  filter isCapture (log (world r')) = filter isCapture (log (world r)).
Proof.
  intros Hc [Hp Hn]. cbv zeta.
  assert (Hreg : registered (world r) = false) by (unfold registered; now rewrite Hp).
  assert (Hh : handshaking (world r) = false) by (unfold handshaking; now rewrite Hp).
  assert (Hsame : unconnected (world r) /\
                  filter isCapture (log (world r)) = filter isCapture (log (world r)))
    by (unfold unconnected; auto).
  destruct a as [env|outcome| |m|i| | |inputData|source| |dt]; cbn [step];
    rewrite ?Hreg, ?Hh; try exact Hsame.
  - discriminate.
  - destruct (nth_error (waiting r) i) as [[m encoded]|]; [|exact Hsame].
    cbn [world]. unfold unconnected. rewrite resume_processor. unfold exec.
    rewrite (proj1 (handleMessage_resume_held decodeAudioData m encoded (world r))).
    split; [auto|].
    assert (Hq : respects (quiet isCapture)
                   (handleMessage_resume decodeAudioData m encoded)).
    { unfold handleMessage_resume, stopAudioPlayback. respect; auto with frames. }
    apply (Hq (world r)).
  - destruct (onaudioprocess_unfulfilled inputData (world r)) as [Et El];
      [intros session; rewrite Hp; discriminate|].
    unfold call. cbn [world]. unfold unconnected. rewrite Et, El. auto.
  - unfold call. cbn [world]. unfold unconnected.
    destruct (disconnect_this platform (world r)) as (node & ci & co & Hthis & Hnode & _).
    unfold exec. rewrite Hthis. cbn. rewrite (Hnode Hn).
    split; [auto|].
    apply (disconnect_quiet platform isCapture); reflexivity.
Qed.

Lemma run_unconnected (actions : list Action) (r : Running) :
  noConnect actions = true ->
  unconnected (world r) ->
  let r' := run decode decodeAudioData createBlob platform actions r in
  unconnected (world r') /\
  filter isCapture (log (world r')) = filter isCapture (log (world r)).
Proof.
  cbv zeta. revert r. induction actions as [|a actions IH]; intros r Hc Hu; [auto|].
  unfold noConnect in Hc. cbn [forallb] in Hc. apply andb_true_iff in Hc.
  destruct Hc as [Ha Hc]. apply negb_true_iff in Ha.
  destruct (step_unconnected a r Ha Hu) as [Hu' El].
  unfold run. cbn [fold_left].
  fold (run decode decodeAudioData createBlob platform actions
            (step decode decodeAudioData createBlob platform a r)).
  destruct (IH _ Hc Hu') as [Hu'' El']. rewrite El', El. auto.
Qed.

(** C4, as the code has it, over the events of a session.  A missing
    credential is met by the guard of [startSession]: it sets the error
    message and the [ERROR] state itself, constructs no service and calls
    neither [connect] nor [onError].  A context that does not resume or a
    microphone that is refused makes [connect] return without throwing
    after one call of [onError] with the message of the failure (or the
    default text); the callbacks are not handed over, so that on an
    instance that was not connected before no capture node appears and
    nothing is sent, whatever events follow short of another [connect].  A
    handshake that is rejected, whatever events came while it was awaited,
    makes [connect] go on into its [catch] and end without throwing after
    one call of [onError] with the message of the rejection; no window of
    samples is handed to the connection, neither while the handshake is
    awaited nor after the rejection, whatever events follow short of
    another [connect]. *)
Theorem setup_failures_reported (apiKey : option string) (a : App) (env : Devices)
    (handshake : Completion Session) (r : Running) (err : JsError) :
  (truthy apiKey = None ->
     let a' := startSession platform apiKey env handshake a in
     appState a' = ERROR /\
     errorMsg a' = Some "API Key not found in environment."%string /\
     liveServiceRef a' = liveServiceRef a) /\
  (deviceFailure env = Some err ->
     let r1 := step decode decodeAudioData createBlob platform (Connect env) r in
     connect_setup platform env (world r) = (Normal false, world r1) /\
     filter isOnError (log (world r1)) =
       filter isOnError (log (world r)) ++ [OnError (describe err)] /\
     (unconnected (world r) ->
      forall rest, noConnect rest = true ->
        let r2 := run decode decodeAudioData createBlob platform rest r1 in
        unconnected (world r2) /\
        filter isCapture (log (world r2)) = filter isCapture (log (world r)))) /\
  (deviceFailure env = None ->
     forall between rest, meanwhile between = true -> noConnect rest = true ->
       let r1 := run decode decodeAudioData createBlob platform
                     (Connect env :: between) r in
       let r2 := step decode decodeAudioData createBlob platform
                      (Handshake (Throw err)) r1 in
       let r3 := run decode decodeAudioData createBlob platform rest r2 in
       fst (connect_setup platform env (world r)) = Normal true /\
       connect_settle platform (Throw err) (world r1) = (Normal tt, world r2) /\
       filter isOnError (log (world r2)) =
         filter isOnError (log (world r1)) ++ [OnError (describe err)] /\
       filter isSend (log (world r3)) = filter isSend (log (world r))).
Proof.
  split; [|split].
  - intros Hkey. cbv zeta. unfold startSession. rewrite Hkey. cbn. auto.
  - intros Hdev. cbv zeta. cbn [step]. unfold call, exec. cbn [world].
    destruct (connect_setup_fails platform env (world r) err Hdev)
      as (w' & Hrun & H1 & H2 & _ & H4 & _ & H6 & _).
    rewrite Hrun. cbn [snd]. split; [reflexivity|]. split; [exact H1|].
    intros [Hp Hn] rest Hrest.
    assert (Hu : unconnected w') by (unfold unconnected; rewrite H6; auto).
    destruct (run_unconnected rest {| world := w'; waiting := waiting r |} Hrest Hu)
      as [Hu' El].
    cbn [world] in El. rewrite El. auto.
  - intros Hdev between rest Hbetween Hrest. cbv zeta.
    destruct (connect_setup_waits platform env (world r) Hdev)
      as (w1 & Hrun & _ & H2 & _ & _ & _ & H6 & _).
    rewrite Hrun. split; [reflexivity|].
    assert (Hmean : noConnect between = true).
    { unfold meanwhile, noConnect in *. rewrite forallb_forall in *.
      intros x Hx. specialize (Hbetween x Hx).
      apply andb_true_iff in Hbetween. tauto. }
    assert (E1 : run decode decodeAudioData createBlob platform
                     (Connect env :: between) r =
                 run decode decodeAudioData createBlob platform between
                     {| world := w1; waiting := waiting r |}).
    { unfold run. cbn [fold_left step]. unfold call, exec. rewrite Hrun. reflexivity. }
    rewrite !E1.
    assert (Hp1 : forall session, sessionPromise (this w1) <> Some (Fulfilled session))
      by (intros session; rewrite H6; discriminate).
    destruct (run_unsent between {| world := w1; waiting := waiting r |}
                Hmean (or_introl Hbetween) Hp1) as [Ep El].
    cbn [world] in Ep, El.
    set (r1 := run decode decodeAudioData createBlob platform between
                   {| world := w1; waiting := waiting r |}) in *.
    assert (Hh : handshaking (world r1) = true)
      by (unfold handshaking; now rewrite Ep, H6).
    cbn [step]. rewrite Hh. unfold call, exec. cbn [world].
    destruct (connect_settle_rejected platform err (world r1))
      as (w2 & Hsettle & K1 & K2 & _ & _ & _ & K6 & _).
    rewrite Hsettle. cbn [snd]. split; [reflexivity|]. split; [exact K1|].
    assert (Hp2 : forall session, sessionPromise (this w2) <> Some (Fulfilled session))
      by (intros session; rewrite K6; discriminate).
    assert (Hh2 : handshaking w2 = false) by (unfold handshaking; now rewrite K6).
    destruct (run_unsent rest {| world := w2; waiting := waiting r1 |}
                Hrest (or_intror Hh2) Hp2) as [_ El2].
    cbn [world] in El2. rewrite El2.
    rewrite (sends_of_capture _ _ K2), El. apply sends_of_capture, H2.
Qed.

End Attempts.

(** The capture node and a failed handshake.  [handleOpen] does not look
    at the session promise: an [onopen] that is delivered before the
    rejection installs the capture before [onError] is called, and one that
    is delivered after it leaves a node that forwards. *)
Example capture_installed_around_rejection :
  let failure := {| message := "handshake failed" |} in
  let before := Sample.run [Connect Sample.granted; Open; Handshake (Throw failure)]
                           idle in
  let after := Sample.run [Connect Sample.granted; Handshake (Throw failure); Open]
                          idle in
  filter (fun e => isCapture e || isOnError e) (log (world before)) =
    [CaptureInstalled; OnError "handshake failed"] /\
  processor (this (world after)) = Some {| bufferSize := 4096; forwarding := true |}.
Proof. vm_compute. split; reflexivity. Qed.

(** ** The further properties at work on sample sessions *)

(** A reply whose bytes the browser refuses to decode, on an open
    session. *)
Lemma decode_failure_witness :
  let w := world Sample.live in
  let m := Sample.reply [1 # 2] false in
  let w' := exec (handleMessage Sample.decode Trial.garbled 0 m) w in
  outputAudioContext (this w) <> None /\
  Sample.decode (Sample.createBlob [1 # 2]) = Normal (Codec.pack [Codec.quantize (1 # 2)]) /\
  log w' = log w ++ [ConsoleError "Error decoding audio"] /\
  sources (this w') = sources (this w).
Proof.
  cbv zeta.
  assert (H1 : outputAudioContext (this (world Sample.live)) <> None)
    by (vm_compute; discriminate).
  assert (H2 : truthy (base64Audio (Sample.reply [1 # 2] false)) =
               Some (Sample.createBlob [1 # 2])) by (vm_compute; reflexivity).
  assert (H3 : Sample.decode (Sample.createBlob [1 # 2]) =
               Normal (Codec.pack [Codec.quantize (1 # 2)]))
    by (vm_compute; reflexivity).
  assert (H4 : Codec.pack [Codec.quantize (1 # 2)] <> []) by (vm_compute; discriminate).
  pose proof (decode_failure_absorbed Sample.decode Trial.garbled 0
                (Sample.reply [1 # 2] false) (world Sample.live)
                (Sample.createBlob [1 # 2]) (Codec.pack [Codec.quantize (1 # 2)])
                {| message := "Unable to decode audio data" |}
                H1 H2 H3 H4 eq_refl eq_refl) as (_ & Hlog & Hsrc & _).
  split; [exact H1|]. split; [exact H3|]. split; [exact Hlog | exact Hsrc].
Defined.

(** A payload that is no base64 text, on an open session. *)
Lemma decode_throw_witness :
  let w := world Sample.live in
  outputAudioContext (this w) <> None /\
  Sample.decode "!"%string = Throw {| message := "malformed envelope" |} /\
  handleMessage Sample.decode Codec.bufferOf 0 Trial.malformed w =
    (Throw {| message := "malformed envelope" |}, w).
Proof.
  cbv zeta.
  assert (H1 : outputAudioContext (this (world Sample.live)) <> None)
    by (vm_compute; discriminate).
  assert (H2 : Sample.decode "!"%string = Throw {| message := "malformed envelope" |})
    by (vm_compute; reflexivity).
  split; [exact H1|]. split; [exact H2|].
  exact (decode_throw_escapes Sample.decode Codec.bufferOf 0 Trial.malformed
           (world Sample.live) "!"%string {| message := "malformed envelope" |}
           H1 eq_refl H2).
Defined.

(** Two windows captured before the handshake settles. *)
Lemma pending_windows_witness :
  let r := Trial.connecting in
  let ds := [[1 # 2]; [1 # 4]] in
  let r1 := Sample.run (map AudioProcess ds) r in
  handshaking (world r) = true /\
  processor (this (world r)) = Some Trial.node /\
  reactions (world r) = [] /\
  log (world r1) = log (world r) /\
  log (world (Sample.step (Handshake (Normal Sample.session)) r1)) =
    log (world r) ++ flat_map (sendLog Sample.steady) (map Sample.createBlob ds).
Proof.
  cbv zeta.
  assert (H1 : handshaking (world Trial.connecting) = true) by (vm_compute; reflexivity).
  assert (H2 : processor (this (world Trial.connecting)) = Some Trial.node)
    by (vm_compute; reflexivity).
  assert (H3 : reactions (world Trial.connecting) = []) by (vm_compute; reflexivity).
  pose proof (pending_windows_sent_in_order Sample.decode Codec.bufferOf
                Sample.createBlob Sample.steady [[1 # 2]; [1 # 4]] Trial.connecting
                Trial.node Sample.session {| message := "refused" |}
                H1 H2 eq_refl H3) as (Ha & Hb & _).
  split; [exact H1|]. split; [exact H2|]. split; [exact H3|].
  split; [exact Ha | exact Hb].
Defined.

(** A [disconnect] before the handshake settles, then the handshake. *)
Lemma disconnect_while_connecting_witness :
  let w := world Trial.connecting in
  let w1 := exec (disconnect Sample.steady) w in
  let w2 := exec (connect_settle Sample.steady (Normal Sample.session)) w1 in
  dependable Sample.steady /\
  handshaking w = true /\
  reactions w = [] /\
  log w2 = log w1 ++ [SessionClose].
Proof.
  cbv zeta.
  assert (H0 : dependable Sample.steady) by (repeat split).
  assert (H1 : handshaking (world Trial.connecting) = true) by (vm_compute; reflexivity).
  assert (H3 : reactions (world Trial.connecting) = []) by (vm_compute; reflexivity).
  pose proof (disconnect_while_connecting Sample.steady (world Trial.connecting)
                Sample.session H0 H1 H3) as (_ & _ & Hc & _).
  split; [exact H0|]. split; [exact H1|]. split; [exact H3|]. exact Hc.
Defined.

(** A granted microphone and a handshake that succeeds. *)
Lemma connect_succeeds_witness :
  setupFailure Sample.granted (Normal Sample.session) = None /\
  log Trial.connected =
    [ContextResume Input; ContextResume Output; GetUserMedia; LiveConnect] /\
  sessionPromise (this Trial.connected) = Some (Fulfilled Sample.session).
Proof.
  assert (H1 : setupFailure Sample.granted (Normal Sample.session) = None)
    by reflexivity.
  destruct (connect_succeeds Sample.steady Sample.granted (Normal Sample.session)
              newWorld H1 eq_refl)
    as (media & session & _ & Hs & _ & Hlog & _ & Hp & _).
  split; [exact H1|]. split; [exact Hlog|].
  injection Hs as <-. exact Hp.
Defined.

(** A refused microphone. *)
Lemma failed_connect_witness :
  let w' := exec (connect Sample.steady Sample.refused (Normal Sample.session)) newWorld in
  dependable Sample.steady /\
  setupFailure Sample.refused (Normal Sample.session) =
    Some {| message := "Permission denied" |} /\
  exists ci co,
    inputAudioContext (this w') = Some ci /\ state ci = closed /\
    outputAudioContext (this w') = Some co /\ state co = closed.
Proof.
  cbv zeta.
  assert (H0 : dependable Sample.steady) by (repeat split).
  assert (H1 : setupFailure Sample.refused (Normal Sample.session) =
               Some {| message := "Permission denied" |}) by reflexivity.
  split; [exact H0|]. split; [exact H1|].
  exact (proj1 (failed_connect_releases Sample.steady Sample.refused
                  (Normal Sample.session) newWorld
                  {| message := "Permission denied" |} H0 H1)).
Defined.

(** Two replies whose decodes complete in the opposite order. *)
Lemma schedule_never_overlaps_witness :
  uninterrupted Trial.crossed = true /\
  separated (scheduled (log (world (Sample.run Trial.crossed idle)))) /\
  List.length (scheduled (log (world (Sample.run Trial.crossed idle)))) = 2%nat.
Proof.
  assert (H1 : uninterrupted Trial.crossed = true) by reflexivity.
  split; [exact H1|]. split; [|vm_compute; reflexivity].
  exact (schedule_never_overlaps Sample.decode Codec.bufferOf Sample.createBlob
           Sample.steady Trial.crossed H1).
Defined.

(** A conversation, then "Terminate Session", then "BEGIN RESURRECTION". *)
Lemma terminate_witness :
  let landed := Trial.gesture PressTerminate Trial.conversing in
  let next := Trial.gesture PressBegin landed in
  appState (core Trial.conversing) = ACTIVE /\
  liveServiceRef (core Trial.conversing) = Some Trial.connected /\
  liveServiceRef (core landed) = Some Trial.connected /\
  isMicActive (core landed) = true /\
  retired landed = [] /\
  retired next = [exec (disconnect Sample.steady) Trial.connected].
Proof.
  cbv zeta.
  assert (H1 : appState (core Trial.conversing) = ACTIVE) by (vm_compute; reflexivity).
  assert (H2 : liveServiceRef (core Trial.conversing) = Some Trial.connected)
    by (vm_compute; reflexivity).
  assert (H3 : isMicActive (core Trial.conversing) = true) by (vm_compute; reflexivity).
  assert (H4 : retired Trial.conversing = []) by (vm_compute; reflexivity).
  pose proof (terminate_leaves_session_connected Sample.steady (Some "key"%string)
                Sample.granted (Normal Sample.session) Trial.conversing
                Trial.connected H1 H2)
    as ((_ & Ha & Hb & Hc) & (_ & _ & _ & Hd)).
  cbv zeta in *. rewrite H3 in Hb. rewrite H4 in Hc, Hd.
  split; [exact H1|]. split; [exact H2|].
  unfold Trial.gesture, gesture. rewrite H1.
  split; [exact Ha|]. split; [exact Hb|]. split; [exact Hc|].
  replace (appState _) with LANDING by (vm_compute; reflexivity).
  exact Hd.
Defined.

(** The form with a name and memories, and no relationship. *)
Lemma upload_witness :
  let q := Trial.gesture PressSubmit Trial.filled in
  appState (core Trial.filled) = UPLOAD /\
  interval Trial.filled = None /\
  relationship (profile Trial.filled) = EmptyString /\
  appState (core q) = PROCESSING.
Proof.
  cbv zeta.
  assert (H1 : appState (core Trial.filled) = UPLOAD) by (vm_compute; reflexivity).
  assert (H2 : interval Trial.filled = None) by (vm_compute; reflexivity).
  split; [exact H1|]. split; [exact H2|]. split; [reflexivity|].
  unfold Trial.gesture, gesture. rewrite H1.
  apply (proj1 (upload_needs_name_and_memories Sample.steady (Some "key"%string)
                  Sample.granted (Normal Sample.session) Trial.filled H1 H2)).
  split; discriminate.
Defined.

(** The processing view after the submitted form. *)
Lemma fourth_firing_witness :
  appState (core Trial.submitted) = PROCESSING /\
  interval Trial.submitted = Some 0%nat /\
  liveServiceRef (core Trial.submitted) = None /\
  statusMessage (fires Sample.steady (Some "key"%string) Sample.granted
                       (Normal Sample.session) 3 Trial.submitted) =
    "Establishing Neural Link..."%string.
Proof.
  assert (H1 : appState (core Trial.submitted) = PROCESSING) by (vm_compute; reflexivity).
  assert (H2 : interval Trial.submitted = Some 0%nat) by (vm_compute; reflexivity).
  assert (H3 : liveServiceRef (core Trial.submitted) = None) by (vm_compute; reflexivity).
  split; [exact H1|]. split; [exact H2|]. split; [exact H3|].
  rewrite (proj1 (fourth_firing_starts_session Sample.steady (Some "key"%string)
                    Sample.granted (Normal Sample.session) Trial.submitted H1 H2 H3)
                 3%nat (conj (le_S _ _ (le_S _ _ (le_n 1))) (le_n 4))).
  reflexivity.
Defined.

(** A connect attempt whose handshake is still awaited, then [onopen]. *)
Lemma open_installs_witness :
  let r := Sample.run [Connect Sample.granted] idle in
  registered (world r) = true /\
  processor (this (world r)) = None /\
  processor (this (world (Sample.step Open r))) = Some Trial.node.
Proof.
  cbv zeta.
  assert (H1 : registered (world (Sample.run [Connect Sample.granted] idle)) = true)
    by (vm_compute; reflexivity).
  split; [exact H1|]. split; [vm_compute; reflexivity|].
  exact (proj1 (proj2 (open_always_installs_capture Sample.decode Codec.bufferOf
                         Sample.createBlob Sample.steady [Connect Sample.granted] H1))).
Defined.

(** One window of samples on an open session. *)
Lemma onaudioprocess_witness :
  let w := world Sample.live in
  let w' := exec (onaudioprocess Sample.createBlob Sample.steady [1 # 2]) w in
  processor (this w) = Some Trial.node /\
  sessionPromise (this w) = Some (Fulfilled Sample.session) /\
  log w' = log w ++ [SendRealtimeInput (Sample.createBlob [1 # 2])].
Proof.
  cbv zeta.
  assert (H1 : processor (this (world Sample.live)) = Some Trial.node)
    by (vm_compute; reflexivity).
  assert (H2 : sessionPromise (this (world Sample.live)) = Some (Fulfilled Sample.session))
    by (vm_compute; reflexivity).
  split; [exact H1|]. split; [exact H2|].
  exact (proj1 (proj2 (proj2 (onaudioprocess_never_throws Sample.createBlob
                                Sample.steady [1 # 2] (world Sample.live)))
                      Trial.node Sample.session H1 eq_refl H2)).
Defined.

(** ** Frames one at a time and connect attempts, on sample sessions *)


(** The same three frames start at 0 ms, 200 ms and 400 ms. *)
Example three_frames_of_200ms :
  map (fun start => Qred (fst start))
      (scheduled
         (log (world (Sample.run
                        (oneAtATime [Sample.prompt Sample.silence200;
                                     Sample.prompt Sample.silence200;
                                     Sample.prompt Sample.silence200])
                        Sample.live)))) =
  [0; 1 # 5; 2 # 5]%Q.
Proof. vm_compute. reflexivity. Qed.

(** A session start without a key; a connect with a refused microphone,
    followed by an [onopen], a window of samples and a tick; and a connect
    whose handshake is rejected after an [onopen] and a window of samples,
    followed by another [onopen] and another window. *)
Lemma setup_failures_witness :
  let refusal := {| message := "Permission denied" |} in
  let rejection := {| message := "handshake failed" |} in
  let after := [Open; AudioProcess [1 # 2]; Tick 1] in
  let between := [Open; AudioProcess [1 # 2]] in
  let rest := [Open; AudioProcess [1 # 4]] in
  let without := startSession Sample.steady None Sample.refused
                              (Normal Sample.session) Sample.app in
  let denied := Sample.run (Connect Sample.refused :: after) idle in
  let pending := Sample.run (Connect Sample.granted :: between) idle in
  let rejected := Sample.step (Handshake (Throw rejection)) pending in
  truthy None = None /\
  deviceFailure Sample.refused = Some refusal /\
  unconnected (world idle) /\
  noConnect after = true /\
  deviceFailure Sample.granted = None /\
  meanwhile between = true /\
  noConnect rest = true /\
  (appState without = ERROR /\
   errorMsg without = Some "API Key not found in environment."%string /\
   liveServiceRef without = liveServiceRef Sample.app) /\
  (unconnected (world denied) /\
   filter isCapture (log (world denied)) = filter isCapture (log (world idle))) /\
  (filter isOnError (log (world rejected)) =
     filter isOnError (log (world pending)) ++ [OnError (describe rejection)] /\
   filter isSend (log (world (Sample.run rest rejected))) =
     filter isSend (log (world idle))).
Proof.
  cbv zeta.
  assert (H1 : deviceFailure Sample.refused = Some {| message := "Permission denied" |})
    by reflexivity.
  assert (H2 : unconnected (world idle)) by (split; reflexivity).
  assert (H3 : noConnect [Open; AudioProcess [1 # 2]; Tick 1] = true) by reflexivity.
  assert (H4 : deviceFailure Sample.granted = None) by reflexivity.
  assert (H5 : meanwhile [Open; AudioProcess [1 # 2]] = true) by reflexivity.
  assert (H6 : noConnect [Open; AudioProcess [1 # 4]] = true) by reflexivity.
  split; [reflexivity|]. split; [exact H1|]. split; [exact H2|]. split; [exact H3|].
  split; [exact H4|]. split; [exact H5|]. split; [exact H6|].
  split; [|split].
  - exact (proj1 (setup_failures_reported Sample.decode Codec.bufferOf
                    Sample.createBlob Sample.steady None Sample.app Sample.refused
                    (Normal Sample.session) idle
                    {| message := "Permission denied" |}) eq_refl).
  - exact (proj2 (proj2 (proj1 (proj2
             (setup_failures_reported Sample.decode Codec.bufferOf
                Sample.createBlob Sample.steady None Sample.app Sample.refused
                (Normal Sample.session) idle
                {| message := "Permission denied" |})) H1))
             H2 [Open; AudioProcess [1 # 2]; Tick 1] H3).
  - exact (proj2 (proj2 (proj2 (proj2
             (setup_failures_reported Sample.decode Codec.bufferOf
                Sample.createBlob Sample.steady None Sample.app Sample.granted
                (Normal Sample.session) idle
                {| message := "handshake failed" |})) H4
             [Open; AudioProcess [1 # 2]] [Open; AudioProcess [1 # 4]] H5 H6))).
Defined.
